(** * gbulb: the GLib event loop adapter ([gbulb/glib_events.py])

    A shallow embedding of the event-loop adapter: handles and their
    cancellation, the ready queue and its dispatcher, timer / fd / signal /
    child registration, the process-wide default SIGINT handler and the
    owned-loop life cycle ([GLibEventLoop]).

    Python objects that are shared and mutated (handles, GLib sources,
    futures) live in stores indexed by their identity; a reference to such
    an object is its index.  Callbacks are programs over the loop's public
    scheduling interface. *)

From Stdlib Require Import ZArith QArith String List Lia Lqa.
From stdpp Require Import base option list gmap sets.
Import ListNotations.

Set Warnings "-register-all".

Local Open Scope string_scope.
Local Open Scope list_scope.
Local Open Scope Z_scope.

(** ** Python values, exceptions and results *)

Inductive pyval :=
| VNone
| VInt (z : Z)
| VStr (s : string)
| VFuture (f : nat).

Inductive exn :=
| RuntimeError (msg : string)
| ValueError (msg : string)
| KeyboardInterrupt
| InvalidStateError
| AttributeError (msg : string)
| AssertionError (msg : string).

Inductive result (A : Type) :=
| Ok (a : A)
| Raise (e : exn).
Arguments Ok {A} a.
Arguments Raise {A} e.

(** ** Callbacks

    A callback is a piece of user code that talks to the loop through its
    scheduling interface.  [cb_name] stands for the identity of the function
    object (Python compares functions by identity). *)

Inductive context :=
| DefaultContext                 (* GLib.main_context_default() *)
| MainContext (n : nat).         (* GLib.MainContext() *)

Inductive action :=
| ACallSoon (cb : callback) (args : list pyval)
| ACallLater (delay : Q) (cb : callback) (args : list pyval)
| AAddReader (fd : Z) (cb : callback) (args : list pyval)
| ARemoveReader (fd : Z)
| AAddWriter (fd : Z) (cb : callback) (args : list pyval)
| ARemoveWriter (fd : Z)
| AAddSignalHandler (sig : Z) (cb : callback) (args : list pyval)
| ARemoveSignalHandler (sig : Z)
| AAddChildHandler (pid : Z) (cb : callback) (args : list pyval)
| ARemoveChildHandler (pid : Z)
| ACancel (h : nat)                      (* handle.cancel() *)
| AStop                                  (* loop.stop() *)
| AInterrupt                             (* interrupt(loop) of DefaultSigINTHandler *)
| ASetResult (fut : nat) (v : pyval)     (* future.set_result(v) *)
| ASetException (fut : nat) (e : exn)    (* future.set_exception(e) *)
with callback :=
| Callback (cb_name : string) (cb_body : list action).

Definition cb_name (c : callback) : string :=
  match c with Callback n _ => n end.

Definition cb_body (c : callback) : list action :=
  match c with Callback _ b => b end.

Definition same_callback (c1 c2 : callback) : bool :=
  String.eqb (cb_name c1) (cb_name c2).

(** ** GLib sources *)

Inductive io_condition := IO_IN | IO_OUT.

Inductive source_kind :=
| Timeout (interval : Q)                     (* GLib.Timeout(ms) *)
| UnixFd (fd : Z) (cond : io_condition)      (* GLib.unix_fd_source_new *)
| UnixSignal (sig : Z)                       (* GLib.unix_signal_source_new *)
| ChildWatch (pid : Z).                      (* GLib.child_watch_add *)

(** What the source calls when it fires: [source.set_callback(f, data)]. *)
Inductive source_callback :=
| CbHandle (h : nat)        (* GLibHandle._callback, data = the handle *)
| CbChild (h : nat)         (* GLibChildHandle._callback *)
| CbWakeup.                 (* wakeup_cb of _schedule_dispatch *)

Record source := Source {
  src_kind : source_kind;
  src_callback : source_callback;
  src_context : context;         (* source.attach(context) *)
  src_destroyed : bool
}.

(** ** Handles *)

Inductive handle_class :=
| Handle                                     (* events.Handle *)
| GLibHandle (_source : nat) (_repeat : bool)
| GLibChildHandle (_source : nat).

Record handle := MkHandle {
  h_class : handle_class;
  h_callback : callback;
  h_args : list pyval;
  h_cancelled : bool;
  h_ready : bool            (* GLibHandle._ready *)
}.

(** ** Futures (the part of the task runtime's interface the loop uses) *)

Record future := MkFuture {
  f_state : option (result pyval);     (* None: still pending *)
  f_callbacks : list callback
}.

(** ** The process-wide default SIGINT handler

    [_loop] is [None], or a weak reference, which is dead ([Some None]) or
    points to a loop ([Some (Some id)]). *)

Record DefaultSigINTHandler := MkSigINT {
  sigint_loop : option (option nat)
}.

(** ** The loop *)

Record MainLoop := MkMainLoop { is_running : bool }.

Inductive event :=
| EvDispatch (h : nat)     (* print("dispatch", handle); handle._run() *)
| EvStop                   (* stop() was called *)
| EvEnterRun               (* print("enter run()") *)
| EvLeaveRun.              (* print("leave run()") *)

Record loop := MkLoop {
  loop_id : nat;
  _context : context;
  _readers : gmap Z nat;
  _writers : gmap Z nat;
  _sighandlers : gmap Z nat;
  _chldhandlers : gmap Z nat;
  _handlers : gset nat;
  _ready : list nat;
  _wakeup : option nat;
  _will_dispatch : bool;
  _mainloop : option MainLoop;
  _interrupted : bool;
  _default_sigint_handler : option DefaultSigINTHandler;
  handles : list handle;
  sources : list source;
  futures : list future;
  trace : list event
}.

(** Field updates ([self.x = v]). *)

Definition set_readers (v : gmap Z nat) (s : loop) : loop :=
  MkLoop (loop_id s) (_context s) v (_writers s) (_sighandlers s)
    (_chldhandlers s) (_handlers s) (_ready s) (_wakeup s) (_will_dispatch s)
    (_mainloop s) (_interrupted s) (_default_sigint_handler s) (handles s)
    (sources s) (futures s) (trace s).

Definition set_writers (v : gmap Z nat) (s : loop) : loop :=
  MkLoop (loop_id s) (_context s) (_readers s) v (_sighandlers s)
    (_chldhandlers s) (_handlers s) (_ready s) (_wakeup s) (_will_dispatch s)
    (_mainloop s) (_interrupted s) (_default_sigint_handler s) (handles s)
    (sources s) (futures s) (trace s).

Definition set_sighandlers (v : gmap Z nat) (s : loop) : loop :=
  MkLoop (loop_id s) (_context s) (_readers s) (_writers s) v
    (_chldhandlers s) (_handlers s) (_ready s) (_wakeup s) (_will_dispatch s)
    (_mainloop s) (_interrupted s) (_default_sigint_handler s) (handles s)
    (sources s) (futures s) (trace s).

Definition set_chldhandlers (v : gmap Z nat) (s : loop) : loop :=
  MkLoop (loop_id s) (_context s) (_readers s) (_writers s) (_sighandlers s)
    v (_handlers s) (_ready s) (_wakeup s) (_will_dispatch s)
    (_mainloop s) (_interrupted s) (_default_sigint_handler s) (handles s)
    (sources s) (futures s) (trace s).

Definition set_handlers (v : gset nat) (s : loop) : loop :=
  MkLoop (loop_id s) (_context s) (_readers s) (_writers s) (_sighandlers s)
    (_chldhandlers s) v (_ready s) (_wakeup s) (_will_dispatch s)
    (_mainloop s) (_interrupted s) (_default_sigint_handler s) (handles s)
    (sources s) (futures s) (trace s).

Definition set_ready (v : list nat) (s : loop) : loop :=
  MkLoop (loop_id s) (_context s) (_readers s) (_writers s) (_sighandlers s)
    (_chldhandlers s) (_handlers s) v (_wakeup s) (_will_dispatch s)
    (_mainloop s) (_interrupted s) (_default_sigint_handler s) (handles s)
    (sources s) (futures s) (trace s).

Definition set_wakeup (v : option nat) (s : loop) : loop :=
  MkLoop (loop_id s) (_context s) (_readers s) (_writers s) (_sighandlers s)
    (_chldhandlers s) (_handlers s) (_ready s) v (_will_dispatch s)
    (_mainloop s) (_interrupted s) (_default_sigint_handler s) (handles s)
    (sources s) (futures s) (trace s).

Definition set_will_dispatch (v : bool) (s : loop) : loop :=
  MkLoop (loop_id s) (_context s) (_readers s) (_writers s) (_sighandlers s)
    (_chldhandlers s) (_handlers s) (_ready s) (_wakeup s) v
    (_mainloop s) (_interrupted s) (_default_sigint_handler s) (handles s)
    (sources s) (futures s) (trace s).

Definition set_mainloop (v : option MainLoop) (s : loop) : loop :=
  MkLoop (loop_id s) (_context s) (_readers s) (_writers s) (_sighandlers s)
    (_chldhandlers s) (_handlers s) (_ready s) (_wakeup s) (_will_dispatch s)
    v (_interrupted s) (_default_sigint_handler s) (handles s)
    (sources s) (futures s) (trace s).

Definition set_interrupted (v : bool) (s : loop) : loop :=
  MkLoop (loop_id s) (_context s) (_readers s) (_writers s) (_sighandlers s)
    (_chldhandlers s) (_handlers s) (_ready s) (_wakeup s) (_will_dispatch s)
    (_mainloop s) v (_default_sigint_handler s) (handles s)
    (sources s) (futures s) (trace s).

Definition set_default_sigint_handler (v : option DefaultSigINTHandler)
    (s : loop) : loop :=
  MkLoop (loop_id s) (_context s) (_readers s) (_writers s) (_sighandlers s)
    (_chldhandlers s) (_handlers s) (_ready s) (_wakeup s) (_will_dispatch s)
    (_mainloop s) (_interrupted s) v (handles s)
    (sources s) (futures s) (trace s).

Definition set_handles (v : list handle) (s : loop) : loop :=
  MkLoop (loop_id s) (_context s) (_readers s) (_writers s) (_sighandlers s)
    (_chldhandlers s) (_handlers s) (_ready s) (_wakeup s) (_will_dispatch s)
    (_mainloop s) (_interrupted s) (_default_sigint_handler s) v
    (sources s) (futures s) (trace s).

Definition set_sources (v : list source) (s : loop) : loop :=
  MkLoop (loop_id s) (_context s) (_readers s) (_writers s) (_sighandlers s)
    (_chldhandlers s) (_handlers s) (_ready s) (_wakeup s) (_will_dispatch s)
    (_mainloop s) (_interrupted s) (_default_sigint_handler s) (handles s)
    v (futures s) (trace s).

Definition set_futures (v : list future) (s : loop) : loop :=
  MkLoop (loop_id s) (_context s) (_readers s) (_writers s) (_sighandlers s)
    (_chldhandlers s) (_handlers s) (_ready s) (_wakeup s) (_will_dispatch s)
    (_mainloop s) (_interrupted s) (_default_sigint_handler s) (handles s)
    (sources s) v (trace s).

Definition set_trace (v : list event) (s : loop) : loop :=
  MkLoop (loop_id s) (_context s) (_readers s) (_writers s) (_sighandlers s)
    (_chldhandlers s) (_handlers s) (_ready s) (_wakeup s) (_will_dispatch s)
    (_mainloop s) (_interrupted s) (_default_sigint_handler s) (handles s)
    (sources s) (futures s) v.

Definition emit (e : event) (s : loop) : loop :=
  set_trace (trace s ++ [e]) s.

(** ** What the platform provides

    The wait-status macros of [os], the signal validation inherited from
    [unix_events.SelectorEventLoop] and GLib's choice of signals it can
    watch are not part of this module; the adapter is stated over them. *)

Class Platform := {
  WIFSIGNALED : Z -> bool;
  WTERMSIG : Z -> Z;
  WIFEXITED : Z -> bool;
  WEXITSTATUS : Z -> Z;
  SIGKILL : Z;
  (* [None] when [_check_signal(sig)] returns, the exception otherwise *)
  _check_signal : Z -> option exn;
  (* whether [GLib.unix_signal_source_new(sig)] yields a source (not None) *)
  unix_signal_source_new : Z -> bool
}.

(** Linux wait-status encoding, [signal.NSIG = 65], and the signals
    [g_unix_signal_source_new] accepts (HUP, INT, USR1, USR2, TERM, WINCH). *)
Definition linux_glib : Platform := {|
  WIFSIGNALED st :=
    negb (Z.land st 127 =? 0) && negb (Z.land st 127 =? 127);
  WTERMSIG st := Z.land st 127;
  WIFEXITED st := Z.land st 127 =? 0;
  WEXITSTATUS st := Z.land (Z.shiftr st 8) 255;
  SIGKILL := 9;
  _check_signal sig :=
    if (1 <=? sig) && (sig <? 65) then None
    else Some (ValueError "sig out of range");
  unix_signal_source_new sig :=
    bool_decide (sig ∈ [1; 2; 10; 12; 15; 28])
|}.

(** What GLib does during one iteration of the context. *)
Inductive glib_event :=
| Fires (src : nat)                       (* a timer, fd or signal source *)
| ChildExits (src : nat) (status : Z)     (* a child watch *)
| SigINT.                                 (* the default SIGINT source *)

(** How a call that may block in the foreign main loop ends. *)
Inductive outcome (A : Type) :=
| Returns (r : result A) (s : loop)
| Blocks (s : loop).            (* the main loop is never asked to quit *)
Arguments Returns {A} r s.
Arguments Blocks {A} s.

Global Instance context_eq_dec : EqDecision context.
Proof. solve_decision. Defined.

(** File descriptors are given as an [int] or as an object with
    [fileno()]. *)
Inductive fd_like :=
| FdInt (fd : Z)
| FdObject (fileno : Z).

Definition resolve_fd (fd : fd_like) : Z :=
  match fd with FdInt n => n | FdObject n => n end.

Section Adapter.
Context {P : Platform}.

(** ** events.Handle, GLibHandle, GLibChildHandle *)

Definition mark_cancelled (hd : handle) : handle :=
  MkHandle (h_class hd) (h_callback hd) (h_args hd) true (h_ready hd).

Definition mark_ready (b : bool) (hd : handle) : handle :=
  MkHandle (h_class hd) (h_callback hd) (h_args hd) (h_cancelled hd) b.

Definition append_arg (v : pyval) (hd : handle) : handle :=
  MkHandle (h_class hd) (h_callback hd) (h_args hd ++ [v]) (h_cancelled hd)
    (h_ready hd).

(** [handle._cancelled]; a reference to no handle is skipped like a
    cancelled one. *)
Definition is_cancelled (s : loop) (h : nat) : bool :=
  match handles s !! h with
  | Some hd => h_cancelled hd
  | None => true
  end.

(** [source.destroy()] / [GLib.source_remove(source)] *)
Definition destroy (src : nat) (s : loop) : loop :=
  set_sources
    (alter (fun x => Source (src_kind x) (src_callback x) (src_context x) true)
       src (sources s)) s.

(** [handle.cancel()], by class of the handle. *)
Definition cancel (h : nat) (s : loop) : loop :=
  match handles s !! h with
  | None => s
  | Some hd =>
      let s1 := set_handles (<[h := mark_cancelled hd]> (handles s)) s in
      match h_class hd with
      | Handle => s1
      | GLibHandle src _ | GLibChildHandle src =>
          let s2 := destroy src s1 in
          set_handlers (_handlers s2 ∖ {[h]}) s2
      end
  end.

(** [GLibHandle(loop, source, repeat, callback, args)], the source being
    created by the caller just before. *)
Definition GLibHandle_init (kind : source_kind) (repeat : bool)
    (cb : callback) (args : list pyval) (s : loop) : nat * loop :=
  let src := length (sources s) in
  let h := length (handles s) in
  let s1 := set_sources
              (sources s ++ [Source kind (CbHandle h) (_context s) false]) s in
  let s2 := set_handles
              (handles s1 ++ [MkHandle (GLibHandle src repeat) cb args false false])
              s1 in
  (h, set_handlers (_handlers s2 ∪ {[h]}) s2).

(** [GLibChildHandle(loop, pid, callback, args)] *)
Definition GLibChildHandle_init (pid : Z) (cb : callback) (args : list pyval)
    (s : loop) : result nat * loop :=
  if decide (_context s = DefaultContext) then
    let src := length (sources s) in
    let h := length (handles s) in
    let s1 := set_sources
                (sources s ++ [Source (ChildWatch pid) (CbChild h) DefaultContext false])
                s in
    let s2 := set_handles
                (handles s1 ++ [MkHandle (GLibChildHandle src) cb args false false])
                s1 in
    (Ok h, set_handlers (_handlers s2 ∪ {[h]}) s2)
  else
    (Raise (RuntimeError
       "Children processes cannot be monitored outside the main event loop"), s).

(** The return code [GLibChildHandle._callback] computes from the wait
    status. *)
Definition child_returncode (status : Z) : option Z :=
  if WIFSIGNALED status then Some (- WTERMSIG status)
  else if WIFEXITED status then
    let returncode := WEXITSTATUS status in
    if 128 <? returncode then Some (128 - returncode) else Some returncode
  else None.

Definition returncode_val (r : option Z) : pyval :=
  match r with Some z => VInt z | None => VNone end.

(** ** BaseGlibEventLoop: scheduling *)

Definition _schedule_dispatch (s : loop) : loop :=
  match _ready s, _wakeup s with
  | [], _ => s
  | _ :: _, Some _ => s
  | _ :: _, None =>
      let w := length (sources s) in
      let s1 := set_sources
                  (sources s ++ [Source (Timeout 0) CbWakeup (_context s) false]) s in
      set_wakeup (Some w) s1
  end.

Definition call_soon (cb : callback) (args : list pyval) (s : loop)
    : nat * loop :=
  let h := length (handles s) in
  let s1 := set_handles (handles s ++ [MkHandle Handle cb args false false]) s in
  let s2 := set_ready (_ready s1 ++ [h]) s1 in
  (h, if _will_dispatch s2 then s2 else _schedule_dispatch s2).

Definition call_later (delay : Q) (cb : callback) (args : list pyval)
    (s : loop) : nat * loop :=
  if Qle_bool delay 0 then call_soon cb args s
  else
    GLibHandle_init
      (Timeout (if negb (Qle_bool delay 0) then delay * 1000 else 0)%Q)
      false cb args s.

(** ** Readers and writers *)

Definition remove_reader (fd : fd_like) (s : loop) : bool * loop :=
  let fd := resolve_fd fd in
  match _readers s !! fd with
  | Some h => (true, cancel h (set_readers (delete fd (_readers s)) s))
  | None => (false, s)
  end.

Definition add_reader (fd : fd_like) (cb : callback) (args : list pyval)
    (s : loop) : loop :=
  let fd := resolve_fd fd in
  let s1 := (remove_reader (FdInt fd) s).2 in
  let '(h, s2) := GLibHandle_init (UnixFd fd IO_IN) true cb args s1 in
  set_readers (<[fd := h]> (_readers s2)) s2.

Definition remove_writer (fd : fd_like) (s : loop) : bool * loop :=
  let fd := resolve_fd fd in
  match _writers s !! fd with
  | Some h => (true, cancel h (set_writers (delete fd (_writers s)) s))
  | None => (false, s)
  end.

Definition add_writer (fd : fd_like) (cb : callback) (args : list pyval)
    (s : loop) : loop :=
  let fd := resolve_fd fd in
  let s1 := (remove_writer (FdInt fd) s).2 in
  let '(h, s2) := GLibHandle_init (UnixFd fd IO_OUT) true cb args s1 in
  set_writers (<[fd := h]> (_writers s2)) s2.

(** ** Signals *)

Definition remove_signal_handler (sig : Z) (s : loop) : result bool * loop :=
  match _check_signal sig with
  | Some e => (Raise e, s)
  | None =>
      match _sighandlers s !! sig with
      | Some h =>
          (Ok true, cancel h (set_sighandlers (delete sig (_sighandlers s)) s))
      | None => (Ok false, s)
      end
  end.

Definition add_signal_handler (sig : Z) (cb : callback) (args : list pyval)
    (s : loop) : result unit * loop :=
  match _check_signal sig with
  | Some e => (Raise e, s)
  | None =>
      match remove_signal_handler sig s with
      | (Raise e, s1) => (Raise e, s1)
      | (Ok _, s1) =>
          if unix_signal_source_new sig then
            let '(h, s2) := GLibHandle_init (UnixSignal sig) true cb args s1 in
            (Ok tt, set_sighandlers (<[sig := h]> (_sighandlers s2)) s2)
          else if decide (sig = SIGKILL) then
            (Raise (RuntimeError "cannot catch SIGKILL"), s1)
          else
            (Raise (ValueError "signal not supported"), s1)
      end
  end.

(** ** Child watches *)

Definition _remove_child_handler (pid : Z) (s : loop) : bool * loop :=
  match _chldhandlers s !! pid with
  | Some h =>
      (true, cancel h (set_chldhandlers (delete pid (_chldhandlers s)) s))
  | None => (false, s)
  end.

Definition _add_child_handler (pid : Z) (cb : callback) (args : list pyval)
    (s : loop) : result unit * loop :=
  let s1 := (_remove_child_handler pid s).2 in
  match GLibChildHandle_init pid cb args s1 with
  | (Raise e, s2) => (Raise e, s2)
  | (Ok h, s2) => (Ok tt, set_chldhandlers (<[pid := h]> (_chldhandlers s2)) s2)
  end.

(** ** The default SIGINT handler *)

Definition attach (loop : nat) (d : DefaultSigINTHandler)
    : DefaultSigINTHandler :=
  MkSigINT (Some (Some loop)).

Definition detach (loop : nat) (d : DefaultSigINTHandler)
    : DefaultSigINTHandler :=
  match sigint_loop d with
  | Some (Some l) => if decide (l = loop) then MkSigINT None else d
  | Some None => d
  | None => d
  end.

(** ** Futures, as the task runtime implements them *)

Definition get_future (s : loop) (f : nat) : future :=
  default (MkFuture None []) (futures s !! f).

Definition done (s : loop) (f : nat) : bool :=
  match f_state (get_future s f) with Some _ => true | None => false end.

Definition add_done_callback (f : nat) (fn : callback) (s : loop) : loop :=
  match f_state (get_future s f) with
  | Some _ => (call_soon fn [VFuture f] s).2
  | None =>
      set_futures
        (alter (fun fu => MkFuture (f_state fu) (f_callbacks fu ++ [fn])) f
           (futures s)) s
  end.

Definition remove_done_callback (f : nat) (fn : callback) (s : loop) : loop :=
  set_futures
    (alter (fun fu =>
              MkFuture (f_state fu)
                (filter (fun c => same_callback c fn = false) (f_callbacks fu)))
       f (futures s)) s.

Definition _schedule_callbacks (f : nat) (s : loop) : loop :=
  let callbacks := f_callbacks (get_future s f) in
  let s1 := set_futures
              (alter (fun fu => MkFuture (f_state fu) []) f (futures s)) s in
  fold_left (fun acc cb => (call_soon cb [VFuture f] acc).2) callbacks s1.

Definition set_outcome (f : nat) (r : result pyval) (s : loop)
    : result unit * loop :=
  match futures s !! f with
  | Some (MkFuture None _) =>
      let s1 := set_futures
                  (alter (fun fu => MkFuture (Some r) (f_callbacks fu)) f
                     (futures s)) s in
      (Ok tt, _schedule_callbacks f s1)
  | _ => (Raise InvalidStateError, s)
  end.

(** ** GLibEventLoop.stop and the interrupt callback *)

Definition stop (s : loop) : loop :=
  let s1 := emit EvStop s in
  match _mainloop s1 with
  | Some _ => set_mainloop (Some (MkMainLoop false)) s1     (* quit() *)
  | None => s1
  end.

Definition interrupt (s : loop) : loop :=
  stop (set_interrupted true s).

Definition interrupt_cb : callback := Callback "interrupt" [AInterrupt].

(** ** Running callbacks *)

Definition run_action (a : action) (s : loop) : result unit * loop :=
  match a with
  | ACallSoon cb args => (Ok tt, (call_soon cb args s).2)
  | ACallLater delay cb args => (Ok tt, (call_later delay cb args s).2)
  | AAddReader fd cb args => (Ok tt, add_reader (FdInt fd) cb args s)
  | ARemoveReader fd => (Ok tt, (remove_reader (FdInt fd) s).2)
  | AAddWriter fd cb args => (Ok tt, add_writer (FdInt fd) cb args s)
  | ARemoveWriter fd => (Ok tt, (remove_writer (FdInt fd) s).2)
  | AAddSignalHandler sig cb args => add_signal_handler sig cb args s
  | ARemoveSignalHandler sig =>
      match remove_signal_handler sig s with
      | (Ok _, s1) => (Ok tt, s1)
      | (Raise e, s1) => (Raise e, s1)
      end
  | AAddChildHandler pid cb args => _add_child_handler pid cb args s
  | ARemoveChildHandler pid => (Ok tt, (_remove_child_handler pid s).2)
  | ACancel h => (Ok tt, cancel h s)
  | AStop => (Ok tt, stop s)
  | AInterrupt => (Ok tt, interrupt s)
  | ASetResult f v => set_outcome f (Ok v) s
  | ASetException f e => set_outcome f (Raise e) s
  end.

(** The body of a callback runs until it ends or an action raises;
    [Handle._run] catches and logs the exception. *)
Fixpoint run_actions (body : list action) (s : loop) : loop :=
  match body with
  | [] => s
  | a :: rest =>
      match run_action a s with
      | (Ok _, s1) => run_actions rest s1
      | (Raise _, s1) => s1
      end
  end.

(** [handle._run()] *)
Definition _run (h : nat) (s : loop) : loop :=
  match handles s !! h with
  | None => s
  | Some hd =>
      let s1 := match h_class hd with
                | GLibHandle _ _ =>
                    set_handles (<[h := mark_ready false hd]> (handles s)) s
                | _ => s
                end in
      run_actions (cb_body (h_callback hd)) s1
  end.

(** ** The dispatcher

    [popleft()] raises on an empty queue; callbacks only append to the
    queue, so that the [ntodo] handles counted on entry are there when the
    loop pops them ([dispatch_loop_spec]), and the empty case is never
    reached. *)

Fixpoint _dispatch_loop (ntodo : nat) (s : loop) : loop :=
  match ntodo with
  | O => s
  | S n =>
      match _ready s with
      | [] => s
      | handle :: rest =>
          let s1 := set_ready rest s in                  (* popleft() *)
          if is_cancelled s1 handle then _dispatch_loop n s1
          else _dispatch_loop n (_run handle (emit (EvDispatch handle) s1))
      end
  end.

Definition _dispatch (s : loop) : loop :=
  let s1 := set_will_dispatch true s in
  let ntodo := length (_ready s1) in
  let s2 := _dispatch_loop ntodo s1 in
  let s3 := _schedule_dispatch s2 in
  set_will_dispatch false s3.

(** ** Callbacks GLib invokes when a source fires *)

(** [GLibHandle._callback]; the boolean tells GLib to keep the source. *)
Definition GLibHandle_callback (h : nat) (s : loop) : bool * loop :=
  match handles s !! h with
  | Some (MkHandle (GLibHandle src repeat) cb args c rdy as hd) =>
      let s1 := if rdy then s
                else set_ready (_ready s ++ [h])
                       (set_handles (<[h := mark_ready true hd]> (handles s)) s) in
      let s2 := _dispatch s1 in
      (repeat, if repeat then s2 else set_handlers (_handlers s2 ∖ {[h]}) s2)
  | _ => (false, s)
  end.

(** [GLibChildHandle._callback(pid, status, self)] *)
Definition GLibChildHandle_callback (status : Z) (h : nat) (s : loop) : loop :=
  match handles s !! h with
  | Some hd =>
      let returncode := child_returncode status in
      let s1 := set_handles
                  (<[h := append_arg (returncode_val returncode) hd]> (handles s))
                  s in
      _dispatch (set_ready (_ready s1 ++ [h]) s1)
  | None => s
  end.

(** [wakeup_cb] of [_schedule_dispatch] *)
Definition wakeup_cb (s : loop) : bool * loop :=
  let s1 := _dispatch s in
  match _ready s1 with
  | _ :: _ => (true, s1)
  | [] =>
      match _wakeup s1 with
      | Some w => (false, set_wakeup None (destroy w s1))
      | None => (false, s1)
      end
  end.

(** [DefaultSigINTHandler._callback], seen from the loop [s]: the interrupt
    callback is scheduled on the attached loop when that loop is [s]. *)
Definition DefaultSigINTHandler_callback (s : loop) : loop :=
  match _default_sigint_handler s with
  | Some (MkSigINT (Some (Some l))) =>
      if decide (l = loop_id s) then (call_soon interrupt_cb [] s).2 else s
  | _ => s
  end.

Definition glib_dispatch (e : glib_event) (s : loop) : loop :=
  match e with
  | Fires src =>
      match sources s !! src with
      | Some (Source _ cb ctx false) =>
          if decide (ctx = _context s) then
            match cb with
            | CbHandle h =>
                let '(keep, s1) := GLibHandle_callback h s in
                if keep then s1 else destroy src s1
            | CbWakeup =>
                let '(keep, s1) := wakeup_cb s in
                if keep then s1 else destroy src s1
            | CbChild _ => s
            end
          else s
      | _ => s
      end
  | ChildExits src status =>
      match sources s !! src with
      | Some (Source (ChildWatch _) (CbChild h) ctx false) =>
          if decide (ctx = _context s) then
            destroy src (GLibChildHandle_callback status h s)
          else s
      | _ => s
      end
  | SigINT =>
      if decide (_context s = DefaultContext) then
        DefaultSigINTHandler_callback s
      else s
  end.

(** ** GLibEventLoop.run_forever *)

Definition mainloop_is_running (s : loop) : bool :=
  match _mainloop s with
  | Some l => is_running l
  | None => false
  end.

(** The iterations of [MainLoop.run()] over [script], the callbacks GLib
    has to deliver: the loop iterates while its running flag is up.  The
    result is [(true, s)] when [run()] returns in state [s], and [(false, s)]
    when everything was delivered and nobody asked the loop to quit, so that
    [run()] stays blocked in state [s]. *)
Fixpoint iterate (script : list glib_event) (s : loop) : bool * loop :=
  if mainloop_is_running s then
    match script with
    | [] => (false, s)
    | e :: rest => iterate rest (glib_dispatch e s)
    end
  else (true, s).

(** [l.run()]: GLib raises the running flag on entry. *)
Definition MainLoop_run (script : list glib_event) (s : loop) : bool * loop :=
  iterate script (set_mainloop (Some (MkMainLoop true)) s).

(** The end of [run_forever]: the interrupted flag, then the [finally]
    clause. *)
Definition run_forever_exit (s : loop) : outcome unit :=
  if _interrupted s then
    Returns (Raise KeyboardInterrupt)
      (set_mainloop None (set_interrupted false s))
  else Returns (Ok tt) (set_mainloop None s).

Definition run_forever (script : list glib_event) (s : loop) : outcome unit :=
  match _mainloop s with
  | Some _ => Returns (Raise (RuntimeError "Event loop is running.")) s
  | None =>
      let s1 := set_mainloop (Some (MkMainLoop true)) s in
      let s2 := _dispatch s1 in
      if mainloop_is_running s2 then
        match MainLoop_run script (emit EvEnterRun s2) with
        | (true, s3) => run_forever_exit (emit EvLeaveRun s3)
        | (false, s3) => Blocks s3
        end
      else run_forever_exit s2
  end.

(** ** run_until_complete

    [run_forever] is the method of the concrete loop class. *)

Definition stop_cb : callback := Callback "stop" [AStop].

Definition future_result (s : loop) (f : nat) : result pyval :=
  match f_state (get_future s f) with
  | Some r => r
  | None => Raise InvalidStateError
  end.

Definition run_until_complete (run_forever : loop -> outcome unit)
    (future : nat) (s : loop) : outcome pyval :=
  let s1 := add_done_callback future stop_cb s in
  match run_forever s1 with
  | Blocks s2 => Blocks s2
  | Returns (Raise e) s2 =>
      Returns (Raise e) (remove_done_callback future stop_cb s2)
  | Returns (Ok _) s2 =>
      let s3 := remove_done_callback future stop_cb s2 in
      if negb (done s3 future) then
        Returns (Raise (RuntimeError
                   "Event loop stopped before Future completed.")) s3
      else Returns (future_result s3 future) s3
  end.

(** ** close and construction *)

Definition close (s : loop) : result unit * loop :=
  let s1 := fold_left (fun acc h => cancel h acc) (elements (_handlers s)) s in
  match _default_sigint_handler s1 with
  | Some d => (Ok tt, set_default_sigint_handler (Some (detach (loop_id s1) d)) s1)
  | None =>
      (Raise (AttributeError "_default_sigint_handler"), s1)
  end.

(** [GLibEventLoop(glib_context)]: [id] is the identity of the new loop,
    [fresh] the context [GLib.MainContext()] would return and [sigint] the
    class attribute [_default_sigint_handler]. *)
Definition init (id : nat) (glib_context : option context) (fresh : nat)
    (sigint : option DefaultSigINTHandler) : result loop :=
  let ctx := match glib_context with
             | Some c => c
             | None => MainContext fresh
             end in
  let s := MkLoop id ctx ∅ ∅ ∅ ∅ ∅ [] None false None false sigint [] [] [] [] in
  if decide (ctx = DefaultContext) then
    match sigint with
    | Some d => Ok (set_default_sigint_handler (Some (attach id d)) s)
    | None =>
        Raise (AssertionError "Must call BaseGlibEventLoop.init_class() first")
    end
  else Ok s.

(** The steps by which a loop evolves: the program calls its interface,
    GLib delivers a callback while something else iterates the context, or
    the program runs the loop. *)
Inductive step :=
| Call (a : action)
| Foreign (e : glib_event)
| DispatchPass
| RunForever (script : list glib_event)
| RunUntilComplete (f : nat) (script : list glib_event)
| Close
| NewFuture.

Definition outcome_state {A : Type} (o : outcome A) : loop :=
  match o with
  | Returns _ s => s
  | Blocks s => s
  end.

Definition do_step (st : step) (s : loop) : loop :=
  match st with
  | Call a => (run_action a s).2
  | Foreign e => glib_dispatch e s
  | DispatchPass => _dispatch s
  | RunForever script => outcome_state (run_forever script s)
  | RunUntilComplete f script =>
      outcome_state (run_until_complete (run_forever script) f s)
  | Close => (close s).2
  | NewFuture => set_futures (futures s ++ [MkFuture None []]) s
  end.

Definition do_steps (steps : list step) (s : loop) : loop :=
  fold_left (fun acc st => do_step st acc) steps s.

(** The states a loop created by [init] can be in. *)
Definition reachable (s : loop) : Prop :=
  exists id glib_context fresh sigint s0 steps,
    init id glib_context fresh sigint = Ok s0 /\ s = do_steps steps s0.

(** ** call_at and time

    A Python float is an IEEE binary64 number; a finite one is written
    here as the rational it denotes.  True division of two integers and
    the subtraction of two floats return the float nearest to the exact
    result, ties going to the even significand.  Both results below are
    far from the overflow threshold, and a difference of two floats never
    underflows, so the exponent range plays no part. *)







(** ** init_class and the loop policy

    The class attribute [_default_sigint_handler], the loops the policy has
    created and the contexts GLib has handed out make up the process.  A
    loop of another kind than [GLibEventLoop] is opaque. *)

Inductive loop_object :=
| GLibEventLoopObject (l : loop)
| DefaultLoopObject.                (* a loop of events.DefaultEventLoopPolicy *)

Record process := MkProcess {
  class_sigint_handler : option DefaultSigINTHandler;
  heap : list loop_object;
  next_context : nat
}.

(** [BaseGlibEventLoop.init_class()] *)
Definition init_class (p : process) : process :=
  match class_sigint_handler p with
  | Some _ => p
  | None => MkProcess (Some (MkSigINT None)) (heap p) (next_context p)
  end.

(** [GLibEventLoop(glib_context)] in the process: the new loop is the next
    object of the heap; the handler it attached to is the class
    attribute. *)
Definition GLibEventLoop_new (glib_context : option context) (p : process)
    : result nat * process :=
  match init (length (heap p)) glib_context (next_context p)
          (class_sigint_handler p) with
  | Ok l =>
      (Ok (length (heap p)),
       MkProcess (_default_sigint_handler l)
         (heap p ++ [GLibEventLoopObject l])
         (match glib_context with
          | Some _ => next_context p
          | None => S (next_context p)
          end))
  | Raise e => (Raise e, p)
  end.

Record GLibEventLoopPolicy := MkPolicy {
  _full : bool;
  _default : bool;
  _default_loop : option nat
}.

(** [GLibEventLoopPolicy(full=..., default=...)] *)
Definition GLibEventLoopPolicy_init (full default : bool) (p : process)
    : GLibEventLoopPolicy * process :=
  (MkPolicy full default None, init_class p).

Definition _new_default_loop (p : process) : result nat * process :=
  GLibEventLoop_new (Some DefaultContext) p.

Definition get_default_loop (pol : GLibEventLoopPolicy) (p : process)
    : result nat * (GLibEventLoopPolicy * process) :=
  match _default_loop pol with
  | Some l => (Ok l, (pol, p))
  | None =>
      if _default pol then
        match _new_default_loop p with
        | (Ok l, p1) => (Ok l, (MkPolicy (_full pol) (_default pol) (Some l), p1))
        | (Raise e, p1) => (Raise e, (pol, p1))
        end
      else
        (Raise (RuntimeError
           "GLibEventLoopPolicy configured not to used a default loop"),
         (pol, p))
  end.

(** [new_event_loop()], called from the main thread or from another one. *)
Definition new_event_loop (main_thread : bool) (pol : GLibEventLoopPolicy)
    (p : process) : result nat * (GLibEventLoopPolicy * process) :=
  if _default pol && main_thread then get_default_loop pol p
  else if _full pol then
    match GLibEventLoop_new None p with
    | (r, p1) => (r, (pol, p1))
    end
  else
    (Ok (length (heap p)),
     (pol, MkProcess (class_sigint_handler p) (heap p ++ [DefaultLoopObject])
             (next_context p))).

(** The policy and the process after [new_event_loop] was called from a
    series of threads ([true]: the main thread). *)
Definition after_calls (calls : list bool)
    (st : GLibEventLoopPolicy * process) : GLibEventLoopPolicy * process :=
  fold_left (fun acc main_thread => (new_event_loop main_thread acc.1 acc.2).2)
    calls st.

(** ** Vocabulary of the properties *)

(** The pass in the words of the specification: the handles that were in
    the ready queue at entry, in queue order, each one run unless it is
    cancelled when its turn comes. *)
Fixpoint snapshot_pass (snapshot : list nat) (s : loop) : loop :=
  match snapshot with
  | [] => s
  | h :: rest =>
      snapshot_pass rest
        (if is_cancelled s h then s else _run h (emit (EvDispatch h) s))
  end.

(** The loop with [pre] queued ahead of its ready queue. *)
Definition requeue (pre : list nat) (s : loop) : loop :=
  set_ready (pre ++ _ready s) s.

(** An operation called during a pass only appends to the ready queue: it
    does the same whatever is queued ahead, and leaves the pass in
    progress. *)
Definition during_pass {A : Type} (f : loop -> A * loop) : Prop :=
  forall pre s, _will_dispatch s = true ->
    f (requeue pre s) = ((f s).1, requeue pre (f s).2) /\
    _will_dispatch (f s).2 = true.

Definition handle_le (hd hd' : handle) : Prop :=
  h_class hd' = h_class hd /\ h_callback hd' = h_callback hd /\
  (h_cancelled hd = true -> h_cancelled hd' = true).

Definition source_le (x x' : source) : Prop :=
  src_kind x' = src_kind x /\ src_callback x' = src_callback x /\
  src_context x' = src_context x /\
  (src_destroyed x = true -> src_destroyed x' = true).

Definition watchable (sig : Z) : Prop :=
  unix_signal_source_new sig = true /\ _check_signal sig = None.

(** What holds between the states before and after any operation. *)
Record advances (s s' : loop) : Prop := {
  adv_id : loop_id s' = loop_id s;
  adv_context : _context s' = _context s;
  adv_handles : forall h hd, handles s !! h = Some hd ->
    exists hd', handles s' !! h = Some hd' /\ handle_le hd hd';
  adv_sources : forall i x, sources s !! i = Some x ->
    exists x', sources s' !! i = Some x' /\ source_le x x';
  adv_sig : forall sig, is_Some (_sighandlers s' !! sig) ->
    is_Some (_sighandlers s !! sig) \/ watchable sig;
  adv_trace : exists evs, trace s' = trace s ++ evs /\
    forall h hd, EvDispatch h ∈ evs -> handles s !! h = Some hd ->
                 h_cancelled hd = false
}.

(** What holds, in addition, of the operations a callback can call. *)
Record schedules (s s' : loop) : Prop := {
  sch_adv : advances s s';
  sch_ready : exists new, _ready s' = _ready s ++ new /\
    Forall (fun h => (length (handles s) <= h < length (handles s'))%nat) new;
  sch_mainloop : is_Some (_mainloop s) -> is_Some (_mainloop s');
  sch_quit : mainloop_is_running s = false -> mainloop_is_running s' = false;
  sch_stop : forall evs, trace s' = trace s ++ evs -> EvStop ∈ evs ->
    is_Some (_mainloop s) -> mainloop_is_running s' = false;
  sch_events : forall evs, trace s' = trace s ++ evs ->
    Forall (fun e => e = EvStop) evs
}.

Definition handles_le (l l' : list handle) : Prop :=
  forall h hd, l !! h = Some hd ->
    exists hd', l' !! h = Some hd' /\ handle_le hd hd'.

Definition sources_le (l l' : list source) : Prop :=
  forall i x, l !! i = Some x ->
    exists x', l' !! i = Some x' /\ source_le x x'.

Definition sig_le (m m' : gmap Z nat) : Prop :=
  forall sig, is_Some (m' !! sig) -> is_Some (m !! sig) \/ watchable sig.

(** The handles whose callbacks a trace shows as run, in order. *)
Definition dispatched (evs : list event) : list nat :=
  omap (fun e => match e with EvDispatch h => Some h | _ => None end) evs.

Definition mainloop_kept (s s' : loop) (evs : list event) : Prop :=
  (is_Some (_mainloop s) -> is_Some (_mainloop s')) /\
  (mainloop_is_running s = false -> mainloop_is_running s' = false) /\
  (EvStop ∈ evs -> is_Some (_mainloop s) -> mainloop_is_running s' = false).

Definition pass_event (e : event) : Prop :=
  e = EvStop \/ exists h, e = EvDispatch h.

(** References held by the ready queue point to handles that exist. *)
Definition ready_valid (s : loop) : Prop :=
  Forall (fun h => (h < length (handles s))%nat) (_ready s).

(** A handle is an active read registration for [fd] when it is a
    [GLibHandle] that has not been cancelled and whose source is a live
    read watch on [fd]. *)
Definition active_reader (s : loop) (fd : Z) (h : nat) : bool :=
  match handles s !! h with
  | Some hd =>
      match h_class hd with
      | GLibHandle src _ =>
          negb (h_cancelled hd) &&
          match sources s !! src with
          | Some x =>
              negb (src_destroyed x) &&
              match src_kind x with
              | UnixFd fd' IO_IN => bool_decide (fd' = fd)
              | _ => false
              end
          | None => false
          end
      | _ => false
      end
  | None => false
  end.


(** Handles refer to sources that exist, the reader table refers to
    handles that exist, and it accounts for every active read
    registration. *)
Record registry_ok (s : loop) : Prop := {
  reg_sources : forall h hd src r, handles s !! h = Some hd ->
    h_class hd = GLibHandle src r -> (src < length (sources s))%nat;
  reg_table : forall fd h, _readers s !! fd = Some h ->
    (h < length (handles s))%nat;
  reg_active : forall fd h, active_reader s fd h = true ->
    _readers s !! fd = Some h
}.

Definition same_core (s s' : loop) : Prop :=
  handles s' = handles s /\ sources s' = sources s /\
  _ready s' = _ready s /\ _readers s' = _readers s.

Definition same_flags (hd hd' : handle) : Prop :=
  h_class hd' = h_class hd /\ h_cancelled hd' = h_cancelled hd.

(** The invariant of the reader registry and of the ready queue. *)
Definition wf (s : loop) : Prop := registry_ok s /\ ready_valid s.

Definition not_read_watch (kind : source_kind) : Prop :=
  forall fd, kind <> UnixFd fd IO_IN.

(** New handles that are no read registration: of another class, or with a
    new source that is no read watch. *)
Definition fresh_handle (s : loop) (news : list source) (hd : handle) : Prop :=
  match h_class hd with
  | GLibHandle src _ =>
      exists x, news !! (src - length (sources s))%nat = Some x /\
        (length (sources s) <= src)%nat /\ not_read_watch (src_kind x)
  | _ => True
  end.

End Adapter.

Arguments cancel : simpl never.
Arguments destroy : simpl never.
Arguments GLibHandle_init : simpl never.
Arguments GLibChildHandle_init : simpl never.
Arguments _schedule_dispatch : simpl never.
Arguments call_soon : simpl never.
Arguments call_later : simpl never.
Arguments remove_reader : simpl never.
Arguments add_reader : simpl never.
Arguments remove_writer : simpl never.
Arguments add_writer : simpl never.
Arguments remove_signal_handler : simpl never.
Arguments add_signal_handler : simpl never.
Arguments _remove_child_handler : simpl never.
Arguments _add_child_handler : simpl never.
Arguments add_done_callback : simpl never.
Arguments remove_done_callback : simpl never.
Arguments _schedule_callbacks : simpl never.
Arguments set_outcome : simpl never.
Arguments stop : simpl never.
Arguments interrupt : simpl never.
Arguments _run : simpl never.
Arguments _dispatch : simpl never.
Arguments GLibHandle_callback : simpl never.
Arguments GLibChildHandle_callback : simpl never.
Arguments wakeup_cb : simpl never.
Arguments DefaultSigINTHandler_callback : simpl never.
Arguments MainLoop_run : simpl never.
Arguments run_forever : simpl never.
Arguments close : simpl never.

(** * Concrete runs, on Linux with GLib *)

Module Runs.

Definition cb_a : callback := Callback "a" [ACallSoon (Callback "c" []) []].
Definition cb_b : callback := Callback "b" [].
Definition cb_stop : callback := Callback "quit" [AStop].
Definition cb_task : callback := Callback "task" [ASetResult 0 (VInt 42)].

(** A loop on the default context, as [init] builds it. *)
Definition loop0 : loop :=
  MkLoop 1 DefaultContext ∅ ∅ ∅ ∅ ∅ [] None false None false
    (Some (MkSigINT (Some (Some 1%nat)))) [] [] [] [].

(** A loop on a context of its own. *)
Definition loop_own : loop :=
  MkLoop 2 (MainContext 0) ∅ ∅ ∅ ∅ ∅ [] None false None false
    (Some (MkSigINT (Some (Some 1%nat)))) [] [] [] [].

Definition two_ready : loop :=
  @do_steps linux_glib [Call (ACallSoon cb_a []); Call (ACallSoon cb_b [])] loop0.

Definition with_reader : loop :=
  @do_steps linux_glib [Call (AAddReader 3 cb_a [])] loop0.

Definition with_sigint : loop :=
  @do_steps linux_glib [Call (AAddSignalHandler 2 cb_b [])] loop0.

Definition with_stop : loop :=
  @do_steps linux_glib [Call (ACallSoon cb_stop [])] loop0.

Definition with_task : loop :=
  @do_steps linux_glib [NewFuture; Call (ACallSoon cb_task [])] loop0.

Definition cb_kill : callback := Callback "killer" [ACancel 1].

(** Four handles queued: the first cancels the second when it runs, the
    third schedules a callback, the fourth is cancelled before the pass. *)
Definition killer_victim : loop :=
  @do_steps linux_glib
    [Call (ACallSoon cb_kill []); Call (ACallSoon cb_b []);
     Call (ACallSoon cb_a []); Call (ACallSoon cb_b []); Call (ACancel 3)]
    loop0.

Definition with_child : loop :=
  @do_steps linux_glib [Call (AAddChildHandler 77 cb_b [VInt 5])] loop0.

(** A loop in the middle of a dispatch pass, a callback of which has just
    called [call_soon]. *)
Definition in_pass : loop :=
  (@call_soon cb_b [] (set_will_dispatch true loop0)).2.

(** A process in which nothing of the module has run yet. *)
Definition process0 : process := MkProcess None [] 0.

End Runs.

(** * Properties *)

Section Properties.
Context {P : Platform}.

(** ** The child-exit status decoder *)

(** C3 (amended): the decoder yields the negated terminating signal when the
    child was signaled, the exit status when it exited normally with a status
    of at most 128, [128 - status] when it exited normally with a status above
    128 (so that 137 decodes to [128 - 137 = -9]), and no code otherwise. *)
Theorem child_returncode_cases (status : Z) :
  (WIFSIGNALED status = true ->
     child_returncode status = Some (- WTERMSIG status)) /\
  (WIFSIGNALED status = false -> WIFEXITED status = true ->
     WEXITSTATUS status <= 128 ->
     child_returncode status = Some (WEXITSTATUS status)) /\
  (WIFSIGNALED status = false -> WIFEXITED status = true ->
     128 < WEXITSTATUS status ->
     child_returncode status = Some (128 - WEXITSTATUS status)) /\
  (WIFSIGNALED status = false -> WIFEXITED status = false ->
     child_returncode status = None).
Proof.
  unfold child_returncode.
  repeat split.
  - intros ->. reflexivity.
  - intros -> -> Hle.
    destruct (Z.ltb_spec 128 (WEXITSTATUS status)) as [Hlt | _]; [lia | reflexivity].
  - intros -> -> Hlt.
    destruct (Z.ltb_spec 128 (WEXITSTATUS status)) as [_ | Hge]; [reflexivity | lia].
  - intros -> ->. reflexivity.
Qed.

(** ** The default SIGINT handler *)

Lemma detach_attached (d : DefaultSigINTHandler) (l : nat) :
  detach l (attach l d) = MkSigINT None.
Proof.
  unfold detach, attach. simpl.
  destruct (decide (l = l)) as [_ | Hne]; [reflexivity | contradiction].
Qed.

Lemma detach_other (d : DefaultSigINTHandler) (l l' : nat) :
  l' <> l -> detach l' (attach l d) = attach l d.
Proof.
  intros Hne. unfold detach, attach. simpl.
  destruct (decide (l = l')) as [Heq | _]; [congruence | reflexivity].
Qed.

Lemma cancel_default_sigint_handler (h : nat) (s : loop) :
  _default_sigint_handler (cancel h s) = _default_sigint_handler s.
Proof.
  unfold cancel. destruct (handles s !! h) as [hd |]; [| reflexivity].
  destruct (h_class hd); reflexivity.
Qed.

Lemma cancel_loop_id (h : nat) (s : loop) :
  loop_id (cancel h s) = loop_id s.
Proof.
  unfold cancel. destruct (handles s !! h) as [hd |]; [| reflexivity].
  destruct (h_class hd); reflexivity.
Qed.

Lemma cancel_all_frame (hs : list nat) (s : loop) :
  let s' := fold_left (fun acc h => cancel h acc) hs s in
  _default_sigint_handler s' = _default_sigint_handler s /\
  loop_id s' = loop_id s.
Proof.
  revert s. induction hs as [| h hs IH]; intros s; simpl; [done |].
  destruct (IH (cancel h s)) as [H1 H2]. simpl in H1, H2.
  rewrite H1, H2, cancel_default_sigint_handler, cancel_loop_id. done.
Qed.

Lemma close_default_sigint_handler (s : loop) (d : DefaultSigINTHandler) :
  _default_sigint_handler s = Some d ->
  exists s', close s = (Ok tt, s') /\
    _default_sigint_handler s' = Some (detach (loop_id s) d).
Proof.
  intros Hd. unfold close.
  destruct (cancel_all_frame (elements (_handlers s)) s) as [H1 H2].
  simpl in H1, H2. rewrite H1, Hd, H2.
  eexists. split; [reflexivity | reflexivity].
Qed.

(** C10: detaching a loop, directly or through [close()], clears the
    handler's loop reference only when that loop is the one attached last;
    detaching or closing any other loop leaves the attachment as it is. *)
Theorem detach_only_latest (d : DefaultSigINTHandler) (latest : nat) (s : loop) :
  let attached := attach latest d in
  detach latest attached = MkSigINT None /\
  (forall other, other <> latest -> detach other attached = attached) /\
  (_default_sigint_handler s = Some attached ->
   exists s', close s = (Ok tt, s') /\
     _default_sigint_handler s' =
       Some (if decide (loop_id s = latest) then MkSigINT None else attached)) /\
  (forall others, Forall (fun other => other <> latest) others ->
     fold_left (fun acc other => detach other acc) others attached = attached).
Proof.
  intros attached. repeat split.
  - apply detach_attached.
  - intros other Hne. apply detach_other, Hne.
  - intros Hs. destruct (close_default_sigint_handler s attached Hs)
      as (s' & Hc & Hd).
    exists s'. split; [exact Hc |]. rewrite Hd. f_equal.
    destruct (decide (loop_id s = latest)) as [-> | Hne].
    + apply detach_attached.
    + apply detach_other, Hne.
  - intros others Hall. induction Hall as [| o os Ho _ IH]; simpl; [done |].
    unfold attached at 1. rewrite (detach_other d latest o Ho). exact IH.
Qed.

(** ** Timers *)

Lemma lookup_snoc_new {A : Type} (l : list A) (x : A) :
  (l ++ [x]) !! length l = Some x.
Proof. rewrite lookup_app_r by lia. rewrite Nat.sub_diag. reflexivity. Qed.



(** ** Child watches *)

Lemma cancel_sources_live (h : nat) (s : loop) (i : nat) (x : source) :
  sources (cancel h s) !! i = Some x -> src_destroyed x = false ->
  sources s !! i = Some x.
Proof.
  unfold cancel. destruct (handles s !! h) as [hd |]; [| done].
  destruct (h_class hd) as [| src r | src]; simpl; [done | |];
    intros Hl Hd;
    (destruct (decide (i = src)) as [-> | Hne];
     [ rewrite list_lookup_alter_eq in Hl;
       destruct (sources s !! src) as [y |]; simpl in Hl; [| done];
       injection Hl as <-; simpl in Hd; discriminate
     | rewrite list_lookup_alter_ne in Hl by done; exact Hl ]).
Qed.

Lemma cancel_lengths (h : nat) (s : loop) :
  length (handles (cancel h s)) = length (handles s) /\
  length (sources (cancel h s)) = length (sources s).
Proof.
  unfold cancel. destruct (handles s !! h) as [hd |]; [| done].
  destruct (h_class hd); simpl;
    rewrite ?length_insert, ?length_alter; done.
Qed.

Lemma cancel_handlers_subset (h : nat) (s : loop) :
  _handlers (cancel h s) ⊆ _handlers s.
Proof.
  unfold cancel. destruct (handles s !! h) as [hd |]; [| done].
  destruct (h_class hd); simpl; set_solver.
Qed.

Lemma cancel_chldhandlers (h : nat) (s : loop) :
  _chldhandlers (cancel h s) = _chldhandlers s.
Proof.
  unfold cancel. destruct (handles s !! h) as [hd |]; [| done].
  destruct (h_class hd); reflexivity.
Qed.

Lemma cancel_context (h : nat) (s : loop) :
  _context (cancel h s) = _context s.
Proof.
  unfold cancel. destruct (handles s !! h) as [hd |]; [| done].
  destruct (h_class hd); reflexivity.
Qed.

(** C9: on a loop whose context is not the default one,
    [_add_child_handler] raises the usage error at once; no child watch has
    been attached (every source alive afterwards was there before), no handle
    was created or registered, and the table holds nothing for the pid. *)
Theorem add_child_handler_outside_default (pid : Z) (cb : callback)
    (args : list pyval) (s : loop) :
  _context s <> DefaultContext ->
  exists s',
    _add_child_handler pid cb args s =
      (Raise (RuntimeError
         "Children processes cannot be monitored outside the main event loop"),
       s') /\
    _chldhandlers s' !! pid = None /\
    length (sources s') = length (sources s) /\
    length (handles s') = length (handles s) /\
    _handlers s' ⊆ _handlers s /\
    (forall i x, sources s' !! i = Some x -> src_destroyed x = false ->
                 sources s !! i = Some x).
Proof.
  intros Hctx. unfold _add_child_handler, _remove_child_handler.
  destruct (_chldhandlers s !! pid) as [h |] eqn:Hpid; simpl.
  - unfold GLibChildHandle_init. rewrite cancel_context. simpl.
    destruct (decide (_context s = DefaultContext)) as [Heq | _]; [done |].
    eexists. split; [reflexivity |].
    rewrite cancel_chldhandlers. simpl.
    split; [apply lookup_delete_eq |].
    destruct (cancel_lengths h
                (set_chldhandlers (delete pid (_chldhandlers s)) s)) as [Hh Hs].
    split; [exact Hs |]. split; [exact Hh |].
    split; [apply (cancel_handlers_subset h
                     (set_chldhandlers (delete pid (_chldhandlers s)) s)) |].
    intros i x Hl Hd.
    exact (cancel_sources_live h _ i x Hl Hd).
  - unfold GLibChildHandle_init.
    destruct (decide (_context s = DefaultContext)) as [Heq | _]; [done |].
    exists s. repeat split; try done.
Qed.

(** ** What every operation preserves

    [advances s s'] collects what holds between the state before and after
    any operation of the loop: objects keep their identity and class, a
    cancelled handle stays cancelled, a destroyed source stays destroyed, the
    trace only grows, no handle that was cancelled before is run, and a
    signal enters the table only when GLib gave a source for it. *)

Lemma handle_le_refl (hd : handle) : handle_le hd hd.
Proof. unfold handle_le. auto. Qed.

Lemma handle_le_trans (a b c : handle) :
  handle_le a b -> handle_le b c -> handle_le a c.
Proof.
  unfold handle_le. intros (H1 & H2 & H3) (H4 & H5 & H6).
  repeat split; try congruence. auto.
Qed.

Lemma source_le_refl (x : source) : source_le x x.
Proof. unfold source_le. auto. Qed.

Lemma source_le_trans (a b c : source) :
  source_le a b -> source_le b c -> source_le a c.
Proof.
  unfold source_le. intros (H1 & H2 & H3 & H4) (H5 & H6 & H7 & H8).
  repeat split; try congruence. auto.
Qed.

Lemma advances_refl (s : loop) : advances s s.
Proof.
  constructor; auto.
  - intros h hd H. exists hd. split; [exact H | apply handle_le_refl].
  - intros i x H. exists x. split; [exact H | apply source_le_refl].
  - exists []. split; [by rewrite app_nil_r |].
    intros h hd Hin. by apply elem_of_nil in Hin.
Qed.

Lemma advances_trans (s1 s2 s3 : loop) :
  advances s1 s2 -> advances s2 s3 -> advances s1 s3.
Proof.
  intros [A1 A2 A3 A4 A5 (e1 & A6 & A7)] [B1 B2 B3 B4 B5 (e2 & B6 & B7)].
  constructor; try congruence.
  - intros h hd H. destruct (A3 h hd H) as (hd' & H' & Hle).
    destruct (B3 h hd' H') as (hd'' & H'' & Hle').
    exists hd''. split; [exact H'' | eapply handle_le_trans; eauto].
  - intros i x H. destruct (A4 i x H) as (x' & H' & Hle).
    destruct (B4 i x' H') as (x'' & H'' & Hle').
    exists x''. split; [exact H'' | eapply source_le_trans; eauto].
  - intros sig H. destruct (B5 sig H) as [H' | H']; [auto | by right].
  - exists (e1 ++ e2). split; [rewrite B6, A6; by rewrite app_assoc |].
    intros h hd Hin Hl. apply elem_of_app in Hin as [Hin | Hin].
    + eapply A7; eauto.
    + destruct (A3 h hd Hl) as (hd' & H' & (_ & _ & Hc)).
      specialize (B7 h hd' Hin H').
      destruct (h_cancelled hd); [| reflexivity].
      rewrite Hc in B7; [discriminate | reflexivity].
Qed.

Lemma advances_length_handles (s s' : loop) :
  advances s s' -> (length (handles s) <= length (handles s'))%nat.
Proof.
  intros A. destruct (handles s) as [| a l] eqn:E using rev_ind; [simpl; lia |].
  clear IHl. destruct (adv_handles _ _ A (length l) a) as (hd' & H' & _).
  { rewrite E. apply lookup_snoc_new. }
  apply lookup_lt_Some in H'. rewrite length_app. simpl. lia.
Qed.

(** [schedules s s'] adds what holds of the operations a callback can call:
    the ready queue only receives new handles at its end, and the main loop
    object is kept, its running flag only ever lowered, and lowered by every
    [stop()]. *)

Lemma schedules_refl (s : loop) : schedules s s.
Proof.
  constructor; auto using advances_refl.
  - exists []. split; [by rewrite app_nil_r | constructor].
  - intros evs H Hin. rewrite <- (app_nil_r (trace s)) in H at 1.
    apply app_inv_head in H. subst evs. by apply elem_of_nil in Hin.
  - intros evs H. rewrite <- (app_nil_r (trace s)) in H at 1.
    apply app_inv_head in H. subst evs. constructor.
Qed.

Lemma schedules_trans (s1 s2 s3 : loop) :
  schedules s1 s2 -> schedules s2 s3 -> schedules s1 s3.
Proof.
  intros [A1 (n1 & A2 & A2') A3 A4 A5 A6] [B1 (n2 & B2 & B2') B3 B4 B5 B6].
  pose proof (advances_length_handles _ _ A1) as Hlen.
  destruct (adv_trace _ _ A1) as (e1 & T1 & _).
  destruct (adv_trace _ _ B1) as (e2 & T2 & _).
  pose proof (advances_length_handles _ _ B1) as Hlen'.
  constructor; auto.
  - eapply advances_trans; eauto.
  - exists (n1 ++ n2). split; [rewrite B2, A2; by rewrite app_assoc |].
    apply Forall_app. split.
    + eapply Forall_impl; [exact A2' |]. simpl. intros h Hh. lia.
    + eapply Forall_impl; [exact B2' |]. simpl. intros h Hh. lia.
  - intros evs H Hin Hm. rewrite T2, T1, <- app_assoc in H.
    apply app_inv_head in H. subst evs.
    apply elem_of_app in Hin as [Hin | Hin].
    + apply B4. eapply A5; eauto.
    + eapply B5; eauto.
  - intros evs H. rewrite T2, T1, <- app_assoc in H.
    apply app_inv_head in H. subst evs.
    apply Forall_app. split; [eapply A6 | eapply B6]; eauto.
Qed.

Lemma handles_le_refl (l : list handle) : handles_le l l.
Proof. intros h hd H. exists hd. split; [done | apply handle_le_refl]. Qed.

Lemma handles_le_app (l new : list handle) : handles_le l (l ++ new).
Proof.
  intros h hd H. exists hd. split; [| apply handle_le_refl].
  by apply lookup_app_l_Some.
Qed.

Lemma handles_le_insert (l : list handle) (h : nat) (hd hd' : handle) :
  l !! h = Some hd -> handle_le hd hd' -> handles_le l (<[h := hd']> l).
Proof.
  intros Hl Hle i x Hi. destruct (decide (i = h)) as [-> | Hne].
  - exists hd'. rewrite list_lookup_insert_eq by (by eapply lookup_lt_Some).
    split; [done |]. congruence.
  - exists x. rewrite list_lookup_insert_ne by done.
    split; [done | apply handle_le_refl].
Qed.

Lemma sources_le_refl (l : list source) : sources_le l l.
Proof. intros i x H. exists x. split; [done | apply source_le_refl]. Qed.

Lemma sources_le_app (l new : list source) : sources_le l (l ++ new).
Proof.
  intros i x H. exists x. split; [| apply source_le_refl].
  by apply lookup_app_l_Some.
Qed.

Lemma sources_le_destroy (l : list source) (src : nat) :
  sources_le l
    (alter (fun x => Source (src_kind x) (src_callback x) (src_context x) true)
       src l).
Proof.
  intros i x Hi. destruct (decide (i = src)) as [-> | Hne].
  - rewrite list_lookup_alter_eq, Hi. simpl. eexists. split; [done |].
    unfold source_le. simpl. auto.
  - rewrite list_lookup_alter_ne by done. exists x.
    split; [done | apply source_le_refl].
Qed.

Lemma sources_le_trans (a b c : list source) :
  sources_le a b -> sources_le b c -> sources_le a c.
Proof.
  intros H1 H2 i x Hi. destruct (H1 i x Hi) as (x' & Hx' & Hle).
  destruct (H2 i x' Hx') as (x'' & Hx'' & Hle').
  exists x''. split; [done | eapply source_le_trans; eauto].
Qed.

Lemma handles_le_trans (a b c : list handle) :
  handles_le a b -> handles_le b c -> handles_le a c.
Proof.
  intros H1 H2 i x Hi. destruct (H1 i x Hi) as (x' & Hx' & Hle).
  destruct (H2 i x' Hx') as (x'' & Hx'' & Hle').
  exists x''. split; [done | eapply handle_le_trans; eauto].
Qed.

Lemma sig_le_refl (m : gmap Z nat) : sig_le m m.
Proof. intros sig H. by left. Qed.

Lemma sig_le_delete (m : gmap Z nat) (sig : Z) : sig_le m (delete sig m).
Proof.
  intros k H. left. destruct (decide (k = sig)) as [-> | Hne].
  - rewrite lookup_delete_eq in H. by destruct H.
  - by rewrite lookup_delete_ne in H.
Qed.

Lemma sig_le_insert (m : gmap Z nat) (sig : Z) (h : nat) :
  watchable sig -> sig_le m (<[sig := h]> m).
Proof.
  intros W k H. destruct (decide (k = sig)) as [-> | Hne]; [by right |].
  left. by rewrite lookup_insert_ne in H.
Qed.

(** An operation that leaves the trace and the main loop object alone. *)
Lemma schedules_quiet (s s' : loop) :
  loop_id s' = loop_id s -> _context s' = _context s ->
  handles_le (handles s) (handles s') ->
  sources_le (sources s) (sources s') ->
  sig_le (_sighandlers s) (_sighandlers s') ->
  trace s' = trace s ->
  (exists new, _ready s' = _ready s ++ new /\
     Forall (fun h => (length (handles s) <= h < length (handles s'))%nat) new) ->
  _mainloop s' = _mainloop s ->
  schedules s s'.
Proof.
  intros Hid Hc Hh Hs Hsig Ht Hr Hm.
  assert (Hnil : forall evs, trace s' = trace s ++ evs -> evs = []).
  { intros evs H. rewrite Ht in H. rewrite <- (app_nil_r (trace s)) in H at 1.
    by apply app_inv_head in H. }
  constructor; auto.
  - constructor; auto.
    exists []. split; [by rewrite app_nil_r |].
    intros h hd Hin. by apply elem_of_nil in Hin.
  - by rewrite Hm.
  - unfold mainloop_is_running. by rewrite Hm.
  - intros evs H Hin. rewrite (Hnil evs H) in Hin. by apply elem_of_nil in Hin.
  - intros evs H. rewrite (Hnil evs H). constructor.
Qed.

Lemma ready_same (s : loop) (q : list nat) (n : nat) :
  q = _ready s ->
  exists new, q = _ready s ++ new /\
    Forall (fun h => (length (handles s) <= h < n)%nat) new.
Proof. intros ->. exists []. split; [by rewrite app_nil_r | constructor]. Qed.

Lemma schedules_schedule_dispatch (s : loop) : schedules s (_schedule_dispatch s).
Proof.
  unfold _schedule_dispatch.
  destruct (_ready s) eqn:Hr; [apply schedules_refl |].
  destruct (_wakeup s); [apply schedules_refl |].
  apply schedules_quiet; simpl; auto using handles_le_refl, sources_le_app,
    sig_le_refl. apply ready_same. reflexivity.
Qed.

Lemma schedules_call_soon (cb : callback) (args : list pyval) (s : loop) :
  schedules s (call_soon cb args s).2.
Proof.
  unfold call_soon. simpl.
  set (s2 := set_ready _ _).
  assert (H2 : schedules s s2).
  { apply schedules_quiet; simpl; auto using handles_le_app, sources_le_refl,
      sig_le_refl.
    eexists. split; [reflexivity |]. repeat constructor.
    rewrite length_app. simpl. lia. }
  destruct (_will_dispatch s); [exact H2 |].
  eapply schedules_trans; [exact H2 | apply schedules_schedule_dispatch].
Qed.

Lemma schedules_destroy (src : nat) (s : loop) : schedules s (destroy src s).
Proof.
  apply schedules_quiet; simpl; auto using handles_le_refl, sources_le_destroy,
    sig_le_refl. by apply ready_same.
Qed.

Lemma schedules_cancel (h : nat) (s : loop) : schedules s (cancel h s).
Proof.
  unfold cancel. destruct (handles s !! h) as [hd |] eqn:Hh;
    [| apply schedules_refl].
  assert (Hle : handle_le hd (mark_cancelled hd))
    by (unfold handle_le; simpl; auto).
  destruct (h_class hd);
    (apply schedules_quiet; simpl;
     eauto using handles_le_insert, sources_le_refl, sources_le_destroy,
       sig_le_refl; by apply ready_same).
Qed.

Lemma schedules_GLibHandle_init (kind : source_kind) (repeat : bool)
    (cb : callback) (args : list pyval) (s : loop) :
  schedules s (GLibHandle_init kind repeat cb args s).2.
Proof.
  unfold GLibHandle_init. simpl.
  apply schedules_quiet; simpl; auto using handles_le_app, sources_le_app,
    sig_le_refl. by apply ready_same.
Qed.

Lemma schedules_GLibChildHandle_init (pid : Z) (cb : callback)
    (args : list pyval) (s : loop) :
  schedules s (GLibChildHandle_init pid cb args s).2.
Proof.
  unfold GLibChildHandle_init.
  destruct (decide (_context s = DefaultContext)) as [Hc | Hc]; simpl;
    [| apply schedules_refl].
  apply schedules_quiet; simpl; auto using handles_le_app, sources_le_app,
    sig_le_refl. by apply ready_same.
Qed.

Ltac quiet :=
  apply schedules_quiet; simpl;
  eauto using handles_le_refl, handles_le_app, handles_le_insert,
    sources_le_refl, sources_le_app, sources_le_destroy,
    sig_le_refl, sig_le_delete, sig_le_insert;
  try (by apply ready_same).

Ltac chain H := eapply schedules_trans; [exact H |].

Lemma schedules_remove_reader (fd : fd_like) (s : loop) :
  schedules s (remove_reader fd s).2.
Proof.
  unfold remove_reader. destruct (_readers s !! resolve_fd fd); simpl;
    [| apply schedules_refl].
  eapply schedules_trans; [| apply schedules_cancel]. quiet.
Qed.

Lemma schedules_add_reader (fd : fd_like) (cb : callback) (args : list pyval)
    (s : loop) :
  schedules s (add_reader fd cb args s).
Proof.
  unfold add_reader.
  chain (schedules_remove_reader (FdInt (resolve_fd fd)) s).
  set (s1 := (remove_reader _ s).2).
  pose proof (schedules_GLibHandle_init (UnixFd (resolve_fd fd) IO_IN) true
                cb args s1) as H.
  destruct (GLibHandle_init _ _ _ _ s1) as [h s2]. simpl in H.
  chain H. quiet.
Qed.

Lemma schedules_remove_writer (fd : fd_like) (s : loop) :
  schedules s (remove_writer fd s).2.
Proof.
  unfold remove_writer. destruct (_writers s !! resolve_fd fd); simpl;
    [| apply schedules_refl].
  eapply schedules_trans; [| apply schedules_cancel]. quiet.
Qed.

Lemma schedules_add_writer (fd : fd_like) (cb : callback) (args : list pyval)
    (s : loop) :
  schedules s (add_writer fd cb args s).
Proof.
  unfold add_writer.
  chain (schedules_remove_writer (FdInt (resolve_fd fd)) s).
  set (s1 := (remove_writer _ s).2).
  pose proof (schedules_GLibHandle_init (UnixFd (resolve_fd fd) IO_OUT) true
                cb args s1) as H.
  destruct (GLibHandle_init _ _ _ _ s1) as [h s2]. simpl in H.
  chain H. quiet.
Qed.

Lemma schedules_remove_signal_handler (sig : Z) (s : loop) :
  schedules s (remove_signal_handler sig s).2.
Proof.
  unfold remove_signal_handler. destruct (_check_signal sig); simpl;
    [apply schedules_refl |].
  destruct (_sighandlers s !! sig); simpl; [| apply schedules_refl].
  eapply schedules_trans; [| apply schedules_cancel]. quiet.
Qed.

Lemma schedules_add_signal_handler (sig : Z) (cb : callback)
    (args : list pyval) (s : loop) :
  schedules s (add_signal_handler sig cb args s).2.
Proof.
  unfold add_signal_handler.
  destruct (_check_signal sig) eqn:Hchk; [apply schedules_refl |].
  pose proof (schedules_remove_signal_handler sig s) as H1.
  destruct (remove_signal_handler sig s) as [[b | e] s1]; [| exact H1].
  destruct (unix_signal_source_new sig) eqn:Hsup.
  - pose proof (schedules_GLibHandle_init (UnixSignal sig) true cb args s1) as H.
    destruct (GLibHandle_init _ _ _ _ s1) as [h s2].
    chain H1. chain H. quiet. apply sig_le_insert. by split.
  - destruct (decide (sig = SIGKILL)); exact H1.
Qed.

Lemma schedules_remove_child_handler (pid : Z) (s : loop) :
  schedules s (_remove_child_handler pid s).2.
Proof.
  unfold _remove_child_handler. destruct (_chldhandlers s !! pid); simpl;
    [| apply schedules_refl].
  eapply schedules_trans; [| apply schedules_cancel]. quiet.
Qed.

Lemma schedules_add_child_handler (pid : Z) (cb : callback)
    (args : list pyval) (s : loop) :
  schedules s (_add_child_handler pid cb args s).2.
Proof.
  unfold _add_child_handler.
  chain (schedules_remove_child_handler pid s).
  set (s1 := (_remove_child_handler pid s).2).
  pose proof (schedules_GLibChildHandle_init pid cb args s1) as H.
  destruct (GLibChildHandle_init pid cb args s1) as [[h | e] s2]; simpl in *;
    [| exact H].
  chain H. quiet.
Qed.

Lemma schedules_call_later (delay : Q) (cb : callback) (args : list pyval)
    (s : loop) :
  schedules s (call_later delay cb args s).2.
Proof.
  unfold call_later. destruct (Qle_bool delay 0).
  - apply schedules_call_soon.
  - apply schedules_GLibHandle_init.
Qed.

Lemma schedules_stop (s : loop) : schedules s (stop s).
Proof.
  unfold stop, emit.
  assert (Hev : forall evs, trace s ++ [EvStop] = trace s ++ evs ->
                            evs = [EvStop])
    by (intros evs H; by apply app_inv_head in H).
  cbn. destruct (_mainloop s) as [l |] eqn:Hm.
  - constructor; simpl; auto.
    + constructor; simpl; auto using handles_le_refl, sources_le_refl,
        sig_le_refl.
      * apply handles_le_refl.
      * apply sources_le_refl.
      * exists [EvStop]. split; [done |]. intros h hd Hin.
        apply list_elem_of_singleton in Hin. discriminate.
    + by apply ready_same.
    + intros evs H. rewrite (Hev evs H). by repeat constructor.
  - constructor; simpl; auto.
    + constructor; simpl; auto using sig_le_refl.
      * apply handles_le_refl.
      * apply sources_le_refl.
      * exists [EvStop]. split; [done |]. intros h hd Hin.
        apply list_elem_of_singleton in Hin. discriminate.
    + by apply ready_same.
    + intros evs H Hin [x Hx]. rewrite Hm in Hx. discriminate.
    + intros evs H. rewrite (Hev evs H). by repeat constructor.
Qed.

Lemma schedules_interrupt (s : loop) : schedules s (interrupt s).
Proof.
  unfold interrupt.
  eapply schedules_trans; [| apply schedules_stop]. quiet.
Qed.

Lemma schedules_fold_call_soon (f : nat) (cbs : list callback) (s : loop) :
  schedules s
    (fold_left (fun acc cb => (call_soon cb [VFuture f] acc).2) cbs s).
Proof.
  revert s. induction cbs as [| cb cbs IH]; intros s; simpl;
    [apply schedules_refl |].
  eapply schedules_trans; [apply schedules_call_soon | apply IH].
Qed.

Lemma schedules_schedule_callbacks (f : nat) (s : loop) :
  schedules s (_schedule_callbacks f s).
Proof.
  unfold _schedule_callbacks.
  eapply schedules_trans; [| apply schedules_fold_call_soon]. quiet.
Qed.

Lemma schedules_set_outcome (f : nat) (r : result pyval) (s : loop) :
  schedules s (set_outcome f r s).2.
Proof.
  unfold set_outcome.
  destruct (futures s !! f) as [[[st |] cbs] |]; simpl;
    try apply schedules_refl.
  eapply schedules_trans; [| apply schedules_schedule_callbacks]. quiet.
Qed.

Lemma schedules_add_done_callback (f : nat) (fn : callback) (s : loop) :
  schedules s (add_done_callback f fn s).
Proof.
  unfold add_done_callback. destruct (f_state (get_future s f)).
  - apply schedules_call_soon.
  - quiet.
Qed.

Lemma schedules_remove_done_callback (f : nat) (fn : callback) (s : loop) :
  schedules s (remove_done_callback f fn s).
Proof. unfold remove_done_callback. quiet. Qed.

Lemma schedules_run_action (a : action) (s : loop) :
  schedules s (run_action a s).2.
Proof.
  destruct a; simpl.
  - apply schedules_call_soon.
  - apply schedules_call_later.
  - apply schedules_add_reader.
  - apply schedules_remove_reader.
  - apply schedules_add_writer.
  - apply schedules_remove_writer.
  - apply schedules_add_signal_handler.
  - pose proof (schedules_remove_signal_handler sig s) as H.
    destruct (remove_signal_handler sig s) as [[b | e] s1]; exact H.
  - apply schedules_add_child_handler.
  - apply schedules_remove_child_handler.
  - apply schedules_cancel.
  - apply schedules_stop.
  - apply schedules_interrupt.
  - apply schedules_set_outcome.
  - apply schedules_set_outcome.
Qed.

Lemma schedules_run_actions (body : list action) (s : loop) :
  schedules s (run_actions body s).
Proof.
  revert s. induction body as [| a body IH]; intros s; simpl;
    [apply schedules_refl |].
  pose proof (schedules_run_action a s) as H.
  destruct (run_action a s) as [[u | e] s1]; simpl in H; [| exact H].
  eapply schedules_trans; [exact H | apply IH].
Qed.

Lemma schedules_run (h : nat) (s : loop) : schedules s (_run h s).
Proof.
  unfold _run. destruct (handles s !! h) as [hd |] eqn:Hh;
    [| apply schedules_refl].
  eapply schedules_trans; [| apply schedules_run_actions].
  destruct (h_class hd); try apply schedules_refl.
  quiet. eapply handles_le_insert; [exact Hh |].
  unfold handle_le. simpl. auto.
Qed.

(** ** The dispatch pass *)

Lemma mainloop_kept_trans (s1 s2 s3 : loop) (e1 e2 : list event) :
  mainloop_kept s1 s2 e1 -> mainloop_kept s2 s3 e2 ->
  mainloop_kept s1 s3 (e1 ++ e2).
Proof.
  intros (A1 & A2 & A3) (B1 & B2 & B3). repeat split; auto.
  intros Hin Hm. apply elem_of_app in Hin as [Hin | Hin]; auto.
Qed.

Lemma schedules_mainloop_kept (s s' : loop) (evs : list event) :
  schedules s s' -> trace s' = trace s ++ evs -> mainloop_kept s s' evs.
Proof.
  intros S T. repeat split.
  - apply (sch_mainloop _ _ S).
  - apply (sch_quit _ _ S).
  - intros Hin Hm. eapply (sch_stop _ _ S); eauto.
Qed.

Lemma mainloop_kept_same (s s' : loop) :
  _mainloop s' = _mainloop s -> mainloop_kept s s' [].
Proof.
  intros Hm. unfold mainloop_kept, mainloop_is_running. rewrite Hm.
  repeat split; auto. intros Hin. by apply elem_of_nil in Hin.
Qed.

Lemma advances_quiet (s s' : loop) :
  loop_id s' = loop_id s -> _context s' = _context s ->
  handles s' = handles s -> sources s' = sources s ->
  _sighandlers s' = _sighandlers s -> trace s' = trace s ->
  advances s s'.
Proof.
  intros Hid Hc Hh Hs Hsig Ht. constructor; auto.
  - rewrite Hh. apply handles_le_refl.
  - rewrite Hs. apply sources_le_refl.
  - rewrite Hsig. apply sig_le_refl.
  - exists []. split; [by rewrite Ht, app_nil_r |].
    intros h hd Hin. by apply elem_of_nil in Hin.
Qed.

Lemma advances_emit_dispatch (h : nat) (s : loop) :
  is_cancelled s h = false -> advances s (emit (EvDispatch h) s).
Proof.
  intros Hc.
  constructor; simpl; auto using handles_le_refl, sources_le_refl, sig_le_refl;
    try apply handles_le_refl; try apply sources_le_refl.
  exists [EvDispatch h]. split; [done |].
  intros h' hd Hin Hl. apply list_elem_of_singleton in Hin.
  injection Hin as ->. unfold is_cancelled in Hc. by rewrite Hl in Hc.
Qed.

Lemma is_cancelled_stays (s s' : loop) (h : nat) :
  advances s s' -> (h < length (handles s))%nat ->
  is_cancelled s h = true -> is_cancelled s' h = true.
Proof.
  intros A Hlt. unfold is_cancelled.
  destruct (lookup_lt_is_Some_2 _ _ Hlt) as [hd Hl]. rewrite Hl.
  destruct (adv_handles _ _ A h hd Hl) as (hd' & Hl' & (_ & _ & Hc)).
  rewrite Hl'. exact Hc.
Qed.

Lemma is_cancelled_before (s s' : loop) (h : nat) :
  advances s s' -> (h < length (handles s))%nat ->
  is_cancelled s' h = false -> is_cancelled s h = false.
Proof.
  intros A Hlt Hc. destruct (is_cancelled s h) eqn:E; [| done].
  rewrite (is_cancelled_stays s s' h A Hlt E) in Hc. discriminate.
Qed.

Lemma dispatched_app (e1 e2 : list event) :
  dispatched (e1 ++ e2) = dispatched e1 ++ dispatched e2.
Proof. unfold dispatched. apply omap_app. Qed.

Lemma dispatched_stops (evs : list event) :
  Forall (fun e => e = EvStop) evs -> dispatched evs = [].
Proof.
  induction 1 as [| e evs -> _ IH]; [done |]. unfold dispatched in *.
  simpl. exact IH.
Qed.

Lemma dispatch_loop_spec (todo : list nat) :
  forall (s : loop) (added : list nat),
  _ready s = todo ++ added ->
  Forall (fun h => (h < length (handles s))%nat) todo ->
  let s' := _dispatch_loop (length todo) s in
  advances s s' /\
  exists evs new,
    trace s' = trace s ++ evs /\
    Forall pass_event evs /\
    sublist (dispatched evs) todo /\
    (forall h, h ∈ dispatched evs -> is_cancelled s h = false) /\
    (forall h, h ∈ todo -> is_cancelled s' h = false -> h ∈ dispatched evs) /\
    _ready s' = added ++ new /\
    Forall (fun h => (length (handles s) <= h < length (handles s'))%nat) new /\
    mainloop_kept s s' evs.
Proof.
  induction todo as [| h todo IH]; intros s added Hr Hv; simpl.
  - split; [apply advances_refl |]. exists [], [].
    rewrite !app_nil_r. split_and!; auto.
    + intros h Hin. by apply elem_of_nil in Hin.
    + apply (mainloop_kept_same s s). reflexivity.
  - rewrite Hr. simpl.
    apply Forall_cons in Hv as [Hh Hv].
    set (s1 := set_ready (todo ++ added) s).
    assert (A1 : advances s s1) by (by apply advances_quiet).
    destruct (is_cancelled s1 h) eqn:Hc.
    + destruct (IH s1 added eq_refl Hv)
        as (A2 & evs & new & T & Hev & Hsub & Hran & Hall & Hq & Hnew & Hm).
      split; [eapply advances_trans; eauto |].
      exists evs, new. split_and!; auto.
      * by apply sublist_cons.
      * intros h' Hin Hc'. apply elem_of_cons in Hin as [-> | Hin]; [| auto].
        rewrite (is_cancelled_stays s1 _ h A2 Hh Hc) in Hc'. discriminate.
    + set (s1e := emit (EvDispatch h) s1).
      pose proof (schedules_run h s1e) as S.
      set (s2 := _run h s1e) in *.
      pose proof (sch_adv _ _ S) as A2.
      destruct (adv_trace _ _ A2) as (e1 & T1 & _).
      pose proof (sch_events _ _ S e1 T1) as Hstops.
      destruct (sch_ready _ _ S) as (new1 & Hq1 & Hnew1).
      pose proof (advances_emit_dispatch h s1 Hc) as Ae.
      assert (A02 : advances s s2).
      { eapply advances_trans; [exact A1 |].
        eapply advances_trans; [exact Ae | exact A2]. }
      pose proof (advances_length_handles _ _ A02) as Hlen.
      destruct (IH s2 (added ++ new1))
        as (A3 & evs & new & T & Hev & Hsub & Hran & Hall & Hq & Hnew & Hm).
      { rewrite Hq1. simpl. by rewrite app_assoc. }
      { eapply Forall_impl; [exact Hv |]. simpl. intros x Hx. lia. }
      pose proof (advances_length_handles _ _ A3) as Hlen'.
      split; [eapply advances_trans; eauto |].
      exists ([EvDispatch h] ++ e1 ++ evs), (new1 ++ new).
      assert (Hd : dispatched ([EvDispatch h] ++ e1 ++ evs) = h :: dispatched evs).
      { rewrite !dispatched_app, (dispatched_stops e1 Hstops). reflexivity. }
      rewrite Hd.
      split_and!.
      * rewrite T, T1. simpl. by rewrite <- !app_assoc.
      * apply Forall_app.
        split; [constructor; [right; by eexists | constructor] |].
        apply Forall_app. split; [| exact Hev].
        eapply Forall_impl; [exact Hstops |]. intros e ->. by left.
      * by apply sublist_skip.
      * intros h' Hin. apply elem_of_cons in Hin as [-> | Hin]; [exact Hc |].
        apply (is_cancelled_before s s2 h' A02); [| auto].
        eapply Forall_forall in Hv; [exact Hv |].
        eapply elem_of_sublist; eauto.
      * intros h' Hin Hc'. apply elem_of_cons in Hin as [-> | Hin];
          [apply elem_of_cons; by left |].
        apply elem_of_cons. right. auto.
      * rewrite Hq. by rewrite app_assoc.
      * apply Forall_app. split.
        -- eapply Forall_impl; [exact Hnew1 |]. simpl. intros x Hx.
           fold s2 in Hx. lia.
        -- eapply Forall_impl; [exact Hnew |]. simpl. intros x Hx. lia.
      * apply (mainloop_kept_trans s s1e _ [EvDispatch h] (e1 ++ evs)).
        -- unfold mainloop_kept, mainloop_is_running. simpl.
           split_and!; auto.
           intros Hin. apply list_elem_of_singleton in Hin. discriminate.
        -- apply (mainloop_kept_trans s1e s2 _ e1 evs); [| exact Hm].
           by apply schedules_mainloop_kept.
Qed.

Lemma dispatch_spec (s : loop) :
  ready_valid s ->
  let s' := _dispatch s in
  advances s s' /\
  exists evs,
    trace s' = trace s ++ evs /\
    Forall pass_event evs /\
    sublist (dispatched evs) (_ready s) /\
    (forall h, h ∈ dispatched evs -> is_cancelled s h = false) /\
    (forall h, h ∈ _ready s -> is_cancelled s' h = false ->
               h ∈ dispatched evs) /\
    Forall (fun h => (length (handles s) <= h < length (handles s'))%nat)
      (_ready s') /\
    mainloop_kept s s' evs.
Proof.
  intros Hv. unfold _dispatch. simpl.
  set (s1 := set_will_dispatch true s).
  destruct (dispatch_loop_spec (_ready s) s1 []) as
    (A & evs & new & T & Hev & Hsub & Hran & Hall & Hq & Hnew & Hm).
  { simpl. by rewrite app_nil_r. }
  { exact Hv. }
  change (_ready s1) with (_ready s).
  set (s2 := _dispatch_loop (length (_ready s)) s1) in *.
  pose proof (schedules_schedule_dispatch s2) as S3.
  set (s3 := _schedule_dispatch s2) in *.
  assert (Hh3 : handles s3 = handles s2).
  { unfold s3, _schedule_dispatch. destruct (_ready s2); [done |].
    by destruct (_wakeup s2). }
  assert (Ht3 : trace s3 = trace s2).
  { unfold s3, _schedule_dispatch. destruct (_ready s2); [done |].
    by destruct (_wakeup s2). }
  assert (Hr3 : _ready s3 = _ready s2).
  { unfold s3, _schedule_dispatch. destruct (_ready s2) eqn:E; [exact E |].
    destruct (_wakeup s2); exact E. }
  assert (Hm3 : _mainloop s3 = _mainloop s2).
  { unfold s3, _schedule_dispatch. destruct (_ready s2); [done |].
    by destruct (_wakeup s2). }
  assert (A4 : advances s3 (set_will_dispatch false s3))
    by (by apply advances_quiet).
  split.
  - eapply advances_trans; [| exact A4].
    eapply advances_trans; [| exact (sch_adv _ _ S3)].
    eapply advances_trans; [| exact A]. by apply advances_quiet.
  - exists evs. simpl. unfold is_cancelled in *. simpl.
    rewrite Hh3, Ht3, Hr3. split_and!; auto.
    + rewrite Hq. exact Hnew.
    + destruct Hm as (M1 & M2 & M3).
      unfold mainloop_kept, mainloop_is_running in *. simpl in *.
      rewrite Hm3. auto.
Qed.

Lemma dispatch_pass_of_valid (s : loop) :
  ready_valid s ->
  exists evs evs',
    trace (_dispatch s) = trace s ++ evs /\
    trace (_dispatch (_dispatch s)) = trace (_dispatch s) ++ evs' /\
    let ran := dispatched evs in
    let added := _ready (_dispatch s) in
    sublist ran (_ready s) /\
    (forall h, h ∈ ran -> is_cancelled s h = false) /\
    (forall h, h ∈ _ready s -> is_cancelled (_dispatch s) h = false ->
               h ∈ ran) /\
    Forall (fun h => (length (handles s) <= h)%nat) added /\
    (forall h, h ∈ added -> h ∉ ran) /\
    sublist (dispatched evs') added /\
    (forall h, h ∈ added ->
       is_cancelled (_dispatch (_dispatch s)) h = false ->
       h ∈ dispatched evs').
Proof.
  intros Hv.
  destruct (dispatch_spec s Hv) as
    (A & evs & T & Hev & Hsub & Hran & Hall & Hnew & Hm).
  assert (Hv' : ready_valid (_dispatch s)).
  { unfold ready_valid. eapply Forall_impl; [exact Hnew |]. simpl. lia. }
  destruct (dispatch_spec (_dispatch s) Hv') as
    (A' & evs' & T' & Hev' & Hsub' & Hran' & Hall' & Hnew' & Hm').
  exists evs, evs'. simpl. split_and!; auto.
  - eapply Forall_impl; [exact Hnew |]. simpl. lia.
  - intros h Hin Hin'.
    pose proof (elem_of_sublist _ _ _ Hin' Hsub) as Hq.
    unfold ready_valid in Hv.
    rewrite Forall_forall in Hv, Hnew.
    specialize (Hv h Hq). specialize (Hnew h Hin). lia.
Qed.

(** ** Every step advances the loop *)

Lemma advances_still (s s' : loop) :
  loop_id s' = loop_id s -> _context s' = _context s ->
  handles_le (handles s) (handles s') ->
  sources_le (sources s) (sources s') ->
  sig_le (_sighandlers s) (_sighandlers s') ->
  trace s' = trace s ->
  advances s s'.
Proof.
  intros Hid Hc Hh Hs Hsig Ht. constructor; auto.
  exists []. split; [by rewrite Ht, app_nil_r |].
  intros h hd Hin. by apply elem_of_nil in Hin.
Qed.

Ltac still :=
  apply advances_still; simpl;
  eauto using handles_le_refl, handles_le_app, handles_le_insert,
    sources_le_refl, sources_le_app, sources_le_destroy,
    sig_le_refl, sig_le_delete, sig_le_insert.

Ltac then_adv H := eapply advances_trans; [exact H |].

Lemma advances_emit (e : event) (s : loop) :
  (forall h, e <> EvDispatch h) -> advances s (emit e s).
Proof.
  intros He.
  constructor; simpl; auto using handles_le_refl, sources_le_refl, sig_le_refl;
    try apply handles_le_refl; try apply sources_le_refl.
  exists [e]. split; [done |].
  intros h hd Hin. apply list_elem_of_singleton in Hin. by destruct (He h).
Qed.

Lemma advances_dispatch_loop (n : nat) :
  forall s, advances s (_dispatch_loop n s).
Proof.
  induction n as [| n IH]; intros s; simpl; [apply advances_refl |].
  destruct (_ready s) as [| h rest] eqn:Hr; [apply advances_refl |].
  set (s1 := set_ready rest s).
  assert (A1 : advances s s1) by still.
  destruct (is_cancelled s1 h) eqn:Hc.
  - then_adv A1. apply IH.
  - then_adv A1. then_adv (advances_emit_dispatch h s1 Hc).
    then_adv (sch_adv _ _ (schedules_run h (emit (EvDispatch h) s1))).
    apply IH.
Qed.

Lemma advances_dispatch (s : loop) : advances s (_dispatch s).
Proof.
  unfold _dispatch.
  set (s1 := set_will_dispatch true s).
  assert (A1 : advances s s1) by still.
  then_adv A1.
  then_adv (advances_dispatch_loop (length (_ready s1)) s1).
  then_adv (sch_adv _ _ (schedules_schedule_dispatch
                           (_dispatch_loop (length (_ready s1)) s1))).
  still.
Qed.

Lemma advances_destroy (src : nat) (s : loop) : advances s (destroy src s).
Proof. apply (sch_adv _ _ (schedules_destroy src s)). Qed.

Lemma advances_GLibHandle_callback (h : nat) (s : loop) :
  advances s (GLibHandle_callback h s).2.
Proof.
  unfold GLibHandle_callback.
  destruct (handles s !! h) as [[[| src repeat | src] cb args c rdy] |] eqn:Hh;
    try apply advances_refl.
  set (s1 := if rdy then s else _).
  assert (A1 : advances s s1).
  { unfold s1. destruct rdy; [apply advances_refl |]. still.
    eapply handles_le_insert; [exact Hh |]. unfold handle_le. simpl. auto. }
  then_adv A1. destruct repeat; simpl.
  - apply advances_dispatch.
  - then_adv (advances_dispatch s1). still.
Qed.

Lemma advances_GLibChildHandle_callback (status : Z) (h : nat) (s : loop) :
  advances s (GLibChildHandle_callback status h s).
Proof.
  unfold GLibChildHandle_callback.
  destruct (handles s !! h) as [hd |] eqn:Hh; [| apply advances_refl].
  eapply advances_trans; [| apply advances_dispatch].
  still. eapply handles_le_insert; [exact Hh |]. unfold handle_le. simpl. auto.
Qed.

Lemma advances_wakeup_cb (s : loop) : advances s (wakeup_cb s).2.
Proof.
  unfold wakeup_cb. pose proof (advances_dispatch s) as A.
  destruct (_ready (_dispatch s)); [| exact A].
  destruct (_wakeup (_dispatch s)); [| exact A].
  then_adv A. then_adv (advances_destroy n (_dispatch s)). still.
Qed.

Lemma advances_DefaultSigINTHandler_callback (s : loop) :
  advances s (DefaultSigINTHandler_callback s).
Proof.
  unfold DefaultSigINTHandler_callback.
  destruct (_default_sigint_handler s) as [[[[l |] |]] |];
    try apply advances_refl.
  destruct (decide (l = loop_id s)); [| apply advances_refl].
  apply (sch_adv _ _ (schedules_call_soon interrupt_cb [] s)).
Qed.

Lemma advances_glib_dispatch (e : glib_event) (s : loop) :
  advances s (glib_dispatch e s).
Proof.
  destruct e as [src | src status |]; simpl.
  - destruct (sources s !! src) as [[k cb ctx [|]] |]; try apply advances_refl.
    destruct (decide (ctx = _context s)); [| apply advances_refl].
    destruct cb as [h | h |].
    + pose proof (advances_GLibHandle_callback h s) as A.
      destruct (GLibHandle_callback h s) as [[|] s1]; simpl in A; [exact A |].
      then_adv A. apply advances_destroy.
    + apply advances_refl.
    + pose proof (advances_wakeup_cb s) as A.
      destruct (wakeup_cb s) as [[|] s1]; simpl in A; [exact A |].
      then_adv A. apply advances_destroy.
  - destruct (sources s !! src) as [[[| | | pid] [h | h |] ctx [|]] |];
      try apply advances_refl.
    destruct (decide (ctx = _context s)); [| apply advances_refl].
    then_adv (advances_GLibChildHandle_callback status h s).
    apply advances_destroy.
  - destruct (decide (_context s = DefaultContext)); [| apply advances_refl].
    apply advances_DefaultSigINTHandler_callback.
Qed.

Lemma advances_iterate (script : list glib_event) :
  forall s, advances s (iterate script s).2.
Proof.
  induction script as [| e rest IH]; intros s; simpl.
  - destruct (mainloop_is_running s); apply advances_refl.
  - destruct (mainloop_is_running s); [| apply advances_refl].
    then_adv (advances_glib_dispatch e s). apply IH.
Qed.

Lemma advances_run_forever_exit (s : loop) :
  advances s (outcome_state (run_forever_exit s)).
Proof.
  unfold run_forever_exit. destruct (_interrupted s); simpl; still.
Qed.

Lemma advances_run_forever (script : list glib_event) (s : loop) :
  advances s (outcome_state (run_forever script s)).
Proof.
  unfold run_forever. destruct (_mainloop s); [apply advances_refl |].
  set (s1 := set_mainloop (Some (MkMainLoop true)) s).
  assert (A1 : advances s s1) by still.
  then_adv A1. then_adv (advances_dispatch s1).
  destruct (mainloop_is_running (_dispatch s1));
    [| apply advances_run_forever_exit].
  set (s2 := emit EvEnterRun (_dispatch s1)).
  assert (A2 : advances (_dispatch s1) s2) by (by apply advances_emit).
  then_adv A2. unfold MainLoop_run.
  set (s3 := set_mainloop (Some (MkMainLoop true)) s2).
  assert (A3 : advances s2 s3) by still.
  then_adv A3. pose proof (advances_iterate script s3) as A4.
  destruct (iterate script s3) as [[|] s4]; simpl in A4; [| exact A4].
  then_adv A4.
  eapply advances_trans; [| apply advances_run_forever_exit].
  by apply advances_emit.
Qed.

Lemma advances_run_until_complete (script : list glib_event) (f : nat)
    (s : loop) :
  advances s (outcome_state (run_until_complete (run_forever script) f s)).
Proof.
  unfold run_until_complete.
  set (s1 := add_done_callback f stop_cb s).
  pose proof (sch_adv _ _ (schedules_add_done_callback f stop_cb s)) as A1.
  fold s1 in A1. then_adv A1.
  pose proof (advances_run_forever script s1) as A2.
  destruct (run_forever script s1) as [[u | e] s2 | s2]; simpl in A2.
  - set (s3 := remove_done_callback f stop_cb s2).
    pose proof (sch_adv _ _ (schedules_remove_done_callback f stop_cb s2)) as A3.
    fold s3 in A3.
    destruct (negb (done s3 f)); simpl; (then_adv A2; exact A3).
  - simpl. then_adv A2.
    apply (sch_adv _ _ (schedules_remove_done_callback f stop_cb s2)).
  - exact A2.
Qed.

Lemma advances_cancel_all (hs : list nat) :
  forall s, advances s (fold_left (fun acc h => cancel h acc) hs s).
Proof.
  induction hs as [| h hs IH]; intros s; simpl; [apply advances_refl |].
  then_adv (sch_adv _ _ (schedules_cancel h s)). apply IH.
Qed.

Lemma advances_close (s : loop) : advances s (close s).2.
Proof.
  unfold close.
  pose proof (advances_cancel_all (elements (_handlers s)) s) as A.
  destruct (_default_sigint_handler _); simpl; [| exact A].
  then_adv A. still.
Qed.

Lemma advances_do_step (st : step) (s : loop) : advances s (do_step st s).
Proof.
  destruct st; simpl.
  - apply (sch_adv _ _ (schedules_run_action a s)).
  - apply advances_glib_dispatch.
  - apply advances_dispatch.
  - apply advances_run_forever.
  - apply advances_run_until_complete.
  - apply advances_close.
  - still.
Qed.

Lemma advances_do_steps (steps : list step) :
  forall s, advances s (do_steps steps s).
Proof.
  induction steps as [| st steps IH]; intros s; simpl; [apply advances_refl |].
  then_adv (advances_do_step st s). apply IH.
Qed.

(** ** Cancellation *)

Lemma elem_of_dispatched (h : nat) (evs : list event) :
  h ∈ dispatched evs <-> EvDispatch h ∈ evs.
Proof.
  unfold dispatched. rewrite list_elem_of_omap. split.
  - intros (e & Hin & He). destruct e; try discriminate.
    injection He as ->. exact Hin.
  - intros Hin. exists (EvDispatch h). done.
Qed.

Lemma cancel_marks (h : nat) (s : loop) :
  (h < length (handles s))%nat ->
  exists hd, handles (cancel h s) !! h = Some hd /\ h_cancelled hd = true.
Proof.
  intros Hlt. unfold cancel.
  destruct (lookup_lt_is_Some_2 _ _ Hlt) as [hd Hl]. rewrite Hl.
  exists (mark_cancelled hd). split; [| reflexivity].
  destruct (h_class hd); simpl; by rewrite list_lookup_insert_eq.
Qed.

(** C2: once a handle has been cancelled, no step of the loop runs its
    callback: whatever calls, foreign callbacks, dispatch passes and runs of
    the loop follow, the trace they add shows no dispatch of that handle. *)
Theorem cancelled_never_runs (h : nat) (s : loop) (steps : list step) :
  (h < length (handles s))%nat ->
  exists evs,
    trace (do_steps steps (cancel h s)) = trace (cancel h s) ++ evs /\
    (h ∉ dispatched evs) /\
    is_cancelled (do_steps steps (cancel h s)) h = true.
Proof.
  intros Hlt.
  destruct (cancel_marks h s Hlt) as (hd & Hl & Hc).
  pose proof (advances_do_steps steps (cancel h s)) as A.
  destruct (adv_trace _ _ A) as (evs & T & Hno).
  exists evs. split_and!; [exact T | |].
  - rewrite elem_of_dispatched. intros Hin.
    specialize (Hno h hd Hin Hl). congruence.
  - apply (is_cancelled_stays (cancel h s)); [exact A | |].
    + by eapply lookup_lt_Some.
    + unfold is_cancelled. by rewrite Hl.
Qed.

(** ** Signal handlers *)

Lemma init_sighandlers (id : nat) (glib_context : option context)
    (fresh : nat) (sigint : option DefaultSigINTHandler) (s0 : loop) :
  init id glib_context fresh sigint = Ok s0 -> _sighandlers s0 = ∅.
Proof.
  unfold init.
  destruct (decide (_ = DefaultContext)); [destruct sigint |];
    intros H; try discriminate; injection H as <-; reflexivity.
Qed.

Lemma reachable_sighandlers (s : loop) (sig : Z) :
  reachable s -> is_Some (_sighandlers s !! sig) -> watchable sig.
Proof.
  intros (id & ctx & fresh & sigint & s0 & steps & Hi & ->) Hs.
  destruct (adv_sig _ _ (advances_do_steps steps s0) sig Hs) as [H0 | W];
    [| exact W].
  rewrite (init_sighandlers _ _ _ _ _ Hi), lookup_empty in H0.
  by destruct H0.
Qed.

(** C6: [add_signal_handler] fails with [RuntimeError] for SIGKILL and with
    [ValueError] for any other signal GLib gives no source for, two different
    errors; and whenever it fails, the loop is as it was before the call, so
    that a handler registered for the signal is still registered. *)
Theorem add_signal_handler_failure (sig : Z) (cb : callback)
    (args : list pyval) (s : loop) :
  reachable s ->
  let r := add_signal_handler sig cb args s in
  (_check_signal sig = None -> unix_signal_source_new sig = false ->
     (sig = SIGKILL -> r.1 = Raise (RuntimeError "cannot catch SIGKILL")) /\
     (sig <> SIGKILL -> r.1 = Raise (ValueError "signal not supported"))) /\
  RuntimeError "cannot catch SIGKILL" <> ValueError "signal not supported" /\
  (forall e, r.1 = Raise e ->
     r.2 = s /\ _sighandlers r.2 !! sig = _sighandlers s !! sig).
Proof.
  intros Hr. simpl. unfold add_signal_handler, remove_signal_handler.
  split_and!.
  - intros Hchk Hsup. rewrite Hchk.
    destruct (_sighandlers s !! sig) as [h |] eqn:Hh.
    + destruct (reachable_sighandlers s sig Hr) as [W _]; [by rewrite Hh |].
      congruence.
    + rewrite Hsup. destruct (decide (sig = SIGKILL)); split; done.
  - discriminate.
  - intros e. destruct (_check_signal sig) as [e' |] eqn:Hchk; [done |].
    destruct (_sighandlers s !! sig) as [h |] eqn:Hh.
    + destruct (reachable_sighandlers s sig Hr) as [W _]; [by rewrite Hh |].
      rewrite W.
      destruct (GLibHandle_init (UnixSignal sig) true cb args _). discriminate.
    + destruct (unix_signal_source_new sig).
      * destruct (GLibHandle_init (UnixSignal sig) true cb args _).
        discriminate.
      * destruct (decide (sig = SIGKILL)); done.
Qed.

(** ** run_forever *)

Lemma dispatch_loop_kept (n : nat) :
  forall s, exists evs,
    trace (_dispatch_loop n s) = trace s ++ evs /\
    Forall pass_event evs /\
    mainloop_kept s (_dispatch_loop n s) evs.
Proof.
  induction n as [| n IH]; intros s; simpl.
  - exists []. rewrite app_nil_r. split_and!; [done | constructor |].
    by apply mainloop_kept_same.
  - destruct (_ready s) as [| h rest] eqn:Hr.
    + exists []. rewrite app_nil_r. split_and!; [done | constructor |].
      by apply mainloop_kept_same.
    + set (s1 := set_ready rest s).
      assert (K1 : mainloop_kept s s1 []) by (by apply mainloop_kept_same).
      destruct (is_cancelled s1 h).
      * destruct (IH s1) as (evs & T & Hev & K). exists evs.
        split_and!; [exact T | exact Hev |].
        apply (mainloop_kept_trans s s1 _ [] evs K1 K).
      * set (s1e := emit (EvDispatch h) s1).
        pose proof (schedules_run h s1e) as S.
        destruct (adv_trace _ _ (sch_adv _ _ S)) as (e1 & T1 & _).
        pose proof (sch_events _ _ S e1 T1) as Hstops.
        destruct (IH (_run h s1e)) as (evs & T & Hev & K).
        exists ([EvDispatch h] ++ e1 ++ evs). split_and!.
        -- rewrite T, T1. simpl. by rewrite <- !app_assoc.
        -- apply Forall_app.
           split; [constructor; [right; by eexists | constructor] |].
           apply Forall_app. split; [| exact Hev].
           eapply Forall_impl; [exact Hstops |]. intros e ->. by left.
        -- apply (mainloop_kept_trans s s1e _ [EvDispatch h] (e1 ++ evs)).
           ++ unfold mainloop_kept, mainloop_is_running. simpl.
              split_and!; auto.
              intros Hin. apply list_elem_of_singleton in Hin. discriminate.
           ++ apply (mainloop_kept_trans s1e (_run h s1e) _ e1 evs); [| exact K].
              by apply schedules_mainloop_kept.
Qed.

Lemma schedule_dispatch_frame (s : loop) :
  trace (_schedule_dispatch s) = trace s /\
  _mainloop (_schedule_dispatch s) = _mainloop s /\
  _interrupted (_schedule_dispatch s) = _interrupted s.
Proof.
  unfold _schedule_dispatch. destruct (_ready s); [done |].
  by destruct (_wakeup s).
Qed.

Lemma dispatch_kept (s : loop) :
  exists evs,
    trace (_dispatch s) = trace s ++ evs /\
    Forall pass_event evs /\
    mainloop_kept s (_dispatch s) evs.
Proof.
  unfold _dispatch.
  set (s1 := set_will_dispatch true s).
  destruct (dispatch_loop_kept (length (_ready s1)) s1) as (evs & T & Hev & K).
  set (s2 := _dispatch_loop (length (_ready s1)) s1) in *.
  destruct (schedule_dispatch_frame s2) as (Ht & Hm & _).
  exists evs. simpl. rewrite Ht. split_and!; [exact T | exact Hev |].
  destruct K as (K1 & K2 & K3).
  unfold mainloop_kept, mainloop_is_running in *. simpl in *.
  rewrite Hm. auto.
Qed.

(** C7: when [stop()] is called during the dispatch pass [run_forever]
    makes before blocking, [run_forever] returns without ever entering the
    blocking [run()] of the main loop, whatever GLib would have delivered. *)
Theorem stop_in_first_pass_skips_run (script : list glib_event) (s : loop)
    (evs : list event) :
  _mainloop s = None ->
  trace (_dispatch (set_mainloop (Some (MkMainLoop true)) s)) = trace s ++ evs ->
  EvStop ∈ evs ->
  exists r s',
    run_forever script s = Returns r s' /\
    trace s' = trace s ++ evs /\
    (EvEnterRun ∉ evs) /\
    _mainloop s' = None.
Proof.
  intros Hm T Hstop. unfold run_forever. rewrite Hm.
  set (s1 := set_mainloop (Some (MkMainLoop true)) s) in *.
  destruct (dispatch_kept s1) as (evs' & T' & Hev & (_ & _ & K)).
  change (trace s1) with (trace s) in T'.
  rewrite T in T'. apply app_inv_head in T'. subst evs'.
  rewrite K; [| exact Hstop | by eexists].
  assert (Hno : EvEnterRun ∉ evs).
  { intros Hin. rewrite Forall_forall in Hev.
    destruct (Hev _ Hin) as [H | [h H]]; discriminate. }
  unfold run_forever_exit. destruct (_interrupted (_dispatch s1));
    eexists _, _; (split_and!; [reflexivity | exact T | exact Hno | reflexivity]).
Qed.

(** ** run_until_complete *)

Lemma remove_done_callback_removed (f : nat) (fn : callback) (s : loop) :
  Forall (fun c => same_callback c fn = false)
    (f_callbacks (get_future (remove_done_callback f fn s) f)).
Proof.
  unfold remove_done_callback, get_future. simpl.
  rewrite list_lookup_alter_eq.
  destruct (futures s !! f) as [fu |]; simpl; [| constructor].
  apply Forall_forall. intros c Hin.
  by apply list_elem_of_filter in Hin as [Hc _].
Qed.

Lemma remove_done_callback_state (f : nat) (fn : callback) (s : loop) :
  f_state (get_future (remove_done_callback f fn s) f) =
  f_state (get_future s f).
Proof.
  unfold remove_done_callback, get_future. simpl.
  rewrite list_lookup_alter_eq.
  by destruct (futures s !! f) as [fu |].
Qed.

(** C8 (amended): when [run_forever] returns normally, [run_until_complete]
    returns the result of a future that completed with one, raises the
    exception of a future that failed, and raises the incomplete-result
    error for a future still pending; when [run_forever] itself raises (the
    loop is already running, or a caught SIGINT turns into
    [KeyboardInterrupt]) that exception is raised instead.  Whenever the
    call returns or raises, the [stop] callback is no longer among the
    future's done-callbacks. *)
Theorem run_until_complete_spec (run_forever : loop -> outcome unit)
    (future : nat) (s : loop) (r : result unit) (s2 : loop) :
  run_forever (add_done_callback future stop_cb s) = Returns r s2 ->
  let s3 := remove_done_callback future stop_cb s2 in
  let state := f_state (get_future s2 future) in
  (forall R, r = Ok tt -> state = Some (Ok R) ->
     run_until_complete run_forever future s = Returns (Ok R) s3) /\
  (forall e, r = Ok tt -> state = Some (Raise e) ->
     run_until_complete run_forever future s = Returns (Raise e) s3) /\
  (r = Ok tt -> state = None ->
     run_until_complete run_forever future s =
       Returns (Raise (RuntimeError
                  "Event loop stopped before Future completed.")) s3) /\
  (forall e, r = Raise e ->
     run_until_complete run_forever future s = Returns (Raise e) s3) /\
  Forall (fun c => same_callback c stop_cb = false)
    (f_callbacks (get_future s3 future)).
Proof.
  intros Hrf. simpl. unfold run_until_complete. rewrite Hrf.
  unfold done, future_result. rewrite remove_done_callback_state.
  split_and!.
  - intros R -> ->. reflexivity.
  - intros e -> ->. reflexivity.
  - intros -> ->. reflexivity.
  - intros e ->. reflexivity.
  - apply remove_done_callback_removed.
Qed.

(** ** Readers *)

Lemma active_reader_frame (s s' : loop) (fd : Z) (h : nat) :
  handles s' = handles s -> sources s' = sources s ->
  active_reader s' fd h = active_reader s fd h.
Proof. intros Hh Hs. unfold active_reader. by rewrite Hh, Hs. Qed.

Lemma active_reader_cancel_self (s : loop) (fd : Z) (h : nat) :
  active_reader (cancel h s) fd h = false.
Proof.
  unfold cancel. destruct (handles s !! h) as [hd |] eqn:Hh.
  - assert (Hlt : (h < length (handles s))%nat) by (by eapply lookup_lt_Some).
    unfold active_reader.
    destruct (h_class hd) eqn:Hc; simpl;
      rewrite list_lookup_insert_eq by done; simpl; rewrite Hc; done.
  - unfold active_reader. by rewrite Hh.
Qed.

Lemma active_reader_cancel_other (s : loop) (fd : Z) (h1 h : nat) :
  h <> h1 -> active_reader (cancel h1 s) fd h = true ->
  active_reader s fd h = true.
Proof.
  intros Hne. unfold cancel.
  destruct (handles s !! h1) as [hd1 |] eqn:Hh1; [| done].
  unfold active_reader.
  destruct (h_class hd1) as [| src1 r1 | src1]; simpl;
    rewrite list_lookup_insert_ne by done; [done | |];
    (destruct (handles s !! h) as [hd |]; [| done];
     destruct (h_class hd) as [| src r | src]; try done;
     destruct (h_cancelled hd); simpl; [done |];
     unfold destroy; simpl;
     destruct (decide (src = src1)) as [-> | Hs];
     [ rewrite list_lookup_alter_eq;
       destruct (sources s !! src1); simpl; done
     | rewrite list_lookup_alter_ne by done; done ]).
Qed.

Lemma cancel_handles_exist (h1 : nat) (s : loop) :
  (forall h hd src r, handles s !! h = Some hd ->
     h_class hd = GLibHandle src r -> (src < length (sources s))%nat) ->
  forall h hd src r, handles (cancel h1 s) !! h = Some hd ->
    h_class hd = GLibHandle src r -> (src < length (sources (cancel h1 s)))%nat.
Proof.
  intros Hex h hd src r Hl Hc.
  destruct (cancel_lengths h1 s) as [_ Hlen]. rewrite Hlen.
  unfold cancel in Hl. destruct (handles s !! h1) as [hd1 |] eqn:Hh1;
    [| eauto].
  assert (Hl' : <[h1 := mark_cancelled hd1]> (handles s) !! h = Some hd).
  { destruct (h_class hd1); exact Hl. }
  destruct (decide (h = h1)) as [-> | Hne].
  - rewrite list_lookup_insert_eq in Hl' by (by eapply lookup_lt_Some).
    injection Hl' as <-. simpl in Hc. eauto.
  - rewrite list_lookup_insert_ne in Hl' by done. eauto.
Qed.

Lemma cancel_readers (h : nat) (s : loop) :
  _readers (cancel h s) = _readers s.
Proof.
  unfold cancel. destruct (handles s !! h) as [hd |]; [| done].
  destruct (h_class hd); reflexivity.
Qed.

Lemma is_cancelled_cancel (h : nat) (s : loop) :
  is_cancelled (cancel h s) h = true.
Proof.
  destruct (decide (h < length (handles s))%nat) as [Hlt | Hge].
  - destruct (cancel_marks h s Hlt) as (hd & Hl & Hc).
    unfold is_cancelled. by rewrite Hl.
  - unfold is_cancelled.
    destruct (cancel_lengths h s) as [Hlen _].
    rewrite lookup_ge_None_2; [done | lia].
Qed.

Lemma remove_reader_spec (fd : fd_like) (s : loop) :
  registry_ok s ->
  let s1 := (remove_reader fd s).2 in
  registry_ok s1 /\
  length (handles s1) = length (handles s) /\
  (forall h, active_reader s1 (resolve_fd fd) h = false) /\
  _readers s1 !! resolve_fd fd = None /\
  match _readers s !! resolve_fd fd with
  | Some h => (remove_reader fd s).1 = true /\ is_cancelled s1 h = true
  | None => remove_reader fd s = (false, s)
  end.
Proof.
  intros [Hex Htab Hinv]. unfold remove_reader. simpl.
  destruct (_readers s !! resolve_fd fd) as [h1 |] eqn:Hfd; simpl.
  - set (s0 := set_readers (delete (resolve_fd fd) (_readers s)) s).
    destruct (cancel_lengths h1 s0) as [Hlen _].
    assert (Hact : forall fd0 h, active_reader (cancel h1 s0) fd0 h = true ->
                     h <> h1 /\ active_reader s fd0 h = true).
    { intros fd0 h Ha. destruct (decide (h = h1)) as [-> | Hne].
      - by rewrite active_reader_cancel_self in Ha.
      - split; [done |].
        apply (active_reader_cancel_other s0 fd0 h1 h Hne) in Ha.
        by rewrite (active_reader_frame s s0) in Ha. }
    split_and!.
    + constructor.
      * apply (cancel_handles_exist h1 s0). exact Hex.
      * intros fd0 h. rewrite cancel_readers, Hlen. simpl.
        intros Hl. apply lookup_delete_Some in Hl as [_ Hl]. eauto.
      * intros fd0 h Ha. destruct (Hact fd0 h Ha) as [Hne Ha'].
        rewrite cancel_readers. simpl.
        pose proof (Hinv fd0 h Ha') as Hl.
        rewrite lookup_delete_ne; [exact Hl |].
        intros <-. congruence.
    + exact Hlen.
    + intros h. destruct (active_reader _ _ h) eqn:Ha; [| done].
      destruct (Hact _ h Ha) as [Hne Ha'].
      pose proof (Hinv _ h Ha') as Hl. congruence.
    + rewrite cancel_readers. simpl. apply lookup_delete_eq.
    + done.
    + apply is_cancelled_cancel.
  - split_and!; auto.
    + by constructor.
    + intros h. destruct (active_reader s _ h) eqn:Ha; [| done].
      pose proof (Hinv _ h Ha) as Hl. congruence.
Qed.

Lemma add_reader_unfold (fd : fd_like) (cb : callback) (args : list pyval)
    (s : loop) :
  let fd' := resolve_fd fd in
  let s1 := (remove_reader (FdInt fd') s).2 in
  let h2 := length (handles s1) in
  let src2 := length (sources s1) in
  let s' := add_reader fd cb args s in
  handles s' =
    handles s1 ++ [MkHandle (GLibHandle src2 true) cb args false false] /\
  sources s' =
    sources s1 ++ [Source (UnixFd fd' IO_IN) (CbHandle h2) (_context s1) false] /\
  _readers s' = <[fd' := h2]> (_readers s1).
Proof. unfold add_reader, GLibHandle_init. simpl. done. Qed.

Lemma add_reader_active_old (fd : fd_like) (cb : callback)
    (args : list pyval) (s : loop) (fd0 : Z) (h : nat) :
  registry_ok s ->
  let s1 := (remove_reader (FdInt (resolve_fd fd)) s).2 in
  (h < length (handles s1))%nat ->
  active_reader (add_reader fd cb args s) fd0 h = active_reader s1 fd0 h.
Proof.
  intros Hok s1 Hlt.
  destruct (remove_reader_spec (FdInt (resolve_fd fd)) s Hok) as ([Hex _ _] & _).
  fold s1 in Hex.
  destruct (add_reader_unfold fd cb args s) as (Hh & Hs & _).
  fold s1 in Hh, Hs.
  unfold active_reader. rewrite Hh, Hs.
  rewrite lookup_app_l by done.
  destruct (handles s1 !! h) as [hd |] eqn:Hl; [| done].
  destruct (h_class hd) as [| src r | src] eqn:Hc; try done.
  rewrite lookup_app_l by (eapply Hex; eauto). done.
Qed.

Lemma add_reader_active_new (fd : fd_like) (cb : callback)
    (args : list pyval) (s : loop) (fd0 : Z) :
  let s1 := (remove_reader (FdInt (resolve_fd fd)) s).2 in
  active_reader (add_reader fd cb args s) fd0 (length (handles s1)) =
  bool_decide (resolve_fd fd = fd0).
Proof.
  intros s1.
  destruct (add_reader_unfold fd cb args s) as (Hh & Hs & _).
  fold s1 in Hh, Hs.
  unfold active_reader. rewrite Hh, Hs.
  rewrite lookup_snoc_new. simpl. rewrite lookup_snoc_new. simpl. done.
Qed.

Lemma add_reader_registry_ok (fd : fd_like) (cb : callback)
    (args : list pyval) (s : loop) :
  registry_ok s -> registry_ok (add_reader fd cb args s).
Proof.
  intros Hok.
  destruct (remove_reader_spec (FdInt (resolve_fd fd)) s Hok)
    as ([Hex Htab Hinv] & _ & Hnone & _).
  simpl in Hnone.
  set (s1 := (remove_reader (FdInt (resolve_fd fd)) s).2) in *.
  destruct (add_reader_unfold fd cb args s) as (Hh & Hs & Hr).
  fold s1 in Hh, Hs, Hr.
  constructor.
  - intros h hd src r Hl Hc. rewrite Hh in Hl. rewrite Hs, length_app. simpl.
    apply lookup_app_Some in Hl as [Hl | [Hge Hl]].
    + specialize (Hex h hd src r Hl Hc). lia.
    + destruct (h - length (handles s1))%nat; [| done].
      injection Hl as <-. simpl in Hc. injection Hc as <- _. lia.
  - intros fd0 h. rewrite Hr, Hh, length_app. simpl. intros Hl.
    apply lookup_insert_Some in Hl as [[_ <-] | [_ Hl]]; [lia |].
    specialize (Htab fd0 h Hl). lia.
  - intros fd0 h Ha. rewrite Hr.
    destruct (decide (h < length (handles s1))%nat) as [Hlt | Hge].
    + rewrite (add_reader_active_old fd cb args s fd0 h Hok Hlt) in Ha.
      fold s1 in Ha.
      rewrite lookup_insert_ne; [by apply Hinv |].
      intros <-. by rewrite Hnone in Ha.
    + destruct (decide (h = length (handles s1))) as [-> | Hne].
      * pose proof (add_reader_active_new fd cb args s fd0) as Hn.
        simpl in Hn. fold s1 in Hn. rewrite Hn in Ha.
        apply bool_decide_eq_true in Ha as <-. apply lookup_insert_eq.
      * unfold active_reader in Ha. rewrite Hh in Ha.
        rewrite lookup_ge_None_2 in Ha; [done |].
        rewrite length_app. simpl. lia.
Qed.



(** ** Invariants of reachable loops

    A property of the loop that survives the calls of its interface and a
    handful of updates the dispatcher and the foreign callbacks make holds
    of every reachable loop. *)

Section Invariant.
Variable Inv : loop -> Prop.
Hypothesis Inv_action : forall a s, Inv s -> Inv (run_action a s).2.
Hypothesis Inv_core : forall s s', Inv s -> same_core s s' -> Inv s'.
Hypothesis Inv_pop : forall s h rest,
  Inv s -> _ready s = h :: rest -> Inv (set_ready rest s).
Hypothesis Inv_enqueue : forall s h hd,
  Inv s -> handles s !! h = Some hd -> Inv (set_ready (_ready s ++ [h]) s).
Hypothesis Inv_update : forall s h hd hd',
  Inv s -> handles s !! h = Some hd -> same_flags hd hd' ->
  Inv (set_handles (<[h := hd']> (handles s)) s).
Hypothesis Inv_wakeup : forall s, Inv s -> Inv (_schedule_dispatch s).
Hypothesis Inv_destroy : forall s src, Inv s -> Inv (destroy src s).

Lemma Inv_run_actions (body : list action) :
  forall s, Inv s -> Inv (run_actions body s).
Proof.
  induction body as [| a body IH]; intros s H; simpl; [exact H |].
  pose proof (Inv_action a s H) as Ha.
  destruct (run_action a s) as [[u | e] s1]; simpl in Ha; [| exact Ha].
  by apply IH.
Qed.

Lemma Inv_run (h : nat) (s : loop) : Inv s -> Inv (_run h s).
Proof.
  intros H. unfold _run. destruct (handles s !! h) as [hd |] eqn:Hh; [| done].
  apply Inv_run_actions.
  destruct (h_class hd); try exact H.
  eapply Inv_update; [exact H | exact Hh | by split].
Qed.

Lemma Inv_dispatch_loop (n : nat) :
  forall s, Inv s -> Inv (_dispatch_loop n s).
Proof.
  induction n as [| n IH]; intros s H; simpl; [exact H |].
  destruct (_ready s) as [| h rest] eqn:Hr; [exact H |].
  pose proof (Inv_pop s h rest H Hr) as H1.
  destruct (is_cancelled (set_ready rest s) h); apply IH; [exact H1 |].
  apply Inv_run. eapply Inv_core; [exact H1 | by repeat split].
Qed.

Lemma Inv_dispatch (s : loop) : Inv s -> Inv (_dispatch s).
Proof.
  intros H. unfold _dispatch.
  set (s1 := set_will_dispatch true s).
  assert (H1 : Inv s1) by (eapply Inv_core; [exact H | by repeat split]).
  pose proof (Inv_wakeup _ (Inv_dispatch_loop (length (_ready s1)) s1 H1)) as H3.
  eapply Inv_core; [exact H3 | by repeat split].
Qed.

Lemma Inv_GLibHandle_callback (h : nat) (s : loop) :
  Inv s -> Inv (GLibHandle_callback h s).2.
Proof.
  intros H. unfold GLibHandle_callback.
  destruct (handles s !! h) as [[[| src repeat | src] cb args c rdy] |] eqn:Hh;
    try exact H.
  set (s1 := if rdy then s else _).
  assert (H1 : Inv s1).
  { unfold s1. destruct rdy; [exact H |].
    set (hd' := mark_ready true _).
    pose proof (Inv_update s h _ hd' H Hh (conj eq_refl eq_refl)) as Hu.
    apply (Inv_enqueue _ h hd') in Hu; [exact Hu |].
    simpl. apply list_lookup_insert_eq. by eapply lookup_lt_Some. }
  destruct repeat.
  - by apply Inv_dispatch.
  - eapply Inv_core; [apply Inv_dispatch; exact H1 | by repeat split].
Qed.

Lemma Inv_GLibChildHandle_callback (status : Z) (h : nat) (s : loop) :
  Inv s -> Inv (GLibChildHandle_callback status h s).
Proof.
  intros H. unfold GLibChildHandle_callback.
  destruct (handles s !! h) as [hd |] eqn:Hh; [| exact H].
  apply Inv_dispatch.
  set (hd' := append_arg _ hd).
  pose proof (Inv_update s h hd hd' H Hh (conj eq_refl eq_refl)) as Hu.
  apply (Inv_enqueue _ h hd') in Hu; [exact Hu |].
  simpl. apply list_lookup_insert_eq. by eapply lookup_lt_Some.
Qed.

Lemma Inv_wakeup_cb (s : loop) : Inv s -> Inv (wakeup_cb s).2.
Proof.
  intros H. unfold wakeup_cb. pose proof (Inv_dispatch s H) as Hd.
  destruct (_ready (_dispatch s)); [| exact Hd].
  destruct (_wakeup (_dispatch s)); [| exact Hd].
  eapply Inv_core; [apply Inv_destroy; exact Hd | by repeat split].
Qed.

Lemma Inv_glib_dispatch (e : glib_event) (s : loop) :
  Inv s -> Inv (glib_dispatch e s).
Proof.
  intros H. destruct e as [src | src status |]; simpl.
  - destruct (sources s !! src) as [[k cb ctx [|]] |]; try exact H.
    destruct (decide (ctx = _context s)); [| exact H].
    destruct cb as [h | h |]; [| exact H |].
    + pose proof (Inv_GLibHandle_callback h s H) as A.
      destruct (GLibHandle_callback h s) as [[|] s1]; simpl in A; [exact A |].
      by apply Inv_destroy.
    + pose proof (Inv_wakeup_cb s H) as A.
      destruct (wakeup_cb s) as [[|] s1]; simpl in A; [exact A |].
      by apply Inv_destroy.
  - destruct (sources s !! src) as [[[| | | pid] [h | h |] ctx [|]] |];
      try exact H.
    destruct (decide (ctx = _context s)); [| exact H].
    by apply Inv_destroy, Inv_GLibChildHandle_callback.
  - destruct (decide (_context s = DefaultContext)); [| exact H].
    unfold DefaultSigINTHandler_callback.
    destruct (_default_sigint_handler s) as [[[[l |] |]] |]; try exact H.
    destruct (decide (l = loop_id s)); [| exact H].
    exact (Inv_action (ACallSoon interrupt_cb []) s H).
Qed.

Lemma Inv_iterate (script : list glib_event) :
  forall s, Inv s -> Inv (iterate script s).2.
Proof.
  induction script as [| e rest IH]; intros s H; simpl.
  - by destruct (mainloop_is_running s).
  - destruct (mainloop_is_running s); [| exact H].
    by apply IH, Inv_glib_dispatch.
Qed.

Lemma Inv_run_forever_exit (s : loop) :
  Inv s -> Inv (outcome_state (run_forever_exit s)).
Proof.
  intros H. unfold run_forever_exit.
  destruct (_interrupted s); simpl;
    (eapply Inv_core; [exact H | by repeat split]).
Qed.

Lemma Inv_run_forever (script : list glib_event) (s : loop) :
  Inv s -> Inv (outcome_state (run_forever script s)).
Proof.
  intros H. unfold run_forever. destruct (_mainloop s); [exact H |].
  set (s1 := set_mainloop (Some (MkMainLoop true)) s).
  assert (H1 : Inv (_dispatch s1)).
  { apply Inv_dispatch. eapply Inv_core; [exact H | by repeat split]. }
  destruct (mainloop_is_running (_dispatch s1));
    [| by apply Inv_run_forever_exit].
  unfold MainLoop_run.
  set (s3 := set_mainloop _ (emit EvEnterRun (_dispatch s1))).
  assert (H3 : Inv s3) by (eapply Inv_core; [exact H1 | by repeat split]).
  pose proof (Inv_iterate script s3 H3) as H4.
  destruct (iterate script s3) as [[|] s4]; simpl in H4; [| exact H4].
  apply Inv_run_forever_exit.
  eapply Inv_core; [exact H4 | by repeat split].
Qed.

Lemma Inv_add_done_callback (f : nat) (fn : callback) (s : loop) :
  Inv s -> Inv (add_done_callback f fn s).
Proof.
  intros H. unfold add_done_callback. destruct (f_state (get_future s f)).
  - exact (Inv_action (ACallSoon fn [VFuture f]) s H).
  - eapply Inv_core; [exact H | by repeat split].
Qed.

Lemma Inv_remove_done_callback (f : nat) (fn : callback) (s : loop) :
  Inv s -> Inv (remove_done_callback f fn s).
Proof.
  intros H. unfold remove_done_callback.
  eapply Inv_core; [exact H | by repeat split].
Qed.

Lemma Inv_run_until_complete (script : list glib_event) (f : nat) (s : loop) :
  Inv s ->
  Inv (outcome_state (run_until_complete (run_forever script) f s)).
Proof.
  intros H. unfold run_until_complete.
  pose proof (Inv_run_forever script _ (Inv_add_done_callback f stop_cb s H))
    as H2.
  destruct (run_forever script _) as [[u | e] s2 | s2]; simpl in H2.
  - destruct (negb (done _ f)); simpl; by apply Inv_remove_done_callback.
  - simpl. by apply Inv_remove_done_callback.
  - exact H2.
Qed.

Lemma Inv_cancel_all (hs : list nat) :
  forall s, Inv s -> Inv (fold_left (fun acc h => cancel h acc) hs s).
Proof.
  induction hs as [| h hs IH]; intros s H; simpl; [exact H |].
  apply IH. exact (Inv_action (ACancel h) s H).
Qed.

Lemma Inv_close (s : loop) : Inv s -> Inv (close s).2.
Proof.
  intros H. unfold close.
  pose proof (Inv_cancel_all (elements (_handlers s)) s H) as A.
  destruct (_default_sigint_handler _); simpl; [| exact A].
  eapply Inv_core; [exact A | by repeat split].
Qed.

Lemma Inv_do_step (st : step) (s : loop) : Inv s -> Inv (do_step st s).
Proof.
  intros H. destruct st; simpl.
  - by apply Inv_action.
  - by apply Inv_glib_dispatch.
  - by apply Inv_dispatch.
  - by apply Inv_run_forever.
  - by apply Inv_run_until_complete.
  - by apply Inv_close.
  - eapply Inv_core; [exact H | by repeat split].
Qed.

Lemma Inv_do_steps (steps : list step) :
  forall s, Inv s -> Inv (do_steps steps s).
Proof.
  induction steps as [| st steps IH]; intros s H; simpl; [exact H |].
  by apply IH, Inv_do_step.
Qed.

Lemma Inv_reachable (s : loop) :
  (forall id glib_context fresh sigint s0,
     init id glib_context fresh sigint = Ok s0 -> Inv s0) ->
  reachable s -> Inv s.
Proof.
  intros Hinit (id & ctx & fresh & sigint & s0 & steps & Hi & ->).
  apply Inv_do_steps. eauto.
Qed.

End Invariant.

Lemma wf_grow (s s' : loop) (newh : list handle) (news : list source)
    (newr : list nat) :
  wf s ->
  handles s' = handles s ++ newh ->
  sources s' = sources s ++ news ->
  _readers s' = _readers s ->
  _ready s' = _ready s ++ newr ->
  Forall (fun h => (h < length (handles s'))%nat) newr ->
  Forall (fresh_handle s news) newh ->
  wf s'.
Proof.
  intros [[Hex Htab Hinv] Hv] Hh Hs Hr Hq Hnew Hfresh.
  rewrite Forall_forall in Hfresh.
  split; [constructor |].
  - intros h hd src r Hl Hc. rewrite Hs, length_app. rewrite Hh in Hl.
    apply lookup_app_Some in Hl as [Hl | [_ Hl]].
    + specialize (Hex h hd src r Hl Hc). lia.
    + apply list_elem_of_lookup_2 in Hl. specialize (Hfresh hd Hl).
      unfold fresh_handle in Hfresh. rewrite Hc in Hfresh.
      destruct Hfresh as (x & Hx & Hge & _).
      apply lookup_lt_Some in Hx. lia.
  - intros fd h. rewrite Hr, Hh, length_app. intros Hl.
    specialize (Htab fd h Hl). lia.
  - intros fd h Ha. rewrite Hr. apply Hinv.
    unfold active_reader in *. rewrite Hh, Hs in Ha.
    destruct (handles s !! h) as [hd |] eqn:Hl.
    + rewrite (lookup_app_l_Some _ _ _ _ Hl) in Ha.
      destruct (h_class hd) as [| src r | src] eqn:Hc; try done.
      rewrite lookup_app_l in Ha by (eapply Hex; eauto). exact Ha.
    + exfalso. apply lookup_ge_None in Hl.
      rewrite lookup_app_r in Ha by done.
      destruct (newh !! (h - length (handles s))%nat) as [hd |] eqn:Hn;
        [| done].
      apply list_elem_of_lookup_2 in Hn. specialize (Hfresh hd Hn).
      unfold fresh_handle in Hfresh.
      destruct (h_class hd) as [| src r | src]; try done.
      destruct Hfresh as (x & Hx & Hge & Hk).
      rewrite lookup_app_r, Hx in Ha by done.
      destruct (h_cancelled hd), (src_destroyed x); simpl in Ha; try done.
      destruct (src_kind x) as [| fd' [|] | |] eqn:Hkind; try done.
      by destruct (Hk fd').
  - unfold ready_valid. rewrite Hq, Hh, length_app. apply Forall_app. split.
    + eapply Forall_impl; [exact Hv |]. simpl. intros h Hlt. lia.
    + rewrite Hh, length_app in Hnew. exact Hnew.
Qed.

Lemma wf_shrink (s s' : loop) :
  wf s ->
  _readers s' = _readers s -> _ready s' = _ready s ->
  length (handles s') = length (handles s) ->
  length (sources s') = length (sources s) ->
  (forall h hd', handles s' !! h = Some hd' ->
     exists hd, handles s !! h = Some hd /\ h_class hd' = h_class hd) ->
  (forall fd h, active_reader s' fd h = true -> active_reader s fd h = true) ->
  wf s'.
Proof.
  intros [[Hex Htab Hinv] Hv] Hr Hq Hlh Hls Hcls Hact.
  split; [constructor |].
  - intros h hd' src r Hl Hc. rewrite Hls.
    destruct (Hcls h hd' Hl) as (hd & Hl0 & Hc0).
    eapply Hex; [exact Hl0 | rewrite <- Hc0; exact Hc].
  - intros fd h. rewrite Hr, Hlh. apply Htab.
  - intros fd h Ha. rewrite Hr. auto.
  - unfold ready_valid. rewrite Hq, Hlh. exact Hv.
Qed.

Lemma wf_core (s s' : loop) : wf s -> same_core s s' -> wf s'.
Proof.
  intros H (Hh & Hs & Hq & Hr).
  apply (wf_grow s s' [] [] []); rewrite ?app_nil_r; auto.
Qed.

Lemma wf_pop (s : loop) (h : nat) (rest : list nat) :
  wf s -> _ready s = h :: rest -> wf (set_ready rest s).
Proof.
  intros [Hreg Hv] Hq. split.
  - destruct Hreg as [Hex Htab Hinv]. constructor; auto.
  - unfold ready_valid in *. simpl. rewrite Hq in Hv.
    by apply Forall_cons in Hv as [_ Hv].
Qed.

Lemma wf_enqueue (s : loop) (h : nat) (hd : handle) :
  wf s -> handles s !! h = Some hd -> wf (set_ready (_ready s ++ [h]) s).
Proof.
  intros H Hl.
  apply (wf_grow s _ [] [] [h]); simpl; rewrite ?app_nil_r; auto.
  repeat constructor. by eapply lookup_lt_Some.
Qed.

Lemma wf_update (s : loop) (h : nat) (hd hd' : handle) :
  wf s -> handles s !! h = Some hd -> same_flags hd hd' ->
  wf (set_handles (<[h := hd']> (handles s)) s).
Proof.
  intros H Hl [Hc Hf].
  assert (Hlt : (h < length (handles s))%nat) by (by eapply lookup_lt_Some).
  apply (wf_shrink s); simpl; auto.
  - apply length_insert.
  - intros i x Hi. destruct (decide (i = h)) as [-> | Hne].
    + rewrite list_lookup_insert_eq in Hi by done. injection Hi as <-. eauto.
    + rewrite list_lookup_insert_ne in Hi by done. eauto.
  - intros fd i. unfold active_reader. simpl.
    destruct (decide (i = h)) as [-> | Hne].
    + rewrite list_lookup_insert_eq by done. rewrite Hl, Hc, Hf. done.
    + by rewrite list_lookup_insert_ne by done.
Qed.

Lemma active_reader_destroy (s : loop) (src : nat) (fd : Z) (h : nat) :
  active_reader (destroy src s) fd h = true -> active_reader s fd h = true.
Proof.
  unfold active_reader, destroy. simpl.
  destruct (handles s !! h) as [hd |]; [| done].
  destruct (h_class hd) as [| src' r | src']; try done.
  destruct (h_cancelled hd); simpl; [done |].
  destruct (decide (src' = src)) as [-> | Hne].
  - rewrite list_lookup_alter_eq. by destruct (sources s !! src).
  - by rewrite list_lookup_alter_ne.
Qed.

Lemma wf_destroy (s : loop) (src : nat) : wf s -> wf (destroy src s).
Proof.
  intros H. apply (wf_shrink s); auto.
  - unfold destroy. simpl. apply length_alter.
  - intros h hd'. unfold destroy. simpl. eauto.
  - intros fd h. apply active_reader_destroy.
Qed.

Lemma cancel_lookup (h1 : nat) (s : loop) (h : nat) (hd' : handle) :
  handles (cancel h1 s) !! h = Some hd' ->
  exists hd, handles s !! h = Some hd /\ h_class hd' = h_class hd.
Proof.
  unfold cancel. destruct (handles s !! h1) as [hd1 |] eqn:Hh1; [| eauto].
  intros Hl.
  assert (Hl' : <[h1 := mark_cancelled hd1]> (handles s) !! h = Some hd').
  { destruct (h_class hd1); exact Hl. }
  destruct (decide (h = h1)) as [-> | Hne].
  - rewrite list_lookup_insert_eq in Hl' by (by eapply lookup_lt_Some).
    injection Hl' as <-. eauto.
  - rewrite list_lookup_insert_ne in Hl' by done. eauto.
Qed.

Lemma cancel_ready (h : nat) (s : loop) : _ready (cancel h s) = _ready s.
Proof.
  unfold cancel. destruct (handles s !! h) as [hd |]; [| done].
  by destruct (h_class hd).
Qed.

Lemma wf_cancel (h : nat) (s : loop) : wf s -> wf (cancel h s).
Proof.
  intros H. destruct (cancel_lengths h s) as [Hlh Hls].
  apply (wf_shrink s); auto.
  - apply cancel_readers.
  - apply cancel_ready.
  - apply cancel_lookup.
  - intros fd i Ha. destruct (decide (i = h)) as [-> | Hne].
    + by rewrite active_reader_cancel_self in Ha.
    + by apply (active_reader_cancel_other s fd h i).
Qed.

Lemma wf_schedule_dispatch (s : loop) : wf s -> wf (_schedule_dispatch s).
Proof.
  intros H. unfold _schedule_dispatch.
  destruct (_ready s) eqn:Hq; [exact H |].
  destruct (_wakeup s); [exact H |].
  apply (wf_grow s _ [] [Source (Timeout 0) CbWakeup (_context s) false] []);
    simpl; rewrite ?app_nil_r; auto.
Qed.

Lemma wf_call_soon (cb : callback) (args : list pyval) (s : loop) :
  wf s -> wf (call_soon cb args s).2.
Proof.
  intros H. unfold call_soon. simpl.
  set (s2 := set_ready _ _).
  assert (H2 : wf s2).
  { apply (wf_grow s s2 [MkHandle Handle cb args false false] []
             [length (handles s)]); simpl; rewrite ?app_nil_r; auto.
    - repeat constructor. rewrite length_app. simpl. lia.
    - repeat constructor. }
  destruct (_will_dispatch s); [exact H2 |].
  by apply wf_schedule_dispatch.
Qed.

Lemma wf_GLibHandle_init (kind : source_kind) (repeat : bool)
    (cb : callback) (args : list pyval) (s : loop) :
  not_read_watch kind -> wf s -> wf (GLibHandle_init kind repeat cb args s).2.
Proof.
  intros Hk H. unfold GLibHandle_init. simpl.
  apply (wf_grow s _
           [MkHandle (GLibHandle (length (sources s)) repeat) cb args false false]
           [Source kind (CbHandle (length (handles s))) (_context s) false] []);
    simpl; rewrite ?app_nil_r; auto.
  repeat constructor. unfold fresh_handle. simpl.
  rewrite Nat.sub_diag. simpl. eauto.
Qed.

Lemma wf_GLibChildHandle_init (pid : Z) (cb : callback) (args : list pyval)
    (s : loop) :
  wf s -> wf (GLibChildHandle_init pid cb args s).2.
Proof.
  intros H. unfold GLibChildHandle_init.
  destruct (decide (_context s = DefaultContext)); [| exact H]. simpl.
  apply (wf_grow s _
           [MkHandle (GLibChildHandle (length (sources s))) cb args false false]
           [Source (ChildWatch pid) (CbChild (length (handles s)))
              DefaultContext false] []);
    simpl; rewrite ?app_nil_r; auto.
  repeat constructor.
Qed.

Lemma wf_remove_reader (fd : fd_like) (s : loop) :
  wf s -> wf (remove_reader fd s).2.
Proof.
  intros [Hreg Hv].
  destruct (remove_reader_spec fd s Hreg) as (Hreg1 & Hlen & _).
  split; [exact Hreg1 |].
  unfold ready_valid in *. rewrite Hlen.
  unfold remove_reader. destruct (_readers s !! resolve_fd fd); simpl;
    [| exact Hv].
  rewrite cancel_ready. exact Hv.
Qed.

Lemma wf_add_reader (fd : fd_like) (cb : callback) (args : list pyval)
    (s : loop) :
  wf s -> wf (add_reader fd cb args s).
Proof.
  intros H. pose proof (wf_remove_reader (FdInt (resolve_fd fd)) s H) as [_ Hv1].
  destruct H as [Hreg Hv].
  split; [by apply add_reader_registry_ok |].
  destruct (add_reader_unfold fd cb args s) as (Hh & _ & _).
  unfold ready_valid in *. rewrite Hh, length_app.
  assert (Hq : _ready (add_reader fd cb args s) =
               _ready (remove_reader (FdInt (resolve_fd fd)) s).2)
    by (unfold add_reader, GLibHandle_init; reflexivity).
  rewrite Hq. eapply Forall_impl; [exact Hv1 |]. simpl. intros h Hlt. lia.
Qed.

Lemma wf_remove_writer (fd : fd_like) (s : loop) :
  wf s -> wf (remove_writer fd s).2.
Proof.
  intros H. unfold remove_writer.
  destruct (_writers s !! resolve_fd fd); simpl; [| exact H].
  apply wf_cancel. eapply wf_core; [exact H | by repeat split].
Qed.

Lemma wf_add_writer (fd : fd_like) (cb : callback) (args : list pyval)
    (s : loop) :
  wf s -> wf (add_writer fd cb args s).
Proof.
  intros H. unfold add_writer.
  pose proof (wf_remove_writer (FdInt (resolve_fd fd)) s H) as H1.
  set (s1 := (remove_writer _ s).2) in *.
  pose proof (wf_GLibHandle_init (UnixFd (resolve_fd fd) IO_OUT) true cb args s1)
    as H2.
  destruct (GLibHandle_init _ _ _ _ s1) as [h s2].
  eapply wf_core; [apply H2; [intros fd'; discriminate | exact H1] |].
  by repeat split.
Qed.

Lemma wf_remove_signal_handler (sig : Z) (s : loop) :
  wf s -> wf (remove_signal_handler sig s).2.
Proof.
  intros H. unfold remove_signal_handler.
  destruct (_check_signal sig); [exact H |].
  destruct (_sighandlers s !! sig); simpl; [| exact H].
  apply wf_cancel. eapply wf_core; [exact H | by repeat split].
Qed.

Lemma wf_add_signal_handler (sig : Z) (cb : callback) (args : list pyval)
    (s : loop) :
  wf s -> wf (add_signal_handler sig cb args s).2.
Proof.
  intros H. unfold add_signal_handler.
  destruct (_check_signal sig); [exact H |].
  pose proof (wf_remove_signal_handler sig s H) as H1.
  destruct (remove_signal_handler sig s) as [[b | e] s1]; [| exact H1].
  destruct (unix_signal_source_new sig).
  - pose proof (wf_GLibHandle_init (UnixSignal sig) true cb args s1) as H2.
    destruct (GLibHandle_init _ _ _ _ s1) as [h s2].
    eapply wf_core; [apply H2; [intros fd'; discriminate | exact H1] |].
    by repeat split.
  - destruct (decide (sig = SIGKILL)); exact H1.
Qed.

Lemma wf_remove_child_handler (pid : Z) (s : loop) :
  wf s -> wf (_remove_child_handler pid s).2.
Proof.
  intros H. unfold _remove_child_handler.
  destruct (_chldhandlers s !! pid); simpl; [| exact H].
  apply wf_cancel. eapply wf_core; [exact H | by repeat split].
Qed.

Lemma wf_add_child_handler (pid : Z) (cb : callback) (args : list pyval)
    (s : loop) :
  wf s -> wf (_add_child_handler pid cb args s).2.
Proof.
  intros H. unfold _add_child_handler.
  pose proof (wf_remove_child_handler pid s H) as H1.
  set (s1 := (_remove_child_handler pid s).2) in *.
  pose proof (wf_GLibChildHandle_init pid cb args s1 H1) as H2.
  destruct (GLibChildHandle_init pid cb args s1) as [[h | e] s2]; [| exact H2].
  eapply wf_core; [exact H2 | by repeat split].
Qed.

Lemma wf_call_later (delay : Q) (cb : callback) (args : list pyval)
    (s : loop) :
  wf s -> wf (call_later delay cb args s).2.
Proof.
  intros H. unfold call_later. destruct (Qle_bool delay 0).
  - by apply wf_call_soon.
  - apply wf_GLibHandle_init; [intros fd'; discriminate | exact H].
Qed.

Lemma wf_stop (s : loop) : wf s -> wf (stop s).
Proof.
  intros H. unfold stop, emit. cbn.
  destruct (_mainloop s); (eapply wf_core; [exact H | by repeat split]).
Qed.

Lemma wf_fold_call_soon (f : nat) (cbs : list callback) :
  forall s, wf s ->
  wf (fold_left (fun acc cb => (call_soon cb [VFuture f] acc).2) cbs s).
Proof.
  induction cbs as [| cb cbs IH]; intros s H; simpl; [exact H |].
  by apply IH, wf_call_soon.
Qed.

Lemma wf_set_outcome (f : nat) (r : result pyval) (s : loop) :
  wf s -> wf (set_outcome f r s).2.
Proof.
  intros H. unfold set_outcome.
  destruct (futures s !! f) as [[[st |] cbs] |]; simpl; try exact H.
  unfold _schedule_callbacks. apply wf_fold_call_soon.
  eapply wf_core; [exact H | by repeat split].
Qed.

Lemma wf_run_action (a : action) (s : loop) : wf s -> wf (run_action a s).2.
Proof.
  intros H. destruct a; simpl.
  - by apply wf_call_soon.
  - by apply wf_call_later.
  - by apply wf_add_reader.
  - by apply wf_remove_reader.
  - by apply wf_add_writer.
  - by apply wf_remove_writer.
  - by apply wf_add_signal_handler.
  - pose proof (wf_remove_signal_handler sig s H) as H1.
    destruct (remove_signal_handler sig s) as [[b | e] s1]; exact H1.
  - by apply wf_add_child_handler.
  - by apply wf_remove_child_handler.
  - by apply wf_cancel.
  - by apply wf_stop.
  - unfold interrupt. apply wf_stop.
    eapply wf_core; [exact H | by repeat split].
  - by apply wf_set_outcome.
  - by apply wf_set_outcome.
Qed.

Lemma wf_init (id : nat) (glib_context : option context) (fresh : nat)
    (sigint : option DefaultSigINTHandler) (s0 : loop) :
  init id glib_context fresh sigint = Ok s0 -> wf s0.
Proof.
  unfold init. intros Hi.
  assert (Hempty : handles s0 = [] /\ _ready s0 = [] /\ _readers s0 = ∅).
  { destruct (decide (_ = DefaultContext)); [destruct sigint |];
      try discriminate; injection Hi as <-; done. }
  destruct Hempty as (Hh & Hq & Hr).
  split; [constructor |].
  - intros h hd src r Hl. by rewrite Hh in Hl.
  - intros fd h Hl. by rewrite Hr, lookup_empty in Hl.
  - intros fd h. unfold active_reader. by rewrite Hh.
  - unfold ready_valid. rewrite Hq. constructor.
Qed.

Lemma reachable_wf (s : loop) : reachable s -> wf s.
Proof.
  apply (Inv_reachable wf).
  - apply wf_run_action.
  - apply wf_core.
  - apply wf_pop.
  - apply wf_enqueue.
  - apply wf_update.
  - apply wf_schedule_dispatch.
  - intros s0 src. apply wf_destroy.
  - apply wf_init.
Qed.

(** ** The pass and the snapshot of the queue

    While a pass is in progress the operations a callback can call never
    read the ready queue, they only append to it.  Popping [ntodo] handles
    off the live queue is therefore the same as going through the handles
    that were queued at entry. *)

Lemma during_pass_cancel {A : Type} (a : A) (h : nat) : during_pass (fun s => (a, cancel h s)).
Proof.
  intros pre s Hw. cbn. unfold cancel, requeue.
  change (handles (set_ready (pre ++ _ready s) s)) with (handles s).
  destruct (handles s !! h) as [hd |]; [| done].
  destruct (h_class hd); split; try reflexivity; exact Hw.
Qed.

Lemma during_pass_call_soon cb args : during_pass (call_soon cb args).
Proof.
  intros pre s Hw. unfold call_soon, requeue. cbv zeta.
  change (_will_dispatch (set_ready _ (set_handles _ (set_ready _ s)))) with (_will_dispatch s).
  change (_will_dispatch (set_ready _ (set_handles _ s))) with (_will_dispatch s).
  rewrite Hw. cbn. rewrite app_assoc. done.
Qed.

Lemma during_pass_GLibHandle_init kind r cb args :
  during_pass (GLibHandle_init kind r cb args).
Proof. intros pre s Hw. unfold GLibHandle_init, requeue. cbn. done. Qed.

Lemma during_pass_call_later delay cb args : during_pass (call_later delay cb args).
Proof.
  unfold call_later. destruct (Qle_bool delay 0).
  - apply during_pass_call_soon.
  - apply during_pass_GLibHandle_init.
Qed.

Lemma during_pass_remove_reader fd : during_pass (remove_reader fd).
Proof.
  intros pre s Hw. unfold remove_reader. cbv zeta.
  change (_readers (requeue pre s)) with (_readers s).
  destruct (_readers s !! resolve_fd fd) as [h |]; [| done].
  cbn [fst snd].
  destruct (during_pass_cancel tt h pre (set_readers (delete (resolve_fd fd) (_readers s)) s) Hw)
    as [E W]. cbn in E, W. split; [| exact W].
  f_equal. injection E as <-. reflexivity.
Qed.

Lemma cancel_requeue h pre s :
  cancel h (requeue pre s) = requeue pre (cancel h s) /\
  _will_dispatch (cancel h s) = _will_dispatch s.
Proof.
  unfold cancel, requeue.
  change (handles (set_ready (pre ++ _ready s) s)) with (handles s).
  destruct (handles s !! h) as [hd |]; [| done].
  by destruct (h_class hd).
Qed.

Lemma during_pass_add_reader {A : Type} (a : A) fd cb args :
  during_pass (fun s => (a, add_reader fd cb args s)).
Proof.
  intros pre s Hw. unfold add_reader. cbv zeta.
  destruct (during_pass_remove_reader (FdInt (resolve_fd fd)) pre s Hw) as [E W].
  rewrite E. cbn [fst snd]. unfold GLibHandle_init. cbn. by rewrite W.
Qed.

Lemma during_pass_remove_writer fd : during_pass (remove_writer fd).
Proof.
  intros pre s Hw. unfold remove_writer. cbv zeta.
  change (_writers (requeue pre s)) with (_writers s).
  destruct (_writers s !! resolve_fd fd) as [h |]; [| done].
  cbn [fst snd].
  destruct (cancel_requeue h pre
              (set_writers (delete (resolve_fd fd) (_writers s)) s)) as [E W].
  split; [by rewrite <- E | by rewrite W].
Qed.

Lemma during_pass_add_writer {A : Type} (a : A) fd cb args :
  during_pass (fun s => (a, add_writer fd cb args s)).
Proof.
  intros pre s Hw. unfold add_writer. cbv zeta.
  destruct (during_pass_remove_writer (FdInt (resolve_fd fd)) pre s Hw) as [E W].
  rewrite E. cbn [fst snd]. unfold GLibHandle_init. cbn. by rewrite W.
Qed.

Lemma during_pass_remove_signal_handler sig : during_pass (remove_signal_handler sig).
Proof.
  intros pre s Hw. unfold remove_signal_handler.
  destruct (_check_signal sig); [done |].
  change (_sighandlers (requeue pre s)) with (_sighandlers s).
  destruct (_sighandlers s !! sig) as [h |]; [| done].
  cbn [fst snd].
  destruct (cancel_requeue h pre
              (set_sighandlers (delete sig (_sighandlers s)) s)) as [E W].
  split; [by rewrite <- E | by rewrite W].
Qed.

Lemma during_pass_add_signal_handler sig cb args :
  during_pass (add_signal_handler sig cb args).
Proof.
  intros pre s Hw. unfold add_signal_handler.
  destruct (_check_signal sig) eqn:Hc; [done |].
  destruct (during_pass_remove_signal_handler sig pre s Hw) as [E W].
  rewrite E.
  destruct (remove_signal_handler sig s) as [[b | e] s1]; cbn [fst snd] in *;
    [| done].
  destruct (unix_signal_source_new sig).
  - unfold GLibHandle_init. cbn. by rewrite W.
  - by destruct (decide (sig = SIGKILL)).
Qed.

Lemma during_pass_remove_child_handler pid : during_pass (_remove_child_handler pid).
Proof.
  intros pre s Hw. unfold _remove_child_handler.
  change (_chldhandlers (requeue pre s)) with (_chldhandlers s).
  destruct (_chldhandlers s !! pid) as [h |]; [| done].
  cbn [fst snd].
  destruct (cancel_requeue h pre
              (set_chldhandlers (delete pid (_chldhandlers s)) s)) as [E W].
  split; [by rewrite <- E | by rewrite W].
Qed.

Lemma during_pass_add_child_handler pid cb args :
  during_pass (_add_child_handler pid cb args).
Proof.
  intros pre s Hw. unfold _add_child_handler. cbv zeta.
  destruct (during_pass_remove_child_handler pid pre s Hw) as [E W].
  rewrite E. cbn [fst snd].
  set (s1 := (_remove_child_handler pid s).2) in *.
  unfold GLibChildHandle_init.
  change (_context (requeue pre s1)) with (_context s1).
  destruct (decide (_context s1 = DefaultContext)); [| done].
  cbn. by rewrite W.
Qed.

Lemma during_pass_stop {A : Type} (a : A) : during_pass (fun s => (a, stop s)).
Proof.
  intros pre s Hw. cbn. unfold stop, requeue. cbv zeta.
  change (_mainloop (emit EvStop (set_ready (pre ++ _ready s) s)))
    with (_mainloop s).
  change (_mainloop (emit EvStop s)) with (_mainloop s).
  by destruct (_mainloop s).
Qed.

Lemma during_pass_interrupt {A : Type} (a : A) : during_pass (fun s => (a, interrupt s)).
Proof.
  intros pre s Hw. unfold interrupt.
  exact (during_pass_stop a pre (set_interrupted true s) Hw).
Qed.

Lemma during_pass_fold_call_soon (f : nat) (cbs : list callback) :
  forall pre s, _will_dispatch s = true ->
    fold_left (fun acc cb => (call_soon cb [VFuture f] acc).2) cbs (requeue pre s) =
      requeue pre (fold_left (fun acc cb => (call_soon cb [VFuture f] acc).2) cbs s) /\
    _will_dispatch (fold_left (fun acc cb => (call_soon cb [VFuture f] acc).2) cbs s) = true.
Proof.
  induction cbs as [| cb cbs IH]; intros pre s Hw; [done |].
  cbn [fold_left].
  destruct (during_pass_call_soon cb [VFuture f] pre s Hw) as [E W].
  rewrite E. cbn [snd]. by apply IH.
Qed.

Lemma during_pass_set_outcome f r : during_pass (set_outcome f r).
Proof.
  intros pre s Hw. unfold set_outcome.
  change (futures (requeue pre s)) with (futures s).
  destruct (futures s !! f) as [[[st |] cbs] |]; try done.
  cbn [fst snd]. unfold _schedule_callbacks. cbv zeta.
  set (s1 := set_futures _ s).
  set (s2 := set_futures _ s1).
  destruct (during_pass_fold_call_soon f (f_callbacks (get_future s1 f)) pre s2 Hw)
    as [E W].
  split; [| exact W]. f_equal. exact E.
Qed.

Lemma during_pass_run_action a : during_pass (run_action a).
Proof.
  destruct a; unfold run_action.
  - intros pre s Hw. destruct (during_pass_call_soon cb args pre s Hw) as [E W].
    by rewrite E.
  - intros pre s Hw. destruct (during_pass_call_later delay cb args pre s Hw) as [E W].
    by rewrite E.
  - apply during_pass_add_reader.
  - intros pre s Hw. destruct (during_pass_remove_reader (FdInt fd) pre s Hw) as [E W].
    by rewrite E.
  - apply during_pass_add_writer.
  - intros pre s Hw. destruct (during_pass_remove_writer (FdInt fd) pre s Hw) as [E W].
    by rewrite E.
  - apply during_pass_add_signal_handler.
  - intros pre s Hw. destruct (during_pass_remove_signal_handler sig pre s Hw) as [E W].
    rewrite E. by destruct (remove_signal_handler sig s) as [[b | e] s1].
  - apply during_pass_add_child_handler.
  - intros pre s Hw. destruct (during_pass_remove_child_handler pid pre s Hw) as [E W].
    by rewrite E.
  - apply during_pass_cancel.
  - apply during_pass_stop.
  - apply during_pass_interrupt.
  - apply during_pass_set_outcome.
  - apply during_pass_set_outcome.
Qed.

Lemma during_pass_run_actions (body : list action) :
  forall pre s, _will_dispatch s = true ->
    run_actions body (requeue pre s) = requeue pre (run_actions body s) /\
    _will_dispatch (run_actions body s) = true.
Proof.
  induction body as [| a body IH]; intros pre s Hw; [done |].
  cbn [run_actions].
  destruct (during_pass_run_action a pre s Hw) as [E W]. rewrite E.
  destruct (run_action a s) as [[u | e] s1]; cbn [fst snd] in *; [| done].
  by apply IH.
Qed.

Lemma during_pass_run (h : nat) (pre : list nat) (s : loop) :
  _will_dispatch s = true ->
  _run h (requeue pre s) = requeue pre (_run h s) /\
  _will_dispatch (_run h s) = true.
Proof.
  intros Hw. unfold _run.
  change (handles (requeue pre s)) with (handles s).
  destruct (handles s !! h) as [hd |]; [| done].
  destruct (h_class hd); try (by apply during_pass_run_actions).
  exact (during_pass_run_actions _ pre
           (set_handles (<[h := mark_ready false hd]> (handles s)) s) Hw).
Qed.

Lemma requeue_nil (s : loop) : requeue [] s = s.
Proof. by destruct s. Qed.

Lemma dispatch_loop_snapshot (todo : list nat) :
  forall s, _will_dispatch s = true ->
    _dispatch_loop (length todo) (requeue todo s) = snapshot_pass todo s.
Proof.
  induction todo as [| h todo IH]; intros s Hw.
  - cbn. apply requeue_nil.
  - cbn [length _dispatch_loop snapshot_pass].
    change (_ready (requeue (h :: todo) s)) with (h :: (todo ++ _ready s)).
    cbv beta iota.
    change (set_ready (todo ++ _ready s) (requeue (h :: todo) s))
      with (requeue todo s).
    change (is_cancelled (requeue todo s) h) with (is_cancelled s h).
    destruct (is_cancelled s h); [by apply IH |].
    destruct (during_pass_run h todo (emit (EvDispatch h) s) Hw) as [E W].
    change (emit (EvDispatch h) (requeue todo s))
      with (requeue todo (emit (EvDispatch h) s)).
    rewrite E. by apply IH.
Qed.

Lemma dispatch_is_snapshot_pass (s : loop) :
  _dispatch s =
    set_will_dispatch false
      (_schedule_dispatch
         (snapshot_pass (_ready s) (set_ready [] (set_will_dispatch true s)))).
Proof.
  unfold _dispatch. cbv zeta.
  rewrite <- (dispatch_loop_snapshot (_ready s)) by reflexivity.
  change (_ready (set_will_dispatch true s)) with (_ready s).
  do 2 f_equal. f_equal. unfold requeue. cbn. by rewrite app_nil_r.
Qed.

Lemma snapshot_pass_app (l1 l2 : list nat) :
  forall s, snapshot_pass (l1 ++ l2) s = snapshot_pass l2 (snapshot_pass l1 s).
Proof. induction l1 as [| h l1 IH]; intros s; [done |]. cbn. apply IH. Qed.

Lemma snapshot_turn_trace (h : nat) (s : loop) :
  exists evs,
    trace (snapshot_pass [h] s) = trace s ++ evs /\
    dispatched evs = if is_cancelled s h then [] else [h].
Proof.
  cbn [snapshot_pass]. destruct (is_cancelled s h).
  - exists []. by rewrite app_nil_r.
  - pose proof (schedules_run h (emit (EvDispatch h) s)) as S.
    destruct (adv_trace _ _ (sch_adv _ _ S)) as (e1 & T1 & _).
    pose proof (sch_events _ _ S e1 T1) as Hstops.
    exists (EvDispatch h :: e1). split.
    + rewrite T1. cbn. by rewrite <- app_assoc.
    + change (EvDispatch h :: e1) with ([EvDispatch h] ++ e1).
      by rewrite dispatched_app, (dispatched_stops e1 Hstops).
Qed.

Lemma snapshot_pass_trace (l : list nat) :
  forall s, exists evs,
    trace (snapshot_pass l s) = trace s ++ evs /\ sublist (dispatched evs) l.
Proof.
  induction l as [| h l IH]; intros s.
  - exists []. by rewrite app_nil_r.
  - change (h :: l) with ([h] ++ l). rewrite snapshot_pass_app.
    destruct (snapshot_turn_trace h s) as (e1 & T1 & D1).
    destruct (IH (snapshot_pass [h] s)) as (e2 & T2 & D2).
    exists (e1 ++ e2). split.
    + by rewrite T2, T1, app_assoc.
    + rewrite dispatched_app, D1. destruct (is_cancelled s h); cbn.
      * by apply sublist_cons.
      * by apply sublist_skip.
Qed.

Lemma schedule_dispatch_trace (s : loop) :
  trace (_schedule_dispatch s) = trace s.
Proof.
  unfold _schedule_dispatch. destruct (_ready s); [done |].
  by destruct (_wakeup s).
Qed.

Lemma dispatch_pass_exact (s : loop) (evs : list event) :
  trace (_dispatch s) = trace s ++ evs ->
  forall before h after, _ready s = before ++ h :: after ->
    let at_turn :=
      snapshot_pass before (set_ready [] (set_will_dispatch true s)) in
    exists ran_before ran_after,
      dispatched evs =
        ran_before ++ (if is_cancelled at_turn h then [] else [h]) ++ ran_after /\
      sublist ran_before before /\ sublist ran_after after.
Proof.
  intros T before h after Hq. cbv zeta.
  set (s0 := set_ready [] (set_will_dispatch true s)).
  rewrite dispatch_is_snapshot_pass in T. fold s0 in T.
  change (trace (set_will_dispatch false ?x)) with (trace x) in T.
  rewrite schedule_dispatch_trace, Hq in T.
  change (h :: after) with ([h] ++ after) in T.
  rewrite !snapshot_pass_app in T.
  set (t := snapshot_pass before s0) in *.
  destruct (snapshot_pass_trace before s0) as (eb & Tb & Db). fold t in Tb.
  destruct (snapshot_turn_trace h t) as (eh & Th & Dh).
  destruct (snapshot_pass_trace after (snapshot_pass [h] t)) as (ea & Ta & Da).
  rewrite Ta, Th, Tb in T. change (trace s0) with (trace s) in T.
  rewrite <- !app_assoc in T. apply app_inv_head in T. subst evs.
  exists (dispatched eb), (dispatched ea).
  rewrite !dispatched_app, Dh. done.
Qed.

(** ** The claims on reachable loops *)

(** C1: a dispatch pass is the pass over the snapshot of the ready queue
    taken at entry: it goes through the handles queued at entry, in queue
    order, and runs each one exactly when it is not cancelled at the time
    its turn comes, so that a handle cancelled before the pass or by a
    callback run earlier in the pass is skipped.  It runs no other handle.
    What callbacks append during the pass is all that is left in the queue
    afterwards: new handles, none of them run in this pass, and the next
    pass treats them the same way. *)
Theorem dispatch_pass_snapshot (s : loop) :
  reachable s ->
  let entry := set_ready [] (set_will_dispatch true s) in
  _dispatch s =
    set_will_dispatch false
      (_schedule_dispatch (snapshot_pass (_ready s) entry)) /\
  exists evs evs',
    trace (_dispatch s) = trace s ++ evs /\
    trace (_dispatch (_dispatch s)) = trace (_dispatch s) ++ evs' /\
    let ran := dispatched evs in
    let added := _ready (_dispatch s) in
    sublist ran (_ready s) /\
    (forall h, h ∈ ran -> is_cancelled s h = false) /\
    (forall h, h ∈ _ready s -> is_cancelled (_dispatch s) h = false ->
               h ∈ ran) /\
    (forall before h after, _ready s = before ++ h :: after ->
       exists ran_before ran_after,
         ran = ran_before ++
               (if is_cancelled (snapshot_pass before entry) h then []
                else [h]) ++ ran_after /\
         sublist ran_before before /\ sublist ran_after after) /\
    Forall (fun h => (length (handles s) <= h)%nat) added /\
    (forall h, h ∈ added -> h ∉ ran) /\
    sublist (dispatched evs') added /\
    (forall h, h ∈ added ->
       is_cancelled (_dispatch (_dispatch s)) h = false ->
       h ∈ dispatched evs').
Proof.
  intros Hr. cbv zeta. split; [apply dispatch_is_snapshot_pass |].
  destruct (dispatch_pass_of_valid s) as
    (evs & evs' & T & T' & Hsub & Hran & Hall & Hnew & Hnot & Hsub' & Hall').
  { by apply reachable_wf. }
  exists evs, evs'. split_and!; try assumption.
  exact (dispatch_pass_exact s evs T).
Qed.


End Properties.

(** * Further properties of the adapter *)

Section Coverage.
Context {P : Platform}.

(** ** The wakeup watch *)

(** X1: [_schedule_dispatch] arms a zero-delay timer exactly when the ready
    queue has work and no wakeup is pending, attaches it to the loop's
    context, and does nothing in every other case; calling it twice is the
    same as calling it once. *)
Theorem schedule_dispatch_arms_once (s : loop) :
  _schedule_dispatch (_schedule_dispatch s) = _schedule_dispatch s /\
  ((_ready s = [] \/ is_Some (_wakeup s)) -> _schedule_dispatch s = s) /\
  (_ready s <> [] -> _wakeup s = None ->
     let s' := _schedule_dispatch s in
     _wakeup s' = Some (length (sources s)) /\
     sources s' =
       sources s ++ [Source (Timeout 0) CbWakeup (_context s) false] /\
     _ready s' = _ready s /\ handles s' = handles s).
Proof.
  unfold _schedule_dispatch. split_and!.
  - destruct (_ready s) as [| h q] eqn:Hq; [by rewrite Hq |].
    destruct (_wakeup s) eqn:Hw; [by rewrite Hq, Hw |].
    simpl. by rewrite Hq.
  - intros [-> | [w ->]]; [done |]. by destruct (_ready s).
  - intros Hne Hw. destruct (_ready s) as [| h q] eqn:Hq; [done |].
    rewrite Hw. cbn. split_and!; done.
Qed.

Lemma dispatch_leaves_wakeup_armed_aux (s : loop) :
  _ready (_dispatch s) <> [] -> is_Some (_wakeup (_dispatch s)).
Proof.
  unfold _dispatch. simpl.
  set (s2 := _dispatch_loop _ _).
  unfold _schedule_dispatch.
  destruct (_ready s2) as [| h q] eqn:Hq; [by rewrite Hq |].
  destruct (_wakeup s2) eqn:Hw; simpl; [by rewrite Hw | done].
Qed.

(** X2: when [_dispatch] returns, the in-progress flag is down, and if the
    ready queue still holds work a wakeup is pending, so that GLib will call
    back into the dispatcher. *)
Theorem dispatch_leaves_wakeup_armed (s : loop) :
  _will_dispatch (_dispatch s) = false /\
  (_ready (_dispatch s) <> [] -> is_Some (_wakeup (_dispatch s))).
Proof.
  split; [reflexivity | apply dispatch_leaves_wakeup_armed_aux].
Qed.

(** X3: [call_soon] called from a callback during a dispatch pass creates no
    watch at all; called outside a pass it leaves a wakeup pending. *)
Theorem call_soon_wakeup (cb : callback) (args : list pyval) (s : loop) :
  let s' := (call_soon cb args s).2 in
  (_will_dispatch s = true ->
     sources s' = sources s /\ _wakeup s' = _wakeup s) /\
  (_will_dispatch s = false -> is_Some (_wakeup s')).
Proof.
  unfold call_soon. simpl. split.
  - intros ->. done.
  - intros ->. unfold _schedule_dispatch. simpl.
    destruct (_ready s ++ [length (handles s)]) eqn:Hq;
      [destruct (_ready s); discriminate |].
    destruct (_wakeup s) eqn:Hw; simpl; [by rewrite Hw | done].
Qed.

(** ** call_at *)






(** ** Sources firing *)

Lemma destroy_frame (src : nat) (s : loop) :
  handles (destroy src s) = handles s /\ trace (destroy src s) = trace s /\
  _ready (destroy src s) = _ready s /\ _wakeup (destroy src s) = _wakeup s /\
  _handlers (destroy src s) = _handlers s.
Proof. done. Qed.

Lemma destroy_destroyed (src : nat) (s : loop) :
  (src < length (sources s))%nat ->
  exists x, sources (destroy src s) !! src = Some x /\ src_destroyed x = true.
Proof.
  intros Hlt. destruct (lookup_lt_is_Some_2 _ _ Hlt) as [y Hy].
  unfold destroy. simpl. rewrite list_lookup_alter_eq, Hy. simpl. eauto.
Qed.

Lemma advances_length_sources (s s' : loop) :
  advances s s' -> (length (sources s) <= length (sources s'))%nat.
Proof.
  intros A. destruct (sources s) as [| a l] eqn:E using rev_ind; [simpl; lia |].
  clear IHl. destruct (adv_sources _ _ A (length l) a) as (x' & H' & _).
  { rewrite E. apply lookup_snoc_new. }
  apply lookup_lt_Some in H'. rewrite length_app. simpl. lia.
Qed.




Lemma wakeup_fires_spec (w : nat) (kind : source_kind) (s : loop) :
  sources s !! w = Some (Source kind CbWakeup (_context s) false) ->
  let s' := glib_dispatch (Fires w) s in
  exists evs,
    trace s' = trace s ++ evs /\
    (ready_valid s ->
     forall h, h ∈ _ready s -> is_cancelled s' h = false ->
               h ∈ dispatched evs) /\
    (_ready s' <> [] -> s' = _dispatch s /\ is_Some (_wakeup s')) /\
    (_ready s' = [] ->
       _wakeup s' = None /\
       exists x, sources s' !! w = Some x /\ src_destroyed x = true).
Proof.
  intros Hw. cbv zeta. unfold glib_dispatch. rewrite Hw. cbv beta iota.
  destruct (decide (_context s = _context s)); [| done].
  unfold wakeup_cb.
  pose proof (advances_dispatch s) as A.
  pose proof (advances_length_sources _ _ A) as Hlen.
  assert (Hlt : (w < length (sources (_dispatch s)))%nat).
  { apply lookup_lt_Some in Hw. lia. }
  destruct (dispatch_kept s) as (evs & T & _).
  pose proof (dispatch_leaves_wakeup_armed_aux s) as Harm.
  exists evs.
  assert (Hall : ready_valid s ->
                 forall h, h ∈ _ready s -> is_cancelled (_dispatch s) h = false ->
                           h ∈ dispatched evs).
  { intros Hv. destruct (dispatch_spec s Hv)
      as (_ & evs' & T' & _ & _ & _ & Hall & _).
    rewrite T in T'. apply app_inv_head in T'. by subst evs'. }
  destruct (_ready (_dispatch s)) as [| h q] eqn:Hq.
  - destruct (_wakeup (_dispatch s)) as [w' |] eqn:Hw'.
    + set (s3 := set_wakeup None (destroy w' (_dispatch s))).
      assert (Hlt3 : (w < length (sources s3))%nat).
      { unfold s3, destroy. simpl. by rewrite length_alter. }
      destruct (destroy_destroyed w s3 Hlt3) as (x & Hx & Hd).
      split_and!; [exact T | exact Hall | | ].
      * intros Hne. by destruct Hne.
      * intros _. split; [reflexivity | eauto].
    + destruct (destroy_destroyed w (_dispatch s) Hlt) as (x & Hx & Hd).
      split_and!; [exact T | exact Hall | | ].
      * intros Hne. change (_ready (_dispatch s) <> []) in Hne.
        rewrite Hq in Hne. by destruct Hne.
      * intros _. split; [exact Hw' | eauto].
  - split_and!; [exact T | exact Hall | | ].
    + intros _. split; [reflexivity |]. by apply Harm.
    + intros Hnil. change (_ready (_dispatch s) = []) in Hnil.
      rewrite Hq in Hnil. discriminate.
Qed.

(** X6: when GLib fires the wakeup timer, one dispatch pass runs (on a
    loop whose queue refers to existing handles it runs every queued handle
    that is not cancelled); if work is left the timer stays pending, and if
    the queue has drained the loop forgets the timer and the timer is
    destroyed. *)
Theorem wakeup_fires (w : nat) (kind : source_kind) (s : loop) :
  sources s !! w = Some (Source kind CbWakeup (_context s) false) ->
  let s' := glib_dispatch (Fires w) s in
  exists evs,
    trace s' = trace s ++ evs /\
    (ready_valid s ->
     forall h, h ∈ _ready s -> is_cancelled s' h = false ->
               h ∈ dispatched evs) /\
    (_ready s' <> [] -> s' = _dispatch s /\ is_Some (_wakeup s')) /\
    (_ready s' = [] ->
       _wakeup s' = None /\
       exists x, sources s' !! w = Some x /\ src_destroyed x = true).
Proof. apply wakeup_fires_spec. Qed.

(** X7: [call_soon] on a loop that is not dispatching and has no wakeup
    pending arms the wakeup timer, and when GLib fires that timer the new
    handle's callback is run, unless a callback run before it in the pass
    cancelled it. *)
Theorem call_soon_runs_on_wakeup (cb : callback) (args : list pyval)
    (s : loop) :
  ready_valid s -> _wakeup s = None -> _will_dispatch s = false ->
  let h := length (handles s) in
  let w := length (sources s) in
  let s1 := (call_soon cb args s).2 in
  let s2 := glib_dispatch (Fires w) s1 in
  (call_soon cb args s).1 = h /\
  _wakeup s1 = Some w /\
  exists evs,
    trace s2 = trace s1 ++ evs /\
    (is_cancelled s2 h = false -> h ∈ dispatched evs).
Proof.
  intros Hv Hw Hd. cbv zeta.
  assert (Hs1 : (call_soon cb args s).2 =
                _schedule_dispatch
                  (set_ready (_ready s ++ [length (handles s)])
                     (set_handles
                        (handles s ++ [MkHandle Handle cb args false false]) s))).
  { unfold call_soon. simpl. by rewrite Hd. }
  set (s0 := set_ready _ _) in Hs1.
  destruct (schedule_dispatch_frame s0) as (Ht & _).
  assert (Hne : _ready s0 <> []).
  { unfold s0. simpl. by destruct (_ready s). }
  assert (Hw0 : _wakeup s0 = None) by exact Hw.
  assert (Hsd : _wakeup (_schedule_dispatch s0) = Some (length (sources s)) /\
                sources (_schedule_dispatch s0) =
                  sources s ++ [Source (Timeout 0) CbWakeup (_context s) false] /\
                _ready (_schedule_dispatch s0) = _ready s0 /\
                handles (_schedule_dispatch s0) = handles s0 /\
                _context (_schedule_dispatch s0) = _context s).
  { unfold _schedule_dispatch. destruct (_ready s0) as [| x q] eqn:Hq; [done |].
    rewrite Hw0. cbn. split_and!; done. }
  destruct Hsd as (Hw1 & Hsrc & Hq1 & Hh1 & Hc1).
  rewrite Hs1. clear Hs1.
  remember (_schedule_dispatch s0) as s1 eqn:Es1. clear Es1.
  split; [reflexivity |]. split; [exact Hw1 |].
  assert (Hlive : sources s1 !! length (sources s) =
                  Some (Source (Timeout 0) CbWakeup (_context s1) false)).
  { rewrite Hsrc, Hc1. apply lookup_snoc_new. }
  destruct (wakeup_fires_spec _ _ s1 Hlive) as (evs & T & Hall & _).
  exists evs. split; [exact T |].
  apply Hall.
  - unfold ready_valid. rewrite Hq1, Hh1. unfold s0. simpl.
    rewrite length_app. apply Forall_app. split.
    + eapply Forall_impl; [exact Hv |]. simpl. lia.
    + repeat constructor. simpl. lia.
  - rewrite Hq1. unfold s0. simpl. apply elem_of_app. right. by left.
Qed.

(** ** Registration tables *)

Lemma cancel_tables (h : nat) (s : loop) :
  _writers (cancel h s) = _writers s /\
  _sighandlers (cancel h s) = _sighandlers s /\
  _chldhandlers (cancel h s) = _chldhandlers s /\
  _readers (cancel h s) = _readers s /\
  _context (cancel h s) = _context s.
Proof.
  unfold cancel. destruct (handles s !! h) as [hd |]; [| done].
  by destruct (h_class hd).
Qed.

Lemma cancel_destroys (h src : nat) (hd : handle) (s : loop) :
  handles s !! h = Some hd ->
  (exists r, h_class hd = GLibHandle src r) \/ h_class hd = GLibChildHandle src ->
  (src < length (sources s))%nat ->
  (exists x, sources (cancel h s) !! src = Some x /\ src_destroyed x = true) /\
  h ∉ _handlers (cancel h s).
Proof.
  intros Hh Hc Hlt. unfold cancel. rewrite Hh.
  destruct (lookup_lt_is_Some_2 _ _ Hlt) as [y Hy].
  assert (Hgoal : forall s1 : loop, sources s1 = sources s ->
            (exists x, sources (set_handlers (_handlers (destroy src s1) ∖ {[h]})
                                  (destroy src s1)) !! src = Some x /\
                       src_destroyed x = true) /\
            h ∉ _handlers (set_handlers (_handlers (destroy src s1) ∖ {[h]})
                             (destroy src s1))).
  { intros s1 Hs1. split.
    - unfold destroy. simpl. rewrite Hs1, list_lookup_alter_eq, Hy. simpl. eauto.
    - simpl. set_solver. }
  destruct Hc as [[r Hc] | Hc]; rewrite Hc; by apply Hgoal.
Qed.

(** X8: [add_writer] registers a repeating write watch on the descriptor
    under the new callback, leaving the reader table alone; [remove_writer]
    returns [True] and cancels the handle when the descriptor has an entry,
    returns [False] and changes nothing when it has none, and either way
    the descriptor has no entry afterwards; removing what was just added
    succeeds once and then reports [False]. *)
Theorem writer_registration (fd : fd_like) (cb : callback)
    (args : list pyval) (s : loop) :
  let fd' := resolve_fd fd in
  let s' := add_writer fd cb args s in
  (exists h src,
     _writers s' !! fd' = Some h /\
     handles s' !! h = Some (MkHandle (GLibHandle src true) cb args false false) /\
     sources s' !! src =
       Some (Source (UnixFd fd' IO_OUT) (CbHandle h) (_context s) false) /\
     h ∈ _handlers s' /\
     (remove_writer fd s').1 = true /\
     is_cancelled (remove_writer fd s').2 h = true /\
     (remove_writer fd (remove_writer fd s').2).1 = false) /\
  _readers s' = _readers s /\
  match _writers s !! fd' with
  | Some h1 =>
      (remove_writer fd s).1 = true /\
      is_cancelled (remove_writer fd s).2 h1 = true
  | None => remove_writer fd s = (false, s)
  end /\
  _writers (remove_writer fd s).2 !! fd' = None.
Proof.
  cbv zeta.
  assert (Hrm : forall s0 : loop,
            _writers (remove_writer fd s0).2 !! resolve_fd fd = None /\
            _readers (remove_writer fd s0).2 = _readers s0 /\
            _context (remove_writer fd s0).2 = _context s0 /\
            match _writers s0 !! resolve_fd fd with
            | Some h1 =>
                (remove_writer fd s0).1 = true /\
                is_cancelled (remove_writer fd s0).2 h1 = true
            | None => remove_writer fd s0 = (false, s0)
            end).
  { intros s0. unfold remove_writer.
    destruct (_writers s0 !! resolve_fd fd) as [h1 |] eqn:Hfd; simpl.
    - destruct (cancel_tables h1
                  (set_writers (delete (resolve_fd fd) (_writers s0)) s0))
        as (Hw & _ & _ & Hr & Hc).
      rewrite Hw, Hr, Hc. simpl.
      split_and!;
        [apply lookup_delete_eq | done | done | done | apply is_cancelled_cancel].
    - by rewrite Hfd. }
  assert (Hsame : remove_writer (FdInt (resolve_fd fd)) s = remove_writer fd s)
    by reflexivity.
  destruct (Hrm s) as (Hnone & Hr & Hc & Hret).
  split_and!; [| | exact Hret | exact Hnone].
  - set (s1 := (remove_writer fd s).2) in *.
    assert (Hadd : handles (add_writer fd cb args s) =
                     handles s1 ++ [MkHandle (GLibHandle (length (sources s1)) true)
                                      cb args false false] /\
                   sources (add_writer fd cb args s) =
                     sources s1 ++ [Source (UnixFd (resolve_fd fd) IO_OUT)
                                      (CbHandle (length (handles s1)))
                                      (_context s1) false] /\
                   _writers (add_writer fd cb args s) =
                     <[resolve_fd fd := length (handles s1)]> (_writers s1) /\
                   _handlers (add_writer fd cb args s) =
                     _handlers s1 ∪ {[length (handles s1)]}).
    { unfold add_writer, GLibHandle_init. rewrite Hsame. done. }
    destruct Hadd as (Hh & Hs & Hw & Hhs).
    exists (length (handles s1)), (length (sources s1)).
    destruct (Hrm (add_writer fd cb args s)) as (_ & _ & _ & Hret').
    rewrite Hw, lookup_insert_eq in Hret'. destruct Hret' as [Ht Hcan].
    destruct (Hrm (remove_writer fd (add_writer fd cb args s)).2)
      as (Hnone2 & _ & _ & Hret2).
    destruct (Hrm (add_writer fd cb args s)) as (Hnone1 & _).
    rewrite Hnone1 in Hret2.
    split_and!.
    + rewrite Hw. apply lookup_insert_eq.
    + rewrite Hh. apply lookup_snoc_new.
    + rewrite Hs, <- Hc. apply lookup_snoc_new.
    + rewrite Hhs. set_solver.
    + exact Ht.
    + exact Hcan.
    + by rewrite Hret2.
  - unfold add_writer, GLibHandle_init. rewrite Hsame. simpl. exact Hr.
Qed.

(** X9: for a signal that passes the check and that GLib can watch,
    [add_signal_handler] succeeds and registers a repeating signal watch
    under the callback; [remove_signal_handler] then returns [True], cancels
    the handle, destroys the watch and empties the entry, and a second
    removal returns [False] and changes nothing.  For a signal that fails
    the check both calls raise the check's exception and change nothing. *)
Theorem signal_handler_round_trip (sig : Z) (cb : callback)
    (args : list pyval) (s : loop) :
  (watchable sig ->
   exists h src s1 s2,
     add_signal_handler sig cb args s = (Ok tt, s1) /\
     _sighandlers s1 !! sig = Some h /\
     handles s1 !! h = Some (MkHandle (GLibHandle src true) cb args false false) /\
     sources s1 !! src =
       Some (Source (UnixSignal sig) (CbHandle h) (_context s) false) /\
     remove_signal_handler sig s1 = (Ok true, s2) /\
     _sighandlers s2 !! sig = None /\
     is_cancelled s2 h = true /\
     (exists x, sources s2 !! src = Some x /\ src_destroyed x = true) /\
     h ∉ _handlers s2 /\
     remove_signal_handler sig s2 = (Ok false, s2)) /\
  (forall e, _check_signal sig = Some e ->
     add_signal_handler sig cb args s = (Raise e, s) /\
     remove_signal_handler sig s = (Raise e, s)).
Proof.
  split.
  - intros [Hsup Hchk].
    assert (Hrm : exists s0,
              remove_signal_handler sig s = (Ok (bool_decide
                (is_Some (_sighandlers s !! sig))), s0) /\
              _context s0 = _context s).
    { unfold remove_signal_handler. rewrite Hchk.
      destruct (_sighandlers s !! sig) as [h0 |] eqn:Hl.
      - eexists. split; [reflexivity |].
        by destruct (cancel_tables h0
                       (set_sighandlers (delete sig (_sighandlers s)) s))
          as (_ & _ & _ & _ & ->).
      - eexists. split; reflexivity. }
    destruct Hrm as (s0 & Hrm & Hc0).
    set (h := length (handles s0)). set (src := length (sources s0)).
    set (hd := MkHandle (GLibHandle src true) cb args false false).
    set (s1 := set_sighandlers (<[sig := h]> (_sighandlers s0))
                 (GLibHandle_init (UnixSignal sig) true cb args s0).2).
    assert (Hadd : add_signal_handler sig cb args s = (Ok tt, s1)).
    { unfold add_signal_handler. rewrite Hchk, Hrm, Hsup. reflexivity. }
    assert (Hl1 : handles s1 !! h = Some hd) by apply lookup_snoc_new.
    assert (Hs1 : sources s1 !! src =
                  Some (Source (UnixSignal sig) (CbHandle h) (_context s) false)).
    { rewrite <- Hc0. apply lookup_snoc_new. }
    assert (Ht1 : _sighandlers s1 !! sig = Some h) by apply lookup_insert_eq.
    set (s1' := set_sighandlers (delete sig (_sighandlers s1)) s1).
    assert (Hrm1 : remove_signal_handler sig s1 = (Ok true, cancel h s1')).
    { unfold remove_signal_handler. by rewrite Hchk, Ht1. }
    destruct (cancel_tables h s1') as (_ & Hsg & _).
    assert (Hnone : _sighandlers (cancel h s1') !! sig = None).
    { rewrite Hsg. apply lookup_delete_eq. }
    destruct (cancel_destroys h src hd s1') as [Hdes Hnin].
    { exact Hl1. }
    { left. by exists true. }
    { apply lookup_lt_Some in Hs1. exact Hs1. }
    exists h, src, s1, (cancel h s1').
    split_and!; try done.
    + apply is_cancelled_cancel.
    + unfold remove_signal_handler. by rewrite Hchk, Hnone.
  - intros e He. unfold add_signal_handler, remove_signal_handler.
    by rewrite He.
Qed.

(** X10: on a loop of the default context [_add_child_handler] registers a
    child watch for the pid under the callback; [_remove_child_handler]
    then returns [True], cancels the handle, removes the watch and empties
    the entry, and a second removal returns [False] and changes nothing. *)
Theorem child_handler_round_trip (pid : Z) (cb : callback)
    (args : list pyval) (s : loop) :
  _context s = DefaultContext ->
  exists h src s1 s2,
    _add_child_handler pid cb args s = (Ok tt, s1) /\
    _chldhandlers s1 !! pid = Some h /\
    handles s1 !! h = Some (MkHandle (GLibChildHandle src) cb args false false) /\
    sources s1 !! src =
      Some (Source (ChildWatch pid) (CbChild h) DefaultContext false) /\
    h ∈ _handlers s1 /\
    _remove_child_handler pid s1 = (true, s2) /\
    _chldhandlers s2 !! pid = None /\
    is_cancelled s2 h = true /\
    (exists x, sources s2 !! src = Some x /\ src_destroyed x = true) /\
    h ∉ _handlers s2 /\
    _remove_child_handler pid s2 = (false, s2).
Proof.
  intros Hctx.
  set (s0 := (_remove_child_handler pid s).2).
  assert (Hc0 : _context s0 = DefaultContext).
  { unfold s0, _remove_child_handler.
    destruct (_chldhandlers s !! pid) as [h0 |]; [| exact Hctx].
    simpl.
    by destruct (cancel_tables h0
                   (set_chldhandlers (delete pid (_chldhandlers s)) s))
      as (_ & _ & _ & _ & ->). }
  set (h := length (handles s0)). set (src := length (sources s0)).
  set (hd := MkHandle (GLibChildHandle src) cb args false false).
  assert (Hinit : exists s1',
            GLibChildHandle_init pid cb args s0 = (Ok h, s1') /\
            handles s1' = handles s0 ++ [hd] /\
            sources s1' = sources s0 ++
              [Source (ChildWatch pid) (CbChild h) DefaultContext false] /\
            _handlers s1' = _handlers s0 ∪ {[h]} /\
            _chldhandlers s1' = _chldhandlers s0).
  { unfold GLibChildHandle_init.
    destruct (decide (_context s0 = DefaultContext)); [| done].
    eexists. split; [reflexivity |]. done. }
  destruct Hinit as (s1' & Hinit & Hh & Hs & Hhs & Hch).
  set (s1 := set_chldhandlers (<[pid := h]> (_chldhandlers s1')) s1').
  assert (Hadd : _add_child_handler pid cb args s = (Ok tt, s1)).
  { unfold _add_child_handler. fold s0. by rewrite Hinit. }
  assert (Hl1 : handles s1 !! h = Some hd).
  { unfold s1. simpl. rewrite Hh. apply lookup_snoc_new. }
  assert (Hs1 : sources s1 !! src =
                Some (Source (ChildWatch pid) (CbChild h) DefaultContext false)).
  { unfold s1. simpl. rewrite Hs. apply lookup_snoc_new. }
  assert (Ht1 : _chldhandlers s1 !! pid = Some h) by apply lookup_insert_eq.
  set (s1d := set_chldhandlers (delete pid (_chldhandlers s1)) s1).
  assert (Hrm1 : _remove_child_handler pid s1 = (true, cancel h s1d)).
  { unfold _remove_child_handler. by rewrite Ht1. }
  destruct (cancel_tables h s1d) as (_ & _ & Hcd & _).
  assert (Hnone : _chldhandlers (cancel h s1d) !! pid = None).
  { rewrite Hcd. apply lookup_delete_eq. }
  destruct (cancel_destroys h src hd s1d) as [Hdes Hnin].
  { exact Hl1. }
  { by right. }
  { apply lookup_lt_Some in Hs1. exact Hs1. }
  exists h, src, s1, (cancel h s1d).
  split_and!; try done.
  - unfold s1. simpl. rewrite Hhs. set_solver.
  - apply is_cancelled_cancel.
  - unfold _remove_child_handler. by rewrite Hnone.
Qed.

Lemma child_exit_destroyed_noop (src : nat) (status : Z) (s : loop) :
  (src < length (sources s))%nat ->
  glib_dispatch (ChildExits src status) (destroy src s) = destroy src s.
Proof.
  intros Hlt. destruct (destroy_destroyed src s Hlt) as (x & Hx & Hd).
  unfold glib_dispatch. rewrite Hx.
  destruct x as [k c ctx d]. cbn in Hd. subst d.
  by destruct k, c.
Qed.

(** X11: when the watched child exits while the ready queue is empty, the
    handle of its watch is queued and run within the same GLib callback,
    with the return code decoded from the wait status appended to its
    arguments; GLib then drops the watch, so that a second notification
    does nothing. *)
Theorem child_exit_runs_callback (pid status : Z) (h src : nat)
    (cb : callback) (args : list pyval) (s : loop) :
  handles s !! h = Some (MkHandle (GLibChildHandle src) cb args false false) ->
  sources s !! src = Some (Source (ChildWatch pid) (CbChild h) (_context s) false) ->
  _ready s = [] ->
  exists s_run s',
    glib_dispatch (ChildExits src status) s = s' /\
    handles s_run !! h =
      Some (MkHandle (GLibChildHandle src) cb
              (args ++ [returncode_val (child_returncode status)]) false false) /\
    trace s_run = trace s ++ [EvDispatch h] /\
    _ready s_run = [] /\
    s' = destroy src (set_will_dispatch false
           (_schedule_dispatch (run_actions (cb_body cb) s_run))) /\
    forall status', glib_dispatch (ChildExits src status') s' = s'.
Proof.
  intros Hh Hs Hq.
  set (hd' := append_arg (returncode_val (child_returncode status))
                (MkHandle (GLibChildHandle src) cb args false false)).
  set (s1 := set_handles (<[h := hd']> (handles s)) s).
  set (s_run := emit (EvDispatch h)
                  (set_ready [] (set_will_dispatch true
                     (set_ready (_ready s1 ++ [h]) s1)))).
  assert (Hl : handles s_run !! h = Some hd').
  { apply list_lookup_insert_eq. by eapply lookup_lt_Some. }
  assert (Hrun : _run h s_run = run_actions (cb_body cb) s_run).
  { unfold _run. rewrite Hl. reflexivity. }
  assert (Hd : _dispatch (set_ready (_ready s1 ++ [h]) s1) =
               set_will_dispatch false
                 (_schedule_dispatch (run_actions (cb_body cb) s_run))).
  { unfold _dispatch. cbv zeta.
    replace (length (_ready (set_will_dispatch true
               (set_ready (_ready s1 ++ [h]) s1)))) with 1%nat
      by (cbn; rewrite Hq; reflexivity).
    unfold _dispatch_loop.
    replace (_ready (set_will_dispatch true (set_ready (_ready s1 ++ [h]) s1)))
      with [h] by (cbn; rewrite Hq; reflexivity).
    replace (is_cancelled (set_ready [] (set_will_dispatch true
               (set_ready (_ready s1 ++ [h]) s1))) h) with false.
    - fold s_run. rewrite Hrun. reflexivity.
    - unfold is_cancelled.
      change (handles (set_ready [] (set_will_dispatch true
                (set_ready (_ready s1 ++ [h]) s1)))) with (handles s_run).
      rewrite Hl. reflexivity. }
  assert (Hgo : glib_dispatch (ChildExits src status) s =
                destroy src (set_will_dispatch false
                  (_schedule_dispatch (run_actions (cb_body cb) s_run)))).
  { unfold glib_dispatch. rewrite Hs.
    destruct (decide (_context s = _context s)); [| done].
    unfold GLibChildHandle_callback. rewrite Hh. cbv zeta.
    fold hd'. fold s1. rewrite Hd. reflexivity. }
  eexists s_run, _. split; [exact Hgo |].
  split_and!; try done.
  intros status'. apply child_exit_destroyed_noop.
  assert (Hadv : advances s (glib_dispatch (ChildExits src status) s))
    by apply advances_glib_dispatch.
  rewrite Hgo in Hadv. apply advances_length_sources in Hadv.
  apply lookup_lt_Some in Hs.
  assert (Hlen : forall x, length (sources (destroy src x)) = length (sources x)).
  { intros x. unfold destroy. destruct x. cbn. apply length_alter. }
  rewrite Hlen in Hadv. lia.
Qed.

(** ** The life cycle of the loop *)

Lemma iterate_blocked (script : list glib_event) :
  forall s s', iterate script s = (false, s') -> mainloop_is_running s' = true.
Proof.
  induction script as [| e rest IH]; intros s s'; simpl;
    destruct (mainloop_is_running s) eqn:Hr; try discriminate.
  - intros H. by injection H as <-.
  - apply IH.
Qed.

(** X12: [run_forever] on a loop that is running raises and changes
    nothing.  On an idle loop, whenever it returns or raises the loop is
    idle again with the interrupted flag down, and the only exception it
    raises is [KeyboardInterrupt]; when it stays blocked, the main loop is
    still running. *)
Theorem run_forever_lifecycle (script : list glib_event) (s : loop) :
  (is_Some (_mainloop s) ->
     run_forever script s =
       Returns (Raise (RuntimeError "Event loop is running.")) s) /\
  (_mainloop s = None ->
     forall r s', run_forever script s = Returns r s' ->
       _mainloop s' = None /\ _interrupted s' = false /\
       (r = Ok tt \/ r = Raise KeyboardInterrupt) /\
       forall script' s'',
         run_forever script' s' <>
           Returns (Raise (RuntimeError "Event loop is running.")) s'') /\
  (_mainloop s = None ->
     forall s', run_forever script s = Blocks s' ->
       mainloop_is_running s' = true).
Proof.
  assert (Hexit : forall s0 r s',
            run_forever_exit s0 = Returns r s' ->
            _mainloop s' = None /\ _interrupted s' = false /\
            (r = Ok tt \/ r = Raise KeyboardInterrupt)).
  { intros s0 r s'. unfold run_forever_exit.
    destruct (_interrupted s0) eqn:Hi; intros H; injection H as <- <-; simpl;
      auto. }
  assert (Hagain : forall s' script' s'', _mainloop s' = None ->
            run_forever script' s' <>
              Returns (Raise (RuntimeError "Event loop is running.")) s'').
  { intros s' script' s'' Hm. unfold run_forever. rewrite Hm.
    set (s2 := _dispatch _).
    destruct (mainloop_is_running s2).
    - destruct (MainLoop_run script' (emit EvEnterRun s2)) as [[|] s3];
        [| discriminate].
      unfold run_forever_exit. destruct (_interrupted _); discriminate.
    - unfold run_forever_exit. destruct (_interrupted _); discriminate. }
  split_and!.
  - intros [l Hl]. unfold run_forever. by rewrite Hl.
  - intros Hm r s'. unfold run_forever. rewrite Hm.
    set (s2 := _dispatch _).
    destruct (mainloop_is_running s2).
    + destruct (MainLoop_run script (emit EvEnterRun s2)) as [[|] s3];
        [| discriminate].
      intros H. destruct (Hexit _ _ _ H) as (H1 & H2 & H3).
      split_and!; auto. intros script' s''. by apply Hagain.
    + intros H. destruct (Hexit _ _ _ H) as (H1 & H2 & H3).
      split_and!; auto. intros script' s''. by apply Hagain.
  - intros Hm s'. unfold run_forever. rewrite Hm.
    set (s2 := _dispatch _).
    destruct (mainloop_is_running s2).
    + unfold MainLoop_run.
      destruct (iterate script _) as [[|] s3] eqn:Hit.
      * unfold run_forever_exit. destruct (_interrupted _); discriminate.
      * intros H. injection H as <-. by eapply iterate_blocked.
    + unfold run_forever_exit. destruct (_interrupted _); discriminate.
Qed.

(** ** close *)

Lemma cancel_all_cancels (h : nat) (hs : list nat) :
  forall s, h ∈ hs -> (h < length (handles s))%nat ->
  is_cancelled (fold_left (fun acc x => cancel x acc) hs s) h = true.
Proof.
  induction hs as [| x hs IH]; intros s Hin Hlt; [by apply elem_of_nil in Hin |].
  simpl. apply elem_of_cons in Hin as [-> | Hin].
  - apply (is_cancelled_stays (cancel x s)).
    + apply advances_cancel_all.
    + by destruct (cancel_lengths x s) as [-> _].
    + apply is_cancelled_cancel.
  - apply IH; [exact Hin |]. by destruct (cancel_lengths x s) as [-> _].
Qed.

Lemma cancel_all_tables (hs : list nat) :
  forall s,
  let s' := fold_left (fun acc x => cancel x acc) hs s in
  _readers s' = _readers s /\ _writers s' = _writers s /\
  _sighandlers s' = _sighandlers s /\ _chldhandlers s' = _chldhandlers s /\
  length (handles s') = length (handles s).
Proof.
  induction hs as [| x hs IH]; intros s; simpl; [done |].
  destruct (IH (cancel x s)) as (H1 & H2 & H3 & H4 & H5). simpl in *.
  destruct (cancel_tables x s) as (C2 & C3 & C4 & C1 & _).
  destruct (cancel_lengths x s) as [C5 _].
  rewrite H1, H2, H3, H4, H5, C1, C2, C3, C4, C5. done.
Qed.

(** X13: [close()] cancels every handle the loop has registered, and none
    of their callbacks runs in any step taken afterwards; it does not empty
    the registration tables, which keep naming the cancelled handles. *)
Theorem close_cancels_registered (s : loop) (h : nat) (steps : list step) :
  h ∈ _handlers s -> (h < length (handles s))%nat ->
  let s' := (close s).2 in
  is_cancelled s' h = true /\
  (exists evs,
     trace (do_steps steps s') = trace s' ++ evs /\ (h ∉ dispatched evs)) /\
  _readers s' = _readers s /\ _writers s' = _writers s /\
  _sighandlers s' = _sighandlers s /\ _chldhandlers s' = _chldhandlers s.
Proof.
  intros Hin Hlt. cbv zeta.
  assert (Hel : h ∈ elements (_handlers s)) by (by apply elem_of_elements).
  pose proof (cancel_all_cancels h _ s Hel Hlt) as Hc.
  destruct (cancel_all_tables (elements (_handlers s)) s)
    as (H1 & H2 & H3 & H4 & H5).
  cbv zeta in H1, H2, H3, H4, H5.
  assert (Hclose : is_cancelled (close s).2 h = true /\
                   length (handles (close s).2) = length (handles s) /\
                   _readers (close s).2 = _readers s /\
                   _writers (close s).2 = _writers s /\
                   _sighandlers (close s).2 = _sighandlers s /\
                   _chldhandlers (close s).2 = _chldhandlers s).
  { unfold close.
    destruct (_default_sigint_handler
                (fold_left (fun acc x => cancel x acc) (elements (_handlers s)) s));
      simpl; done. }
  destruct Hclose as (Hc' & Hlen & H1' & H2' & H3' & H4').
  split_and!; try done.
  pose proof (advances_do_steps steps (close s).2) as A.
  destruct (adv_trace _ _ A) as (evs & T & Hno).
  exists evs. split; [exact T |].
  rewrite elem_of_dispatched. intros Hev.
  unfold is_cancelled in Hc'.
  destruct (handles (close s).2 !! h) as [hd |] eqn:Hl.
  - specialize (Hno h hd Hev Hl). congruence.
  - apply lookup_ge_None in Hl. lia.
Qed.

(** ** A SIGINT while the loop runs *)

Lemma dispatch_idle (s : loop) :
  _ready s = [] -> _dispatch s = set_will_dispatch false s.
Proof.
  intros Hq. unfold _dispatch.
  change (_ready (set_will_dispatch true s)) with (_ready s). rewrite Hq.
  change (_dispatch_loop (length []) (set_will_dispatch true s))
    with (set_will_dispatch true s).
  unfold _schedule_dispatch.
  change (_ready (set_will_dispatch true s)) with (_ready s). rewrite Hq.
  reflexivity.
Qed.

Lemma call_soon_idle (cb : callback) (args : list pyval) (s : loop) :
  _will_dispatch s = false -> _ready s = [] -> _wakeup s = None ->
  (call_soon cb args s).2 =
    set_wakeup (Some (length (sources s)))
      (set_sources (sources s ++ [Source (Timeout 0) CbWakeup (_context s) false])
         (set_ready [length (handles s)]
            (set_handles (handles s ++ [MkHandle Handle cb args false false]) s))).
Proof.
  intros Hd Hq Hw. unfold call_soon, _schedule_dispatch.
  cbn [snd set_ready set_handles _will_dispatch _ready _wakeup handles sources
       _context].
  rewrite Hd, Hq, Hw. reflexivity.
Qed.

Lemma dispatch_interrupt (h : nat) (args : list pyval) (s : loop) :
  _ready s = [h] ->
  handles s !! h = Some (MkHandle Handle interrupt_cb args false false) ->
  _dispatch s =
    set_will_dispatch false
      (interrupt (emit (EvDispatch h) (set_ready [] (set_will_dispatch true s)))).
Proof.
  intros Hq Hh. unfold _dispatch.
  change (_ready (set_will_dispatch true s)) with (_ready s). rewrite Hq.
  change (length [h]) with 1%nat.
  cbn [_dispatch_loop].
  change (_ready (set_will_dispatch true s)) with (_ready s). rewrite Hq.
  unfold is_cancelled.
  change (handles (set_ready [] (set_will_dispatch true s))) with (handles s).
  rewrite Hh. cbn [h_cancelled].
  unfold _run.
  change (handles (emit (EvDispatch h) (set_ready [] (set_will_dispatch true s))))
    with (handles s).
  rewrite Hh. cbn [h_class h_callback cb_body interrupt_cb run_actions run_action].
  unfold _schedule_dispatch, interrupt, stop.
  destruct (_mainloop s) eqn:Hm.
  - cbn [_mainloop emit set_trace set_interrupted set_ready set_will_dispatch
         set_mainloop _ready].
    rewrite Hm. reflexivity.
  - cbn [_mainloop emit set_trace set_interrupted set_ready set_will_dispatch
         set_mainloop _ready].
    rewrite Hm. reflexivity.
Qed.

Lemma running_true (s : loop) :
  _mainloop s = Some (MkMainLoop true) -> mainloop_is_running s = true.
Proof. intros H. unfold mainloop_is_running. by rewrite H. Qed.

Lemma running_false (s : loop) :
  _mainloop s = Some (MkMainLoop false) -> mainloop_is_running s = false.
Proof. intros H. unfold mainloop_is_running. by rewrite H. Qed.

Lemma sigint_schedules (s : loop) :
  _context s = DefaultContext ->
  _default_sigint_handler s = Some (MkSigINT (Some (Some (loop_id s)))) ->
  glib_dispatch SigINT s = (call_soon interrupt_cb [] s).2.
Proof.
  intros Hctx Hsig. unfold glib_dispatch, DefaultSigINTHandler_callback.
  rewrite Hctx, Hsig.
  destruct (decide (DefaultContext = DefaultContext)); [| done].
  destruct (decide (loop_id s = loop_id s)); [| done]. reflexivity.
Qed.

Lemma wakeup_runs_interrupt (h w : nat) (kind : source_kind) (s : loop) :
  _ready s = [h] ->
  handles s !! h = Some (MkHandle Handle interrupt_cb [] false false) ->
  sources s !! w = Some (Source kind CbWakeup (_context s) false) ->
  _wakeup s = Some w ->
  glib_dispatch (Fires w) s =
    destroy w (set_wakeup None (destroy w
      (set_will_dispatch false
         (interrupt (emit (EvDispatch h)
                       (set_ready [] (set_will_dispatch true s))))))).
Proof.
  intros Hq Hh Hs Hw. unfold glib_dispatch. rewrite Hs. cbv beta iota.
  destruct (decide (_context s = _context s)); [| done].
  unfold wakeup_cb. rewrite (dispatch_interrupt h [] s Hq Hh).
  set (s5 := set_will_dispatch false _).
  assert (Hq5 : _ready s5 = []).
  { unfold s5, interrupt, stop. destruct (_mainloop s) eqn:Hm;
      cbn [_mainloop emit set_trace set_interrupted set_ready set_will_dispatch
           set_mainloop _ready]; rewrite Hm; reflexivity. }
  assert (Hw5 : _wakeup s5 = Some w).
  { unfold s5, interrupt, stop. destruct (_mainloop s) eqn:Hm;
      cbn [_mainloop emit set_trace set_interrupted set_ready set_will_dispatch
           set_mainloop _wakeup]; rewrite Hm; exact Hw. }
  rewrite Hq5, Hw5. reflexivity.
Qed.

Lemma interrupt_fields (s : loop) (l : MainLoop) :
  _mainloop s = Some l ->
  let s' := interrupt s in
  _mainloop s' = Some (MkMainLoop false) /\ _interrupted s' = true /\
  trace s' = trace s ++ [EvStop] /\ _ready s' = _ready s /\
  _wakeup s' = _wakeup s.
Proof.
  intros Hm. unfold interrupt, stop.
  cbn [_mainloop emit set_trace set_interrupted]. rewrite Hm. done.
Qed.

(** X14: an idle loop of the default context that the default SIGINT
    handler is attached to, blocked in [run_forever]: when a SIGINT arrives
    and the wakeup timer it armed fires, the interrupt callback is
    dispatched, [stop()] is called once, and [run_forever] raises
    [KeyboardInterrupt], leaving the loop idle with the interrupted flag
    down. *)
Theorem sigint_interrupts_run (s : loop) :
  _mainloop s = None -> _ready s = [] -> _wakeup s = None ->
  _context s = DefaultContext ->
  _default_sigint_handler s = Some (MkSigINT (Some (Some (loop_id s)))) ->
  exists s',
    run_forever [SigINT; Fires (length (sources s))] s =
      Returns (Raise KeyboardInterrupt) s' /\
    trace s' = trace s ++ [EvEnterRun; EvDispatch (length (handles s)); EvStop;
                           EvLeaveRun] /\
    _interrupted s' = false /\ _mainloop s' = None /\
    _ready s' = [] /\ _wakeup s' = None.
Proof.
  intros Hm Hq Hw Hctx Hsig.
  unfold run_forever. rewrite Hm.
  rewrite (dispatch_idle (set_mainloop (Some (MkMainLoop true)) s) Hq).
  rewrite (running_true
             (set_will_dispatch false (set_mainloop (Some (MkMainLoop true)) s))
             eq_refl).
  unfold MainLoop_run.
  set (s3 := set_mainloop _ (emit EvEnterRun _)).
  assert (F3 : _mainloop s3 = Some (MkMainLoop true) /\ _ready s3 = [] /\
               _wakeup s3 = None /\ _will_dispatch s3 = false /\
               _context s3 = DefaultContext /\
               _default_sigint_handler s3 =
                 Some (MkSigINT (Some (Some (loop_id s3)))) /\
               trace s3 = trace s ++ [EvEnterRun] /\
               handles s3 = handles s /\ sources s3 = sources s).
  { split_and!; try reflexivity; assumption. }
  clearbody s3.
  destruct F3 as (Hm3 & Hq3 & Hw3 & Hd3 & Hc3 & Hsig3 & Ht3 & Hh3 & Hs3).
  cbn [iterate]. rewrite (running_true s3 Hm3).
  rewrite (sigint_schedules s3 Hc3 Hsig3).
  rewrite (call_soon_idle interrupt_cb [] s3 Hd3 Hq3 Hw3).
  set (s4 := set_wakeup _ _).
  assert (F4 : _mainloop s4 = Some (MkMainLoop true) /\
               _ready s4 = [length (handles s)] /\
               handles s4 !! length (handles s) =
                 Some (MkHandle Handle interrupt_cb [] false false) /\
               sources s4 !! length (sources s) =
                 Some (Source (Timeout 0) CbWakeup (_context s4) false) /\
               _wakeup s4 = Some (length (sources s)) /\
               trace s4 = trace s ++ [EvEnterRun]).
  { unfold s4. cbn [_mainloop _ready handles sources _wakeup trace _context
                    set_wakeup set_sources set_ready set_handles].
    rewrite Hh3, Hs3. split_and!; auto using lookup_snoc_new. }
  clearbody s4. clear s3 Hm3 Hq3 Hw3 Hd3 Hc3 Hsig3 Ht3 Hh3 Hs3.
  destruct F4 as (Hm4 & Hq4 & Hh4 & Hs4 & Hw4 & Ht4).
  rewrite (running_true s4 Hm4).
  rewrite (wakeup_runs_interrupt _ _ _ s4 Hq4 Hh4 Hs4 Hw4).
  set (s4e := emit _ (set_ready [] (set_will_dispatch true s4))).
  assert (Hm4e : _mainloop s4e = Some (MkMainLoop true)) by exact Hm4.
  assert (Ht4e : trace s4e =
                 (trace s ++ [EvEnterRun]) ++ [EvDispatch (length (handles s))]).
  { unfold s4e. cbn [trace emit set_trace set_ready set_will_dispatch].
    by rewrite Ht4. }
  assert (Hq4e : _ready s4e = []) by reflexivity.
  clearbody s4e.
  destruct (interrupt_fields s4e _ Hm4e) as (Hm5 & Hi5 & Ht5 & Hq5 & Hw5).
  cbv zeta in Hm5, Hi5, Ht5, Hq5, Hw5.
  set (s5 := interrupt s4e) in *. clearbody s5.
  set (s6 := destroy _ (set_wakeup None (destroy _ (set_will_dispatch false s5)))).
  assert (F6 : _mainloop s6 = Some (MkMainLoop false) /\ _interrupted s6 = true /\
               trace s6 = trace s5 /\ _ready s6 = _ready s5 /\ _wakeup s6 = None).
  { split_and!; try reflexivity; assumption. }
  clearbody s6. destruct F6 as (Hm6 & Hi6 & Ht6 & Hq6 & Hw6).
  rewrite (running_false s6 Hm6).
  unfold run_forever_exit.
  cbn [_interrupted emit set_trace]. rewrite Hi6.
  eexists. split; [reflexivity |].
  cbn [trace _interrupted _mainloop _ready _wakeup set_mainloop set_interrupted
       emit set_trace].
  rewrite Ht6, Ht5, Ht4e, Hq6, Hq5, Hq4e, Hw6.
  split_and!; try reflexivity. by rewrite <- !app_assoc.
Qed.

(** ** init_class and the loop policy *)

Lemma init_default_ok (id fresh : nat) (d : DefaultSigINTHandler) :
  init id (Some DefaultContext) fresh (Some d) =
    Ok (MkLoop id DefaultContext ∅ ∅ ∅ ∅ ∅ [] None false None false
          (Some (MkSigINT (Some (Some id)))) [] [] [] []).
Proof. reflexivity. Qed.

Lemma init_own_ok (id fresh : nat) (sigint : option DefaultSigINTHandler) :
  init id None fresh sigint =
    Ok (MkLoop id (MainContext fresh) ∅ ∅ ∅ ∅ ∅ [] None false None false
          sigint [] [] [] []).
Proof. reflexivity. Qed.

(** X15: [init_class] creates the default SIGINT handler once and is
    idempotent.  Before it, constructing a loop on the default context
    fails its assertion and creates nothing; after it, the construction
    succeeds and the handler is attached to the new loop.  A loop
    constructed without a context gets a context of its own and leaves the
    handler alone, with or without [init_class]. *)
Theorem init_class_before_default_loop (p : process) :
  init_class (init_class p) = init_class p /\
  is_Some (class_sigint_handler (init_class p)) /\
  (class_sigint_handler p = None ->
     GLibEventLoop_new (Some DefaultContext) p =
       (Raise (AssertionError "Must call BaseGlibEventLoop.init_class() first"),
        p)) /\
  (exists l p',
     GLibEventLoop_new (Some DefaultContext) (init_class p) = (Ok l, p') /\
     l = length (heap p) /\
     class_sigint_handler p' = Some (MkSigINT (Some (Some l)))) /\
  (exists lp p',
     GLibEventLoop_new None p = (Ok (length (heap p)), p') /\
     heap p' = heap p ++ [GLibEventLoopObject lp] /\
     _context lp = MainContext (next_context p) /\
     class_sigint_handler p' = class_sigint_handler p /\
     next_context p' = S (next_context p)).
Proof.
  split_and!.
  - unfold init_class. destruct (class_sigint_handler p) eqn:H; [by rewrite H |].
    reflexivity.
  - unfold init_class. destruct (class_sigint_handler p) eqn:H; [by rewrite H |].
    by eexists.
  - intros H. unfold GLibEventLoop_new. rewrite H. reflexivity.
  - unfold GLibEventLoop_new, init_class.
    destruct (class_sigint_handler p) as [d |] eqn:H.
    + rewrite H, init_default_ok. eexists _, _. split; [reflexivity |]. done.
    + cbn [class_sigint_handler heap next_context].
      rewrite init_default_ok. eexists _, _. split; [reflexivity |]. done.
  - unfold GLibEventLoop_new. rewrite init_own_ok.
    eexists _, _. split; [reflexivity |]. done.
Qed.

Lemma policy_init_default_loop (full : bool) (p : process) :
  let st := GLibEventLoopPolicy_init full true p in
  let l := length (heap p) in
  exists lp p2,
    get_default_loop st.1 st.2 = (Ok l, (MkPolicy full true (Some l), p2)) /\
    heap p2 = heap p ++ [GLibEventLoopObject lp] /\
    _context lp = DefaultContext /\ loop_id lp = l /\
    class_sigint_handler p2 = Some (MkSigINT (Some (Some l))).
Proof.
  cbv zeta. unfold GLibEventLoopPolicy_init, get_default_loop, _new_default_loop,
    GLibEventLoop_new, init_class.
  cbn [fst snd _default_loop _default _full].
  destruct (class_sigint_handler p) as [d |] eqn:H.
  - rewrite H, init_default_ok. eexists _, _. split; [reflexivity |]. done.
  - cbn [class_sigint_handler heap next_context]. rewrite init_default_ok.
    eexists _, _. split; [reflexivity |]. done.
Qed.

(** X16: a policy that uses the default context hands out one default
    loop: the first [get_default_loop] creates a [GLibEventLoop] on the
    default context, attached to the default SIGINT handler; every later
    [get_default_loop], and every [new_event_loop] from the main thread,
    returns that same loop and creates nothing. *)
Theorem default_loop_is_a_singleton (full : bool) (p : process) :
  let st := GLibEventLoopPolicy_init full true p in
  exists l lp pol' p2,
    get_default_loop st.1 st.2 = (Ok l, (pol', p2)) /\
    new_event_loop true st.1 st.2 = (Ok l, (pol', p2)) /\
    heap p2 !! l = Some (GLibEventLoopObject lp) /\
    _context lp = DefaultContext /\
    class_sigint_handler p2 = Some (MkSigINT (Some (Some l))) /\
    get_default_loop pol' p2 = (Ok l, (pol', p2)) /\
    new_event_loop true pol' p2 = (Ok l, (pol', p2)).
Proof.
  cbv zeta.
  destruct (policy_init_default_loop full p) as (lp & p2 & Hg & Hh & Hc & Hid & Hs).
  cbv zeta in Hg.
  exists (length (heap p)), lp, (MkPolicy full true (Some (length (heap p)))), p2.
  assert (Hl : heap p2 !! length (heap p) = Some (GLibEventLoopObject lp)).
  { rewrite Hh. apply list_lookup_middle. reflexivity. }
  split_and!; try done.
Qed.

Lemma new_event_loop_keeps_no_default (main_thread : bool)
    (pol : GLibEventLoopPolicy) (p : process) :
  _default pol = false -> _default_loop pol = None ->
  let st := (new_event_loop main_thread pol p).2 in
  _default st.1 = false /\ _default_loop st.1 = None.
Proof.
  intros Hd Hl. cbv zeta. unfold new_event_loop. rewrite Hd.
  cbn [andb]. destruct (_full pol).
  - destruct (GLibEventLoop_new None p) as [r p1]. done.
  - done.
Qed.

(** X17: a policy configured without a default loop never has one:
    whatever threads have called [new_event_loop], [get_default_loop]
    raises and changes nothing. *)
Theorem no_default_loop_unless_configured (full : bool) (p : process)
    (calls : list bool) :
  let st := after_calls calls (GLibEventLoopPolicy_init full false p) in
  get_default_loop st.1 st.2 =
    (Raise (RuntimeError
       "GLibEventLoopPolicy configured not to used a default loop"), st).
Proof.
  cbv zeta.
  assert (H : forall st : GLibEventLoopPolicy * process,
            _default st.1 = false -> _default_loop st.1 = None ->
            _default (after_calls calls st).1 = false /\
            _default_loop (after_calls calls st).1 = None).
  { induction calls as [| c calls IH]; intros st Hd Hl; [done |].
    simpl. apply IH;
      by destruct (new_event_loop_keeps_no_default c st.1 st.2 Hd Hl). }
  destruct (H (GLibEventLoopPolicy_init full false p) eq_refl eq_refl)
    as [Hd Hl].
  unfold get_default_loop. rewrite Hl, Hd.
  by destruct (after_calls calls _) as [pol' p'].
Qed.

(** X18: away from the main thread, or with a policy that has no default
    loop, [new_event_loop] makes a new loop at every call: with [full] a
    [GLibEventLoop] on a fresh context of its own, which the default SIGINT
    handler is not attached to, and otherwise a loop of the default policy;
    the policy and its default loop are left as they are. *)
Theorem new_event_loop_off_main (main_thread : bool)
    (pol : GLibEventLoopPolicy) (p : process) :
  _default pol && main_thread = false ->
  exists obj p',
    new_event_loop main_thread pol p = (Ok (length (heap p)), (pol, p')) /\
    heap p' = heap p ++ [obj] /\
    class_sigint_handler p' = class_sigint_handler p /\
    (_full pol = true ->
       exists lp, obj = GLibEventLoopObject lp /\
         _context lp = MainContext (next_context p) /\
         next_context p' = S (next_context p)) /\
    (_full pol = false ->
       obj = DefaultLoopObject /\ next_context p' = next_context p).
Proof.
  intros Hm. unfold new_event_loop. rewrite Hm.
  destruct (_full pol).
  - unfold GLibEventLoop_new. rewrite init_own_ok.
    eexists _, _. split; [reflexivity |].
    split_and!; try done. intros _. eexists. done.
  - eexists _, _. split; [reflexivity |]. split_and!; try done.
Qed.

(** ** Invariants of reachable loops *)

(** X19: on every loop reached from its construction, the ready queue and
    the reader table refer to handles that exist, every handle of a watch
    refers to a source that exists, and every live read watch of an
    uncancelled handle is the one the reader table names for its
    descriptor. *)
Theorem reachable_loop_is_consistent (s : loop) :
  reachable s ->
  Forall (fun h => (h < length (handles s))%nat) (_ready s) /\
  (forall fd h, _readers s !! fd = Some h -> (h < length (handles s))%nat) /\
  (forall h hd src r, handles s !! h = Some hd ->
     h_class hd = GLibHandle src r -> (src < length (sources s))%nat) /\
  (forall fd h, active_reader s fd h = true -> _readers s !! fd = Some h).
Proof.
  intros Hr. destruct (reachable_wf s Hr) as [[H1 H2 H3] H4].
  split_and!; assumption.
Qed.

(** X20: on every loop reached from its construction, the signal table
    only holds signals that pass [_check_signal] and for which GLib gives
    a source. *)
Theorem reachable_signals_are_watchable (s : loop) (sig : Z) (h : nat) :
  reachable s -> _sighandlers s !! sig = Some h ->
  _check_signal sig = None /\ unix_signal_source_new sig = true.
Proof.
  intros Hr Hl.
  destruct (reachable_sighandlers s sig Hr) as [H1 H2]; [by rewrite Hl |].
  done.
Qed.

End Coverage.

(** * The theorems at concrete runs *)

#[local] Existing Instance linux_glib.

Lemma dispatch_pass_snapshot_witness :
  reachable Runs.killer_victim /\
  _ready Runs.killer_victim = [0; 1; 2; 3]%nat /\
  is_cancelled Runs.killer_victim 1 = false /\
  is_cancelled Runs.killer_victim 3 = true /\
  exists evs evs',
    trace (_dispatch Runs.killer_victim) = trace Runs.killer_victim ++ evs /\
    trace (_dispatch (_dispatch Runs.killer_victim)) =
      trace (_dispatch Runs.killer_victim) ++ evs' /\
    sublist (dispatched evs) [0; 1; 2; 3]%nat /\
    0%nat ∈ dispatched evs /\ (1%nat ∉ dispatched evs) /\
    2%nat ∈ dispatched evs /\ (3%nat ∉ dispatched evs) /\
    _ready (_dispatch Runs.killer_victim) = [4%nat] /\
    (4%nat ∉ dispatched evs) /\ 4%nat ∈ dispatched evs'.
Proof.
  assert (H : reachable Runs.killer_victim).
  { exists 1%nat, (Some DefaultContext), 0%nat, (Some (MkSigINT None)),
      Runs.loop0,
      [Call (ACallSoon Runs.cb_kill []); Call (ACallSoon Runs.cb_b []);
       Call (ACallSoon Runs.cb_a []); Call (ACallSoon Runs.cb_b []);
       Call (ACancel 3)].
    split; reflexivity. }
  assert (Hq : _ready Runs.killer_victim = [0; 1; 2; 3]%nat) by reflexivity.
  assert (Hq' : _ready (_dispatch Runs.killer_victim) = [4%nat])
    by (vm_compute; reflexivity).
  split; [exact H |]. split; [exact Hq |].
  split; [vm_compute; reflexivity |]. split; [vm_compute; reflexivity |].
  destruct (dispatch_pass_snapshot Runs.killer_victim H)
    as (_ & evs & evs' & T & T' & Hsub & Hran & Hall & Hturn & _ & Hnot & _ &
        Hall').
  exists evs, evs'. rewrite Hq in Hsub.
  split; [exact T |]. split; [exact T' |]. split; [exact Hsub |].
  split; [apply Hall; [rewrite Hq; repeat constructor | vm_compute; reflexivity] |].
  split.
  { destruct (Hturn [0%nat] 1%nat [2; 3]%nat Hq)
      as (rb & ra & E & Hb & Ha).
    assert (Hc : is_cancelled
                   (snapshot_pass [0%nat]
                      (set_ready [] (set_will_dispatch true
                         Runs.killer_victim))) 1 = true)
      by (vm_compute; reflexivity).
    rewrite Hc in E. rewrite E. intros Hin.
    apply elem_of_app in Hin as [Hin | Hin].
    - pose proof (elem_of_sublist _ _ _ Hin Hb) as X. clear -X. set_solver.
    - pose proof (elem_of_sublist _ _ _ Hin Ha) as X. clear -X. set_solver. }
  split; [apply Hall; [rewrite Hq; repeat constructor | vm_compute; reflexivity] |].
  split.
  { intros Hin. apply Hran in Hin. vm_compute in Hin. discriminate. }
  split; [exact Hq' |].
  split; [apply Hnot; rewrite Hq'; repeat constructor |].
  apply Hall'; [rewrite Hq'; repeat constructor | vm_compute; reflexivity].
Defined.

Lemma cancelled_never_runs_witness :
  (0 < length (handles Runs.two_ready))%nat /\
  exists evs,
    trace (do_steps [DispatchPass; DispatchPass] (cancel 0 Runs.two_ready)) =
      trace (cancel 0 Runs.two_ready) ++ evs /\
    (0%nat ∉ dispatched evs) /\
    is_cancelled
      (do_steps [DispatchPass; DispatchPass] (cancel 0 Runs.two_ready)) 0 = true.
Proof.
  assert (H : (0 < length (handles Runs.two_ready))%nat).
  { vm_compute. repeat constructor. }
  split; [exact H |].
  exact (cancelled_never_runs 0 Runs.two_ready [DispatchPass; DispatchPass] H).
Defined.

Lemma child_returncode_cases_witness :
  child_returncode 9 = Some (-9) /\
  child_returncode 0 = Some 0 /\
  child_returncode 35072 = Some (128 - 137) /\
  child_returncode 4991 = None.
Proof.
  split; [| split; [| split]].
  - exact (proj1 (child_returncode_cases 9) eq_refl).
  - refine (proj1 (proj2 (child_returncode_cases 0)) eq_refl eq_refl _).
    vm_compute. discriminate.
  - exact (proj1 (proj2 (proj2 (child_returncode_cases 35072)))
             eq_refl eq_refl eq_refl).
  - exact (proj2 (proj2 (proj2 (child_returncode_cases 4991))) eq_refl eq_refl).
Defined.

(** The decoder at "exited normally with status 137": the result is -9,
    not 9. *)
Lemma child_returncode_137_counterexample :
  WIFSIGNALED 35072 = false /\ WIFEXITED 35072 = true /\
  WEXITSTATUS 35072 = 137 /\
  child_returncode 35072 = Some (-9) /\
  child_returncode 35072 <> Some (137 - 128).
Proof. vm_compute. repeat split; discriminate. Qed.


Lemma add_child_handler_outside_default_witness :
  _context Runs.loop_own <> DefaultContext /\
  (_add_child_handler 77 Runs.cb_b [] Runs.loop_own).1 =
    Raise (RuntimeError
      "Children processes cannot be monitored outside the main event loop").
Proof.
  assert (H : _context Runs.loop_own <> DefaultContext) by discriminate.
  split; [exact H |].
  destruct (add_child_handler_outside_default 77 Runs.cb_b [] Runs.loop_own H)
    as (s' & Heq & _).
  rewrite Heq. reflexivity.
Defined.

Lemma detach_only_latest_witness :
  detach 2 (attach 2 (MkSigINT None)) = MkSigINT None /\
  detach 1 (attach 2 (MkSigINT None)) = attach 2 (MkSigINT None) /\
  (exists s',
     close (set_default_sigint_handler
              (Some (attach 2 (MkSigINT None))) Runs.loop0) = (Ok tt, s') /\
     _default_sigint_handler s' = Some (MkSigINT (Some (Some 2%nat)))) /\
  fold_left (fun acc other => detach other acc) [1%nat; 3%nat]
    (attach 2 (MkSigINT None)) = attach 2 (MkSigINT None).
Proof.
  pose proof (detach_only_latest (MkSigINT None) 2
                (set_default_sigint_handler
                   (Some (attach 2 (MkSigINT None))) Runs.loop0))
    as (H1 & H2 & H3 & H4).
  split; [exact H1 |].
  split; [apply H2; discriminate |].
  split; [exact (H3 eq_refl) |].
  apply H4. repeat constructor; discriminate.
Defined.

Lemma stop_in_first_pass_skips_run_witness :
  _mainloop Runs.with_stop = None /\
  EvStop ∈ [EvDispatch 0; EvStop] /\
  exists r s',
    run_forever [Fires 0] Runs.with_stop = Returns r s' /\
    trace s' = trace Runs.with_stop ++ [EvDispatch 0; EvStop] /\
    (EvEnterRun ∉ [EvDispatch 0; EvStop]) /\
    _mainloop s' = None.
Proof.
  assert (H1 : _mainloop Runs.with_stop = None) by reflexivity.
  assert (H2 : trace (_dispatch (set_mainloop (Some (MkMainLoop true))
                                   Runs.with_stop)) =
               trace Runs.with_stop ++ [EvDispatch 0; EvStop])
    by (vm_compute; reflexivity).
  assert (H3 : EvStop ∈ [EvDispatch 0; EvStop]) by (right; left).
  split; [exact H1 |]. split; [exact H3 |].
  exact (stop_in_first_pass_skips_run [Fires 0] Runs.with_stop _ H1 H2 H3).
Defined.


Lemma add_signal_handler_failure_witness :
  reachable Runs.with_sigint /\
  (add_signal_handler 9 Runs.cb_a [] Runs.with_sigint).1 =
    Raise (RuntimeError "cannot catch SIGKILL") /\
  (add_signal_handler 3 Runs.cb_a [] Runs.with_sigint).1 =
    Raise (ValueError "signal not supported") /\
  (add_signal_handler 9 Runs.cb_a [] Runs.with_sigint).2 = Runs.with_sigint /\
  _sighandlers (add_signal_handler 3 Runs.cb_a [] Runs.with_sigint).2 !! 2 =
    Some 0%nat.
Proof.
  assert (H : reachable Runs.with_sigint).
  { exists 1%nat, (Some DefaultContext), 0%nat, (Some (MkSigINT None)),
      Runs.loop0, [Call (AAddSignalHandler 2 Runs.cb_b [])].
    split; reflexivity. }
  split; [exact H |].
  destruct (add_signal_handler_failure 9 Runs.cb_a [] Runs.with_sigint H)
    as (H9 & _ & U9).
  destruct (add_signal_handler_failure 3 Runs.cb_a [] Runs.with_sigint H)
    as (H3 & _ & U3).
  pose proof (proj1 (H9 eq_refl eq_refl) eq_refl) as E9.
  assert (N3 : 3 <> SIGKILL) by discriminate.
  pose proof (proj2 (H3 eq_refl eq_refl) N3) as E3.
  split; [exact E9 |]. split; [exact E3 |].
  split; [exact (proj1 (U9 _ E9)) |].
  rewrite (proj1 (U3 _ E3)). vm_compute. reflexivity.
Defined.

Lemma run_until_complete_spec_witness :
  run_forever [Fires 0] (add_done_callback 0 stop_cb Runs.with_task) =
    Returns (Ok tt)
      (outcome_state
         (run_forever [Fires 0] (add_done_callback 0 stop_cb Runs.with_task))) /\
  exists s3,
    run_until_complete (run_forever [Fires 0]) 0 Runs.with_task =
      Returns (Ok (VInt 42)) s3 /\
    f_callbacks (get_future s3 0) = [].
Proof.
  set (s2 := outcome_state
               (run_forever [Fires 0] (add_done_callback 0 stop_cb Runs.with_task))).
  assert (H : run_forever [Fires 0] (add_done_callback 0 stop_cb Runs.with_task) =
              Returns (Ok tt) s2) by (vm_compute; reflexivity).
  split; [exact H |].
  destruct (run_until_complete_spec (run_forever [Fires 0]) 0 Runs.with_task
              (Ok tt) s2 H) as (HR & _).
  exists (remove_done_callback 0 stop_cb s2). split.
  - apply HR; [reflexivity | vm_compute; reflexivity].
  - vm_compute. reflexivity.
Defined.

(** A task completes with 42 in the first pass; while the loop is blocked
    in [run()] a SIGINT is caught, then the wakeup source fires and the next
    pass runs the task's [stop] callback and the interrupt callback.  The
    call raises [KeyboardInterrupt] and does not return 42. *)
Lemma run_until_complete_interrupted_counterexample :
  exists s3,
    run_until_complete (run_forever [SigINT; Fires 0]) 0 Runs.with_task =
      Returns (Raise KeyboardInterrupt) s3 /\
    f_state (get_future s3 0) = Some (Ok (VInt 42)) /\
    trace s3 =
      [EvDispatch 0; EvEnterRun; EvDispatch 1; EvStop; EvDispatch 2; EvStop;
       EvLeaveRun] /\
    run_until_complete (run_forever [SigINT; Fires 0]) 0 Runs.with_task <>
      Returns (Ok (VInt 42)) s3.
Proof.
  eexists. split; [vm_compute; reflexivity |].
  split; [vm_compute; reflexivity |].
  split; [vm_compute; reflexivity |].
  vm_compute. discriminate.
Qed.

(** ** The further properties at concrete runs *)

Lemma schedule_dispatch_arms_once_witness :
  _ready Runs.loop0 = [] /\
  _schedule_dispatch Runs.loop0 = Runs.loop0 /\
  _ready Runs.in_pass <> [] /\ _wakeup Runs.in_pass = None /\
  _wakeup (_schedule_dispatch Runs.in_pass) = Some 0%nat.
Proof.
  assert (H1 : _ready Runs.loop0 = []) by reflexivity.
  assert (H2 : _ready Runs.in_pass <> []) by discriminate.
  assert (H3 : _wakeup Runs.in_pass = None) by reflexivity.
  split; [exact H1 |].
  split; [exact (proj1 (proj2 (schedule_dispatch_arms_once Runs.loop0))
                   (or_introl H1)) |].
  split; [exact H2 |]. split; [exact H3 |].
  exact (proj1 (proj2 (proj2 (schedule_dispatch_arms_once Runs.in_pass)) H2 H3)).
Defined.

Lemma dispatch_leaves_wakeup_armed_witness :
  _ready (_dispatch Runs.two_ready) <> [] /\
  is_Some (_wakeup (_dispatch Runs.two_ready)).
Proof.
  assert (H : _ready (_dispatch Runs.two_ready) <> [])
    by (vm_compute; discriminate).
  split; [exact H |].
  exact (proj2 (dispatch_leaves_wakeup_armed Runs.two_ready) H).
Defined.

Lemma call_soon_wakeup_witness :
  sources Runs.in_pass = [] /\
  is_Some (_wakeup (call_soon Runs.cb_b [] Runs.loop0).2).
Proof.
  split.
  - exact (proj1 (proj1 (call_soon_wakeup Runs.cb_b []
                           (set_will_dispatch true Runs.loop0)) eq_refl)).
  - exact (proj2 (call_soon_wakeup Runs.cb_b [] Runs.loop0) eq_refl).
Defined.



Lemma wakeup_fires_witness :
  sources Runs.two_ready !! 0%nat =
    Some (Source (Timeout 0) CbWakeup (_context Runs.two_ready) false) /\
  exists evs,
    trace (glib_dispatch (Fires 0) Runs.two_ready) =
      trace Runs.two_ready ++ evs /\
    1%nat ∈ dispatched evs.
Proof.
  assert (H : sources Runs.two_ready !! 0%nat =
              Some (Source (Timeout 0) CbWakeup (_context Runs.two_ready) false))
    by reflexivity.
  split; [exact H |].
  destruct (wakeup_fires 0 (Timeout 0) Runs.two_ready H) as (evs & T & Hall & _).
  exists evs. split; [exact T |].
  apply Hall.
  - unfold ready_valid. vm_compute. repeat constructor.
  - right. left.
  - vm_compute. reflexivity.
Defined.

Lemma call_soon_runs_on_wakeup_witness :
  ready_valid Runs.loop0 /\ _wakeup Runs.loop0 = None /\
  _will_dispatch Runs.loop0 = false /\
  let s1 := (call_soon Runs.cb_b [] Runs.loop0).2 in
  let s2 := glib_dispatch (Fires 0) s1 in
  _wakeup s1 = Some 0%nat /\
  exists evs, trace s2 = trace s1 ++ evs /\ 0%nat ∈ dispatched evs.
Proof.
  assert (H : ready_valid Runs.loop0) by constructor.
  split; [exact H |]. split; [reflexivity |]. split; [reflexivity |].
  destruct (call_soon_runs_on_wakeup Runs.cb_b [] Runs.loop0 H eq_refl eq_refl)
    as (_ & Hw & evs & T & D).
  split; [exact Hw |].
  exists evs. split; [exact T |].
  apply D. vm_compute. reflexivity.
Defined.

Lemma writer_registration_witness :
  (exists h,
     _writers (add_writer (FdInt 4) Runs.cb_b [] Runs.with_reader) !! 4 = Some h /\
     is_cancelled
       (remove_writer (FdInt 4)
          (add_writer (FdInt 4) Runs.cb_b [] Runs.with_reader)).2 h = true) /\
  _readers (add_writer (FdInt 4) Runs.cb_b [] Runs.with_reader) =
    _readers Runs.with_reader /\
  remove_writer (FdInt 4) Runs.with_reader = (false, Runs.with_reader).
Proof.
  destruct (writer_registration (FdInt 4) Runs.cb_b [] Runs.with_reader)
    as ((h & src & Hw & _ & _ & _ & _ & Hc & _) & Hr & Hm & _).
  split; [exists h; split; [exact Hw | exact Hc] |].
  split; [exact Hr | exact Hm].
Defined.

Lemma signal_handler_round_trip_witness :
  watchable 2 /\
  (exists s1 s2,
     add_signal_handler 2 Runs.cb_b [] Runs.loop0 = (Ok tt, s1) /\
     remove_signal_handler 2 s1 = (Ok true, s2) /\
     _sighandlers s2 !! 2 = None /\
     remove_signal_handler 2 s2 = (Ok false, s2)) /\
  _check_signal 65 = Some (ValueError "sig out of range") /\
  add_signal_handler 65 Runs.cb_b [] Runs.loop0 =
    (Raise (ValueError "sig out of range"), Runs.loop0).
Proof.
  assert (H : watchable 2) by (split; reflexivity).
  assert (E : _check_signal 65 = Some (ValueError "sig out of range"))
    by reflexivity.
  split; [exact H |].
  destruct (proj1 (signal_handler_round_trip 2 Runs.cb_b [] Runs.loop0) H)
    as (h & src & s1 & s2 & Ha & _ & _ & _ & Hr & Hn & _ & _ & _ & Hr2).
  split; [exists s1, s2; split_and!; assumption |].
  split; [exact E |].
  exact (proj1 (proj2 (signal_handler_round_trip 65 Runs.cb_b [] Runs.loop0)
                  _ E)).
Defined.

Lemma child_handler_round_trip_witness :
  _context Runs.loop0 = DefaultContext /\
  exists h s1 s2,
    _add_child_handler 77 Runs.cb_b [] Runs.loop0 = (Ok tt, s1) /\
    _chldhandlers s1 !! 77 = Some h /\
    _remove_child_handler 77 s1 = (true, s2) /\
    is_cancelled s2 h = true /\
    _remove_child_handler 77 s2 = (false, s2).
Proof.
  split; [reflexivity |].
  destruct (child_handler_round_trip 77 Runs.cb_b [] Runs.loop0 eq_refl)
    as (h & src & s1 & s2 & Ha & Ht & _ & _ & _ & Hr & _ & Hc & _ & _ & Hr2).
  exists h, s1, s2. split_and!; assumption.
Defined.

Lemma child_exit_runs_callback_witness :
  handles Runs.with_child !! 0%nat =
    Some (MkHandle (GLibChildHandle 0) Runs.cb_b [VInt 5] false false) /\
  sources Runs.with_child !! 0%nat =
    Some (Source (ChildWatch 77) (CbChild 0) (_context Runs.with_child) false) /\
  _ready Runs.with_child = [] /\
  exists s_run,
    handles s_run !! 0%nat =
      Some (MkHandle (GLibChildHandle 0) Runs.cb_b [VInt 5; VInt 3] false false) /\
    glib_dispatch (ChildExits 0 768) Runs.with_child =
      destroy 0 (set_will_dispatch false
        (_schedule_dispatch (run_actions (cb_body Runs.cb_b) s_run))).
Proof.
  assert (H1 : handles Runs.with_child !! 0%nat =
               Some (MkHandle (GLibChildHandle 0) Runs.cb_b [VInt 5] false false))
    by reflexivity.
  assert (H2 : sources Runs.with_child !! 0%nat =
               Some (Source (ChildWatch 77) (CbChild 0)
                       (_context Runs.with_child) false))
    by reflexivity.
  assert (H3 : _ready Runs.with_child = []) by reflexivity.
  split; [exact H1 |]. split; [exact H2 |]. split; [exact H3 |].
  destruct (child_exit_runs_callback 77 768 0 0 Runs.cb_b [VInt 5]
              Runs.with_child H1 H2 H3)
    as (s_run & s' & E & Hh & _ & _ & Es & _).
  exists s_run. split; [exact Hh |].
  rewrite E. exact Es.
Defined.

Lemma run_forever_lifecycle_witness :
  run_forever [] (set_mainloop (Some (MkMainLoop true)) Runs.loop0) =
    Returns (Raise (RuntimeError "Event loop is running."))
      (set_mainloop (Some (MkMainLoop true)) Runs.loop0) /\
  _mainloop (outcome_state (run_forever [Fires 0] Runs.with_stop)) = None /\
  mainloop_is_running (outcome_state (run_forever [] Runs.loop0)) = true.
Proof.
  split.
  - apply (proj1 (run_forever_lifecycle []
                    (set_mainloop (Some (MkMainLoop true)) Runs.loop0))).
    by eexists.
  - split.
    + eapply (proj1 (proj2 (run_forever_lifecycle [Fires 0] Runs.with_stop))
                eq_refl (Ok tt)).
      vm_compute. reflexivity.
    + eapply (proj2 (proj2 (run_forever_lifecycle [] Runs.loop0)) eq_refl).
      vm_compute. reflexivity.
Defined.

Lemma close_cancels_registered_witness :
  0%nat ∈ _handlers Runs.with_reader /\
  (0 < length (handles Runs.with_reader))%nat /\
  is_cancelled (close Runs.with_reader).2 0 = true /\
  _readers (close Runs.with_reader).2 !! 3 = Some 0%nat /\
  exists evs,
    trace (do_steps [Foreign (Fires 0)] (close Runs.with_reader).2) =
      trace (close Runs.with_reader).2 ++ evs /\
    (0%nat ∉ dispatched evs).
Proof.
  assert (H1 : 0%nat ∈ _handlers Runs.with_reader).
  { refine (bool_decide_unpack _ _). vm_compute. exact I. }
  assert (H2 : (0 < length (handles Runs.with_reader))%nat)
    by (vm_compute; constructor).
  split; [exact H1 |]. split; [exact H2 |].
  destruct (close_cancels_registered Runs.with_reader 0 [Foreign (Fires 0)]
              H1 H2) as (Hc & He & Hr & _).
  split; [exact Hc |].
  split; [rewrite Hr; vm_compute; reflexivity | exact He].
Defined.

Lemma sigint_interrupts_run_witness :
  _default_sigint_handler Runs.loop0 =
    Some (MkSigINT (Some (Some (loop_id Runs.loop0)))) /\
  exists s',
    run_forever [SigINT; Fires 0] Runs.loop0 =
      Returns (Raise KeyboardInterrupt) s' /\
    trace s' = [EvEnterRun; EvDispatch 0; EvStop; EvLeaveRun] /\
    _interrupted s' = false /\ _mainloop s' = None.
Proof.
  split; [reflexivity |].
  destruct (sigint_interrupts_run Runs.loop0 eq_refl eq_refl eq_refl eq_refl
              eq_refl) as (s' & E & T & Hi & Hm & _).
  exists s'. split_and!; assumption.
Defined.

Lemma init_class_before_default_loop_witness :
  class_sigint_handler Runs.process0 = None /\
  GLibEventLoop_new (Some DefaultContext) Runs.process0 =
    (Raise (AssertionError "Must call BaseGlibEventLoop.init_class() first"),
     Runs.process0) /\
  exists p',
    GLibEventLoop_new (Some DefaultContext) (init_class Runs.process0) =
      (Ok 0%nat, p') /\
    class_sigint_handler p' = Some (MkSigINT (Some (Some 0%nat))).
Proof.
  destruct (init_class_before_default_loop Runs.process0)
    as (_ & _ & Hf & (l & p' & Hn & Hl & Hs) & _).
  split; [reflexivity |]. split; [exact (Hf eq_refl) |].
  exists p'. split.
  - rewrite Hn, Hl. reflexivity.
  - rewrite Hs, Hl. reflexivity.
Defined.

Lemma new_event_loop_off_main_witness :
  _default (MkPolicy true true None) && false = false /\
  exists lp p',
    new_event_loop false (MkPolicy true true None) (init_class Runs.process0) =
      (Ok 0%nat, (MkPolicy true true None, p')) /\
    heap p' = [GLibEventLoopObject lp] /\
    _context lp = MainContext 0 /\
    class_sigint_handler p' = Some (MkSigINT None).
Proof.
  split; [reflexivity |].
  destruct (new_event_loop_off_main false (MkPolicy true true None)
              (init_class Runs.process0) eq_refl)
    as (obj & p' & Hn & Hh & Hs & Hfull & _).
  destruct (Hfull eq_refl) as (lp & Ho & Hc & _).
  exists lp, p'. split; [exact Hn |].
  split; [rewrite Hh, Ho; reflexivity |].
  split; [exact Hc | exact Hs].
Defined.

Lemma reachable_loop_is_consistent_witness :
  reachable Runs.two_ready /\
  Forall (fun h => (h < length (handles Runs.two_ready))%nat)
    (_ready Runs.two_ready).
Proof.
  assert (H : reachable Runs.two_ready).
  { exists 1%nat, (Some DefaultContext), 0%nat, (Some (MkSigINT None)),
      Runs.loop0,
      [Call (ACallSoon Runs.cb_a []); Call (ACallSoon Runs.cb_b [])].
    split; reflexivity. }
  split; [exact H |].
  exact (proj1 (reachable_loop_is_consistent Runs.two_ready H)).
Defined.

Lemma reachable_signals_are_watchable_witness :
  reachable Runs.with_sigint /\
  _sighandlers Runs.with_sigint !! 2 = Some 0%nat /\
  _check_signal 2 = None /\ unix_signal_source_new 2 = true.
Proof.
  assert (H : reachable Runs.with_sigint).
  { exists 1%nat, (Some DefaultContext), 0%nat, (Some (MkSigINT None)),
      Runs.loop0, [Call (AAddSignalHandler 2 Runs.cb_b [])].
    split; reflexivity. }
  assert (Hl : _sighandlers Runs.with_sigint !! 2 = Some 0%nat)
    by (vm_compute; reflexivity).
  split; [exact H |]. split; [exact Hl |].
  exact (reachable_signals_are_watchable Runs.with_sigint 2 0 H Hl).
Defined.
